(** * rag-poc: chunking, vector store and retry wrapper

    A shallow embedding of the core of the repository:
    - [Chunker]  : [EmbeddingService.splitText] with [findSentenceEnd] and
                   [findWordEnd] (embeddings.ts);
    - [Retry]    : [EmbeddingService.retryRequest] and [parseError]
                   (embeddings.ts, types.ts);
    - [Store]    : [VectorStoreService] (vectorstore.ts);
    - [Embeddings] : [EmbeddingService.chunkArticle], [enforceRateLimit],
                   the calls that create embeddings and [processArticles]
                   (embeddings.ts);
    - [Chat]     : [ChatService.extractSources] and [truncateText] (chat.ts).

    JavaScript numbers that the code uses as character offsets, counters,
    HTTP statuses and delays are integers and are modelled in [Z];
    similarity scores are IEEE 754 doubles and are modelled by Rocq's
    primitive [float]. The own properties of an object used as a
    dictionary are a [gmap]; the order in which [Object.keys] and
    [Object.values] enumerate them is the order of [map_to_list], and no
    statement below depends on it. The dictionaries with string keys are
    plain objects, so a read also finds what the prototype defines and an
    assignment to [__proto__] replaces the prototype: the store keeps the
    prototype of each beside its own properties. Retry delays are computed
    in doubles by the code and in [Z] here; the two agree for back-off
    factor 2, which every constructor sets, and the statements about delays
    are made for such options. *)

From Stdlib Require Import ZArith NArith Floats Lia List Bool Sorted Ascii.
From stdpp Require Import gmap strings pretty list fin_maps.

(** Outcome of a call that may throw. *)
Inductive Result (E A : Type) : Type :=
| Ok (a : A)
| Err (e : E).
Arguments Ok {E A} a.
Arguments Err {E A} e.

(* ===================================================================== *)
(** * The text splitter *)
(* ===================================================================== *)

Module Chunker.
Local Open Scope Z_scope.

(** A JavaScript string is a sequence of UTF-16 code units. *)
Abbreviation text := (list N).

(** [text.length] *)
Definition jsLength (t : text) : Z := Z.of_nat (length t).

(** The class [\s] of a JavaScript regular expression; [String.prototype.trim]
    strips the same code units (WhiteSpace and LineTerminator). *)
Definition isWhitespace (c : N) : bool :=
  ((9 <=? c) && (c <=? 13) || (c =? 32) || (c =? 160) || (c =? 5760)
   || (8192 <=? c) && (c <=? 8202) || (c =? 8232) || (c =? 8233)
   || (c =? 8239) || (c =? 8287) || (c =? 12288) || (c =? 65279))%N.

(** The class [[.!?]]. *)
Definition isSentenceEnder (c : N) : bool :=
  ((c =? 46) || (c =? 33) || (c =? 63))%N.

(** [text[i]]: [None] is [undefined]. *)
Definition charAt (t : text) (i : Z) : option N :=
  if i <? 0 then None else t !! Z.to_nat i.

(** [/\s/.test(text[i])]; [undefined] is tested as the string "undefined",
    which holds no white space. *)
Definition testWhitespace (t : text) (i : Z) : bool :=
  match charAt t i with
  | Some c => isWhitespace c
  | None => false
  end.

(** [String.prototype.slice(start, end)] *)
Definition slice (t : text) (s e : Z) : text :=
  let len := jsLength t in
  let from := if s <? 0 then Z.max (len + s) 0 else Z.min s len in
  let to := if e <? 0 then Z.max (len + e) 0 else Z.min e len in
  take (Z.to_nat (to - from)) (drop (Z.to_nat from) t).

Fixpoint trimStart (t : text) : text :=
  match t with
  | c :: t' => if isWhitespace c then trimStart t' else t
  | [] => []
  end.

Definition trimEnd (t : text) : text := rev (trimStart (rev t)).

(** [String.prototype.trim] *)
Definition trim (t : text) : text := trimEnd (trimStart t).

(** [chunk.trim().length > 0] *)
Definition nonBlank (t : text) : bool := 0 <? jsLength (trim t).

(** [ChunkingOptions] *)
Record ChunkingOptions := {
  size : Z;
  overlap : Z;
  preserveWords : bool;
  preserveSentences : bool
}.

(** The [while ((match = sentenceEnders.exec(text)) !== null)] loop of
    [findSentenceEnd]. [rest] is the text from [idx] on ([idx] is the
    regular expression's [lastIndex]); a match of [/[.!?]\s/g] at [idx]
    moves [lastIndex] past its two code units. *)
Fixpoint sentenceEnders_loop (rest : text) (idx targetPos lastEnd : Z) : Z :=
  match rest with
  | [] => lastEnd
  | c :: tl =>
      match tl with
      | [] => lastEnd
      | d :: rest' =>
          if isSentenceEnder c && isWhitespace d then
            if idx >? targetPos then lastEnd
            else sentenceEnders_loop rest' (idx + 2) targetPos (idx + 1)
          else sentenceEnders_loop tl (idx + 1) targetPos lastEnd
      end
  end.

(** [findSentenceEnd(text, targetPos, minPos)] *)
Definition findSentenceEnd (t : text) (targetPos minPos : Z) : Z :=
  let from := Z.max minPos 0 in
  let lastEnd := sentenceEnders_loop (drop (Z.to_nat from) t) from targetPos (-1) in
  if lastEnd >? minPos then lastEnd else targetPos.

(** The [for (let i = targetPos; i > minPos; i--)] loop of [findWordEnd],
    with [n] the number of indices still to visit. *)
Fixpoint findWordEnd_loop (t : text) (i : Z) (n : nat) (targetPos : Z) : Z :=
  match n with
  | O => targetPos
  | S n' => if testWhitespace t i then i
            else findWordEnd_loop t (i - 1) n' targetPos
  end.

(** [findWordEnd(text, targetPos, minPos)] *)
Definition findWordEnd (t : text) (targetPos minPos : Z) : Z :=
  findWordEnd_loop t targetPos (Z.to_nat (targetPos - minPos)) targetPos.

(** The errors [splitText] throws. *)
Inductive SplitError :=
| InvalidChunkSize (sz : Z)
| InvalidOverlap (ov : Z)
| MaxIterationsExceeded (cap : Z).

(** [Math.ceil(text.length / Math.max(1, size - overlap)) + 100]. The
    length of a string is far below [2^53], so the quotient in doubles has
    the ceiling of the exact quotient. *)
Definition maxIterations (t : text) (o : ChunkingOptions) : Z :=
  - ((- jsLength t) / Z.max 1 (size o - overlap o)) + 100.

(** The value of [end] when the chunk is sliced: the window's end, moved to
    a sentence or word boundary when the window stops short of the text's
    end and the option asks for it. *)
Definition chooseEnd (t : text) (o : ChunkingOptions) (start : Z) : Z :=
  let end_ := start + size o in
  if end_ <? jsLength t then
    if preserveSentences o then
      let sentenceEnd := findSentenceEnd t end_ start in
      if sentenceEnd >? start then sentenceEnd else end_
    else if preserveWords o then
      let wordEnd := findWordEnd t end_ start in
      if wordEnd >? start then wordEnd else end_
    else end_
  else end_.

(** [newStart <= start], the test that forces progress. *)
Definition forced (o : ChunkingOptions) (start end_ : Z) : bool :=
  end_ - overlap o <=? start.

(** The next value of [start]. *)
Definition nextStart (o : ChunkingOptions) (start end_ : Z) : Z :=
  if forced o start end_ then start + Z.max 1 (size o / 2)
  else end_ - overlap o.

(** The variables of the loop. [ranges] and [jumps] are a trace kept beside
    them: [ranges] holds the offsets [(start, end)] of every chunk pushed,
    in step with [chunks]; [jumps] holds [(start, end)] of every iteration
    that logged "Forcing progress". *)
Record LoopState := {
  start : Z;
  iterations : Z;
  chunks : list text;
  ranges : list (Z * Z);
  jumps : list (Z * Z)
}.

Definition initState : LoopState :=
  {| start := 0; iterations := 0; chunks := []; ranges := []; jumps := [] |}.

(** One run of the loop body, up to the assignment of [start]. *)
Definition iterate (t : text) (o : ChunkingOptions) (st : LoopState) : LoopState :=
  let end_ := chooseEnd t o (start st) in
  let chunk := slice t (start st) end_ in
  let keep := nonBlank chunk in
  {| start := nextStart o (start st) end_;
     iterations := iterations st + 1;
     chunks := if keep then chunks st ++ [chunk] else chunks st;
     ranges := if keep then ranges st ++ [(start st, end_)] else ranges st;
     jumps := if forced o (start st) end_
              then jumps st ++ [(start st, end_)] else jumps st |}.

(** [while (start < text.length && iterations < maxIterations) { ... }].
    [None] only when [fuel] runs out before the loop's own test fails. *)
Fixpoint splitLoop (fuel : nat) (t : text) (o : ChunkingOptions) (cap : Z)
    (st : LoopState) : option LoopState :=
  if (start st <? jsLength t) && (iterations st <? cap) then
    match fuel with
    | O => None
    | S fuel' =>
        let st' := iterate t o st in
        if start st' >=? jsLength t then Some st'
        else splitLoop fuel' t o cap st'
    end
  else Some st.

(** The state in which the loop of [splitText] ends. *)
Definition runLoop (t : text) (o : ChunkingOptions) : option LoopState :=
  splitLoop (Z.to_nat (maxIterations t o)) t o (maxIterations t o) initState.

(** [splitText(text, options)] *)
Definition splitText (t : text) (o : ChunkingOptions)
    : option (Result SplitError (list text)) :=
  let cap := maxIterations t o in
  if size o <=? 0 then Some (Err (InvalidChunkSize (size o)))
  else if (overlap o <? 0) || (overlap o >=? size o)
  then Some (Err (InvalidOverlap (overlap o)))
  else
    match runLoop t o with
    | None => None
    | Some st =>
        if iterations st >=? cap then Some (Err (MaxIterationsExceeded cap))
        else Some (Ok (List.filter nonBlank (chunks st)))
    end.

(** The configurations [splitText] accepts. *)
Definition validOptions (o : ChunkingOptions) : Prop :=
  0 < size o /\ 0 <= overlap o < size o.

(** [i] lies in the range of a pushed chunk. *)
Definition covered (rs : list (Z * Z)) (i : Z) : bool :=
  existsb (fun r => (fst r <=? i) && (i <? snd r)) rs.

(** [i] lies between the end of a window and the start the forced advance
    jumped to. *)
Definition skipped (o : ChunkingOptions) (js : list (Z * Z)) (i : Z) : bool :=
  existsb (fun j => (snd j <=? i) && (i <? fst j + Z.max 1 (size o / 2))) js.

(** Code units of an ASCII literal, for examples. *)
Fixpoint ofString (s : string) : text :=
  match s with
  | EmptyString => []
  | String a s' => Ascii.N_of_ascii a :: ofString s'
  end.

(** What the loop keeps true of its trace. *)
Definition traceInv (t : text) (o : ChunkingOptions) (st : LoopState) : Prop :=
  0 <= start st /\
  chunks st = map (fun r => slice t (fst r) (snd r)) (ranges st) /\
  Forall (fun c => nonBlank c = true) (chunks st) /\
  (forall i, 0 <= i < start st -> i < jsLength t -> testWhitespace t i = false ->
             covered (ranges st) i || skipped o (jumps st) i = true) /\
  (overlap o = 0 \/ (preserveSentences o = false /\ preserveWords o = false) ->
   jumps st = []).

(** What the loop keeps true of the ranges it pushes: each is a non-empty
    window that begins inside the text, and the windows begin at strictly
    increasing offsets, all below [start]. *)
Definition rangesInv (t : text) (o : ChunkingOptions) (st : LoopState) : Prop :=
  0 <= start st /\ 0 <= iterations st /\
  chunks st = map (fun r => slice t (fst r) (snd r)) (ranges st) /\
  Forall (fun c => nonBlank c = true) (chunks st) /\
  Forall (fun r => 0 <= fst r < snd r /\ fst r < jsLength t /\
                   snd r <= fst r + size o + 1 /\ fst r < start st) (ranges st) /\
  StronglySorted Z.lt (map fst (ranges st)) /\
  Z.of_nat (length (ranges st)) <= iterations st.

(** A match of [/[.!?]\s/] at index [i]. *)
Definition sentenceMatch (t : text) (i : Z) : bool :=
  match charAt t i, charAt t (i + 1) with
  | Some c, Some d => isSentenceEnder c && isWhitespace d
  | _, _ => false
  end.

(** Configurations and a text for the examples. *)
Definition sentenceOptions : ChunkingOptions :=
  {| size := 3; overlap := 0; preserveWords := false; preserveSentences := true |}.

Definition wordOptions : ChunkingOptions :=
  {| size := 10; overlap := 5; preserveWords := true; preserveSentences := false |}.

Definition alphabet : text := ofString "ab cdefghijklmnopqrstuvwxyz".

Definition plainOptions : ChunkingOptions :=
  {| size := 4; overlap := 1; preserveWords := false; preserveSentences := false |}.

End Chunker.

(* ===================================================================== *)
(** * The retry wrapper *)
(* ===================================================================== *)

Module Retry.
Local Open Scope Z_scope.

(** [SafeError]: the fields [errorObjectSchema] names. An absent optional
    field is [None]. *)
Record SafeError := {
  message : string;
  name : option string;
  stack : option string;
  code : option string;
  status : option Z
}.

(** A thrown value, as [parseError] tells them apart:
    - [ErrorObject e]: an object that [errorObjectSchema] accepts, with the
      fields [e];
    - [ErrorInstance msg nm stk]: an [Error] that the schema rejects, with
      its [message], [name] and [stack];
    - [OtherValue str]: any other value, [str] being [String(error)]. *)
Inductive Thrown :=
| ErrorObject (e : SafeError)
| ErrorInstance (msg nm : string) (stk : option string)
| OtherValue (str : string).

(** [parseError(error)] *)
Definition parseError (error : Thrown) : SafeError :=
  match error with
  | ErrorObject e => e
  | ErrorInstance msg nm stk =>
      {| message := msg; name := Some nm; stack := stk;
         code := None; status := None |}
  | OtherValue str =>
      {| message := str; name := Some "UnknownError"; stack := None;
         code := None; status := None |}
  end.

(** [RetryOptions] *)
Record RetryOptions := {
  maxRetries : Z;
  baseDelay : Z;
  maxDelay : Z;
  backoffFactor : Z
}.

(** The options the constructor of [EmbeddingService] sets. *)
Definition retryOptions : RetryOptions :=
  {| maxRetries := 3; baseDelay := 1000; maxDelay := 30000; backoffFactor := 2 |}.

(** [retryError.status && retryError.status >= 400 &&
     retryError.status < 500 && retryError.status !== 429] *)
Definition isClientError (retryError : SafeError) : bool :=
  match status retryError with
  | Some st => negb (st =? 0) && (400 <=? st) && (st <? 500) && negb (st =? 429)
  | None => false
  end.

(** Options whose delays the code computes without rounding: whole
    numbers, a positive [baseDelay] and a [maxDelay] that doubles hold
    exactly, and [backoffFactor] 2, as the three constructors set it
    ([EmbeddingService], [ZendeskOAuthClient] and [ChatService], the second
    with [maxDelay] 10000). [Math.pow(2, attempt)] is a power of two or
    [Infinity], its product with [baseDelay] is exact or [Infinity], and
    [Math.min] then returns the exact product or [maxDelay]. *)
Definition doubling (opts : RetryOptions) : Prop :=
  backoffFactor opts = 2 /\ 0 < baseDelay opts <= 2 ^ 53 /\
  0 <= maxDelay opts <= 2 ^ 53.

(** [Math.min(baseDelay * Math.pow(backoffFactor, attempt), maxDelay)], for
    [doubling] options, where the double the code computes is this
    integer. *)
Definition backoff (opts : RetryOptions) (attempt : Z) : Z :=
  Z.min (baseDelay opts * backoffFactor opts ^ attempt) (maxDelay opts).

(** What a call of [retryRequest] does: the value it returns or the value
    it throws ([None] is [undefined]), how often it called [operation], and
    the delays it slept, in order. *)
Record Run (T : Type) := {
  outcome : Result (option SafeError) T;
  calls : Z;
  delays : list Z
}.
Arguments outcome {T} r.
Arguments calls {T} r.
Arguments delays {T} r.

Section RetryRequest.
Context {T : Type}.
Variable opts : RetryOptions.

(** [operation attempt] is the outcome of the call made in iteration
    [attempt]: the promise resolves with a value or rejects with a thrown
    value. *)
Variable operation : Z -> Result Thrown T.

(** The [for (let attempt = 0; attempt <= maxRetries; attempt++)] loop,
    followed by [throw lastError]. [None] only when [fuel] runs out before
    the loop's own test fails. *)
Fixpoint retryLoop (fuel : nat) (attempt : Z) (lastError : option SafeError)
    (slept : list Z) : option (Run T) :=
  if attempt <=? maxRetries opts then
    match fuel with
    | O => None
    | S fuel' =>
        match operation attempt with
        | Ok v =>
            Some {| outcome := Ok v; calls := attempt + 1; delays := slept |}
        | Err error =>
            let lastError := Some (parseError error) in
            if attempt =? maxRetries opts then
              Some {| outcome := Err lastError; calls := attempt + 1;
                      delays := slept |}
            else
              let retryError := parseError error in
              if isClientError retryError then
                Some {| outcome := Err lastError; calls := attempt + 1;
                        delays := slept |}
              else
                retryLoop fuel' (attempt + 1) lastError
                  (slept ++ [backoff opts attempt])
        end
    end
  else Some {| outcome := Err lastError; calls := attempt; delays := slept |}.

(** [retryRequest(operation)] *)
Definition retryRequest : option (Run T) :=
  retryLoop (Z.to_nat (maxRetries opts + 1)) 0 None [].

(** An attempt that fails with an error the wrapper retries. *)
Definition retried (attempt : Z) : Prop :=
  exists error, operation attempt = Err error /\
                isClientError (parseError error) = false.

(** What a run ends with: the value of its last call, or the error of its
    last call, which is a client error or the error of the last attempt the
    options allow. *)
Definition endsWith (r : Run T) : Prop :=
  match outcome r with
  | Ok v => operation (calls r - 1) = Ok v
  | Err (Some e) =>
      exists error, operation (calls r - 1) = Err error /\ e = parseError error /\
                    (isClientError e = true \/ calls r - 1 = maxRetries opts)
  | Err None => False
  end.

End RetryRequest.

(** The delays slept before attempt [n]: those of attempts [from], ...,
    [from + n - 1]. *)
Fixpoint backoffs (opts : RetryOptions) (from : Z) (n : nat) : list Z :=
  match n with
  | O => []
  | S n' => backoff opts from :: backoffs opts (from + 1) n'
  end.

(** An operation that fails twice with a server error and then returns 7,
    and one that is refused with status 404. *)
Definition flaky (attempt : Z) : Result Thrown Z :=
  if attempt <? 2 then
    Err (ErrorObject {| message := "TNG Embedding API error (503)";
                        name := Some "Error"; stack := None; code := None;
                        status := Some 503 |})
  else Ok 7.

Definition refused (attempt : Z) : Result Thrown Z :=
  Err (ErrorObject {| message := "Not Found"; name := Some "Error";
                      stack := None; code := None; status := Some 404 |}).

Definition rateLimited (attempt : Z) : Result Thrown Z :=
  Err (ErrorObject {| message := "Too Many Requests"; name := Some "Error";
                      stack := None; code := None; status := Some 429 |}).

End Retry.

(* ===================================================================== *)
(** * JavaScript numbers *)
(* ===================================================================== *)

Module JsNumber.
Local Open Scope float_scope.

Definition two52 : float := 0x1p52.

(** [Math.ceil]. A double of magnitude [2^52] or more is an integer;
    below, [(|x| + 2^52) - 2^52] is [|x|] rounded to the nearest integer. *)
Definition Math_ceil (x : float) : float :=
  if is_nan x || is_infinity x || (x =? 0) then x
  else if two52 <=? abs x then x
  else
    let r := (abs x + two52) - two52 in
    if 0 <? x then (if r <? x then r + 1 else r)
    else - (if abs x <? r then r - 1 else r).

(** [Math.max] of two numbers: [NaN] if either is, and [+0] above [-0]. *)
Definition Math_max (a b : float) : float :=
  if is_nan a || is_nan b then nan
  else if a <? b then b
  else if b <? a then a
  else if (1 / a) <? 0 then b else a.

(** The double of an integer (exact below [2^53]). *)
Definition ofZ (z : Z) : float :=
  if (z <? 0)%Z then - of_uint63 (Uint63.of_Z (- z))
  else of_uint63 (Uint63.of_Z z).

(** The time value of a [Date]: an integral number of milliseconds, or
    [NaN] for an invalid date ([None]). *)
Definition timeValue (d : option Z) : float :=
  match d with
  | Some ms => ofZ ms
  | None => nan
  end.

End JsNumber.

(* ===================================================================== *)
(** * The vector store *)
(* ===================================================================== *)

Module Store.
Import JsNumber.

(** [ZendeskArticle]: the fields of [zendeskArticleSchema] the store and the
    chunker read. *)
Module ZendeskArticle.
Record t := {
  id : Z;
  title : string;
  body : string;
  html_url : string;
  created_at : string;
  updated_at : string
}.
End ZendeskArticle.

Module ArticleChunk.
Record t := {
  id : string;
  articleId : Z;
  title : string;
  content : string;
  chunkIndex : Z;
  totalChunks : Z;
  url : string;
  createdAt : string;
  updatedAt : string
}.
End ArticleChunk.

Module Embedding.
Record t := {
  id : string;
  articleChunkId : string;
  vector : list float;
  model : string;
  createdAt : string
}.
End Embedding.

Module Metadata.
Record t := {
  version : string;
  createdAt : string;
  updatedAt : string;
  totalArticles : Z;
  totalChunks : Z;
  embeddingModel : string;
  chunkSize : Z;
  chunkOverlap : Z
}.
End Metadata.

(** [VectorStore]: the own properties of the three dictionaries, which is
    what [JSON.stringify] writes and [JSON.parse] returns. *)
Record VectorStore := {
  articles : gmap Z ZendeskArticle.t;
  chunks : gmap string ArticleChunk.t;
  embeddings : gmap string Embedding.t;
  metadata : Metadata.t
}.

(** ** Plain objects used as dictionaries

    [vectorStore.chunks] and [vectorStore.embeddings] are plain objects with
    string keys, created by an object literal or by [JSON.parse]. Such an
    object has own properties and a prototype, [Object.prototype] until an
    assignment replaces it. The keys of [vectorStore.articles] are numbers,
    which name no property of a prototype: its own properties are all there
    is to it. *)

(** The names of the properties of [Object.prototype]. *)
Definition prototypeNames : list string :=
  ["constructor"; "__defineGetter__"; "__defineSetter__"; "hasOwnProperty";
   "__lookupGetter__"; "__lookupSetter__"; "isPrototypeOf";
   "propertyIsEnumerable"; "toString"; "valueOf"; "__proto__";
   "toLocaleString"].

(** A plain object with values of type [V]: its own properties and its
    prototype, [None] for [Object.prototype] and [Some p] for an object [p]
    that was assigned to [__proto__]. *)
Definition Obj (V : Type) : Type := gmap string V * option V.

(** [obj[key] = value] for an object [value]. Every property of
    [Object.prototype] but [__proto__] is a writable data property, and so
    are the fields of a prototype [p]: the assignment creates or overwrites
    an own property. [__proto__] is an accessor: unless [obj] has an own
    property of that name (as [JSON.parse] creates one), the assignment
    calls its setter, which makes [value] the prototype of [obj] and adds
    no property. *)
Definition assign {V} (key : string) (value : V) (obj : Obj V) : Obj V :=
  match obj.1 !! key with
  | Some _ => (<[key := value]> obj.1, obj.2)
  | None =>
      if bool_decide (key = "__proto__") then (obj.1, Some value)
      else (<[key := value]> obj.1, obj.2)
  end.

(** What a read [chunks[key]] can give: a chunk, a string or a number (a
    field of a chunk that is the prototype), [Object.prototype] itself, one
    of its functions, or [undefined]. *)
Inductive Value :=
| OfChunk (c : ArticleChunk.t)
| OfString (s : string)
| OfNumber (n : Z)
| ObjectPrototype
| Builtin (name : string)
| Undefined.

(** The own properties of a chunk object. *)
Definition chunkFields (p : ArticleChunk.t) : list (string * Value) :=
  [("id", OfString (ArticleChunk.id p));
   ("articleId", OfNumber (ArticleChunk.articleId p));
   ("title", OfString (ArticleChunk.title p));
   ("content", OfString (ArticleChunk.content p));
   ("chunkIndex", OfNumber (ArticleChunk.chunkIndex p));
   ("totalChunks", OfNumber (ArticleChunk.totalChunks p));
   ("url", OfString (ArticleChunk.url p));
   ("createdAt", OfString (ArticleChunk.createdAt p));
   ("updatedAt", OfString (ArticleChunk.updatedAt p))].

Definition ownField (p : ArticleChunk.t) (key : string) : option Value :=
  snd <$> List.find (fun kv => bool_decide (kv.1 = key)) (chunkFields p).

(** [Object.prototype[key]] for the receiver [obj]: the getter of
    [__proto__] returns the prototype of [obj]. *)
Definition inherited (proto : option ArticleChunk.t) (key : string) : Value :=
  if bool_decide (key = "__proto__") then
    match proto with
    | Some p => OfChunk p
    | None => ObjectPrototype
    end
  else if bool_decide (key ∈ prototypeNames) then Builtin key
  else Undefined.

(** [obj[key]]: the own property, else the property of the prototype
    chain. *)
Definition getProperty (obj : Obj ArticleChunk.t) (key : string) : Value :=
  match obj.1 !! key with
  | Some c => OfChunk c
  | None =>
      match obj.2 with
      | Some p =>
          match ownField p key with
          | Some v => v
          | None => inherited obj.2 key
          end
      | None => inherited obj.2 key
      end
  end.

(** [ToBoolean]: the empty string, [0] and [undefined] are falsy. *)
Definition truthy (v : Value) : bool :=
  match v with
  | OfChunk _ | ObjectPrototype | Builtin _ => true
  | OfString s => negb (bool_decide (s = EmptyString))
  | OfNumber n => negb (n =? 0)%Z
  | Undefined => false
  end.

(** [value.updatedAt]; [None] is [undefined]. Of the values a read of the
    chunk dictionary gives, only a chunk has the property. *)
Definition readUpdatedAt (v : Value) : option string :=
  match v with
  | OfChunk c => Some (ArticleChunk.updatedAt c)
  | _ => None
  end.

(** [VectorSearchResult]. [chunk] is declared an [ArticleChunk]; it holds
    whatever truthy value the read of the chunk dictionary gave. *)
Record VectorSearchResult := {
  chunk : Value;
  embedding : Embedding.t;
  similarity : float;
  score : float
}.

(** [SearchOptions] *)
Record SearchOptions := {
  maxResults : Z;
  minSimilarity : float;
  includeMetadata : bool;
  boostRecent : bool;
  recentBoostFactor : float
}.

(** The result of [getStats]. *)
Module Stats.
Record t := {
  totalArticles : Z;
  totalChunks : Z;
  totalEmbeddings : Z;
  embeddingModel : string;
  lastUpdated : string
}.
End Stats.

(** The result of [needsReindexing]. *)
Record Reindex := {
  needsReindex : bool;
  newArticles : list ZendeskArticle.t;
  updatedArticles : list ZendeskArticle.t;
  deletedArticleIds : list Z
}.

(** What the file at [filePath] holds: nothing, text that [load] cannot
    read as a store ([readFile] or [JSON.parse] throws, or the value has
    not the shape of a [VectorStore]), or a store. The JSON text itself is
    not modelled: a file that [save] wrote holds the store it wrote. *)
Inductive StoreFile :=
| FileMissing
| FileCorrupt
| FileData (s : VectorStore).

(** Whether [mkdir] or [writeFile] rejects in [save]. A rejected
    [writeFile] has left the file as it was ([torn] false) or has truncated
    it and written a part of the text ([torn] true), which [JSON.parse] does
    not accept. *)
Inductive FsFault := NoFault | MkdirFault | WriteFault (torn : bool).

(** The fields [vectorStore] and [isLoaded] of a [VectorStoreService]:
    [vectorStore] with the own properties, [chunksProto] and
    [embeddingsProto] with the prototypes of [vectorStore.chunks] and
    [vectorStore.embeddings] ([None] is [Object.prototype]); and what the
    service reads of its surroundings: the file at [filePath], the file
    system's readiness to write, and the clock (milliseconds), which every
    [new Date()] of one call reads alike. *)
Record State := {
  vectorStore : VectorStore;
  chunksProto : option ArticleChunk.t;
  embeddingsProto : option Embedding.t;
  isLoaded : bool;
  file : StoreFile;
  fault : FsFault;
  clock : Z
}.

(** The errors the service throws: [Error('Vector store not loaded')],
    [Error('Vectors must have the same length')], and the rejection of
    [mkdir] or [writeFile], which [save] throws on. *)
Inductive StoreError :=
| NotLoaded
| LengthMismatch
| FsError.

(** A method: it returns or throws, and leaves a state behind. *)
Definition M (A : Type) : Type := State -> Result StoreError A * State.

Definition ret {A} (a : A) : M A := fun w => (Ok a, w).

Definition throw {A} (e : StoreError) : M A := fun w => (Err e, w).

Definition bind {A B} (m : M A) (k : A -> M B) : M B :=
  fun w => match m w with
           | (Ok a, w') => k a w'
           | (Err e, w') => (Err e, w')
           end.

Notation "'do' x <- m ; k" := (bind m (fun x => k))
  (at level 10, x name, m at level 100, k at level 200).

Definition getStore : M VectorStore := fun w => (Ok (vectorStore w), w).

(** A change of the properties of the object [this.vectorStore]: the
    dictionaries stay the objects they are and keep their prototypes. *)
Definition setStore (s : VectorStore) : M unit :=
  fun w => (Ok tt, {| vectorStore := s; chunksProto := chunksProto w;
                      embeddingsProto := embeddingsProto w;
                      isLoaded := isLoaded w; file := file w;
                      fault := fault w; clock := clock w |}).

(** [this.vectorStore = s] for a new object [s], made by [JSON.parse] or by
    [createEmptyStore]: its dictionaries have the prototype
    [Object.prototype]. *)
Definition installStore (s : VectorStore) : M unit :=
  fun w => (Ok tt, {| vectorStore := s; chunksProto := None;
                      embeddingsProto := None;
                      isLoaded := isLoaded w; file := file w;
                      fault := fault w; clock := clock w |}).

Definition setLoaded (b : bool) : M unit :=
  fun w => (Ok tt, {| vectorStore := vectorStore w; chunksProto := chunksProto w;
                      embeddingsProto := embeddingsProto w;
                      isLoaded := b; file := file w;
                      fault := fault w; clock := clock w |}).

Definition setFile (f : StoreFile) : M unit :=
  fun w => (Ok tt, {| vectorStore := vectorStore w; chunksProto := chunksProto w;
                      embeddingsProto := embeddingsProto w;
                      isLoaded := isLoaded w; file := f;
                      fault := fault w; clock := clock w |}).

(** [writeFile] writes the text of [s]: the own properties. *)
Definition writeFile (s : VectorStore) : M unit := setFile (FileData s).

Definition withMetadata (s : VectorStore) (m : Metadata.t) : VectorStore :=
  {| articles := articles s; chunks := chunks s; embeddings := embeddings s;
     metadata := m |}.

Definition jsSize {K V} `{Countable K} (m : gmap K V) : Z := Z.of_nat (size m).

(** [Object.values(obj)] *)
Definition values {K V} `{Countable K} (m : gmap K V) : list V :=
  (map_to_list m).*2.

(** [Object.keys(obj)] *)
Definition keys {K V} `{Countable K} (m : gmap K V) : list K :=
  (map_to_list m).*1.

Definition getState : M State := fun w => (Ok w, w).

Definition setState (w' : State) : M unit := fun _ => (Ok tt, w').

(** [Array.prototype.slice(0, end)] *)
Definition arraySlice0 {A} (l : list A) (k : Z) : list A :=
  let len := Z.of_nat (length l) in
  let to := if (k <? 0)%Z then Z.max (len + k) 0 else Z.min k len in
  take (Z.to_nat to) l.

(** [cosineSimilarity(vectorA, vectorB)] *)
Definition cosineSimilarity (vectorA vectorB : list float)
    : Result StoreError float :=
  if negb (length vectorA =? length vectorB)%nat then Err LengthMismatch
  else
    let '(dotProduct, normA, normB) :=
      fold_left (fun '(d, na, nb) '(a, b) =>
                   (d + a * b, na + a * a, nb + b * b)%float)
                (combine vectorA vectorB) (0, 0, 0)%float in
    let magnitude := (sqrt normA * sqrt normB)%float in
    if (magnitude =? 0)%float then Ok 0%float
    else Ok (dotProduct / magnitude)%float.

(** The comparison function [(a, b) => b.score - a.score]. *)
Definition compareScore (a b : VectorSearchResult) : float :=
  (score b - score a)%float.

(** [results.sort(compare)]: a stable sort; [x] is placed after [y] only
    when [compare(x, y) > 0]. When no score is [NaN] every stable sort
    returns this list; with [NaN] scores the order [Array.prototype.sort]
    returns is left open by the language, and only the elements are known. *)
Fixpoint insertResult (x : VectorSearchResult) (l : list VectorSearchResult)
    : list VectorSearchResult :=
  match l with
  | [] => [x]
  | y :: l' => if (0 <? compareScore x y)%float then y :: insertResult x l'
               else x :: l
  end.

Definition sortResults (l : list VectorSearchResult) : list VectorSearchResult :=
  fold_right insertResult [] l.

(** A result without its ranking score, and the results a scan keeps. *)
Definition stripScore (r : VectorSearchResult)
    : Value * Embedding.t * float :=
  (chunk r, embedding r, similarity r).

Definition kept (scan : Result StoreError (list VectorSearchResult))
    : Result StoreError (list (Value * Embedding.t * float)) :=
  match scan with
  | Ok results => Ok (map stripScore results)
  | Err err => Err err
  end.

Definition setBoostRecent (opts : SearchOptions) (b : bool) : SearchOptions :=
  {| maxResults := maxResults opts; minSimilarity := minSimilarity opts;
     includeMetadata := includeMetadata opts; boostRecent := b;
     recentBoostFactor := recentBoostFactor opts |}.

(** Every chunk is stored under its own [id], as [upsertData] stores it. *)
Definition chunksKeyed (s : VectorStore) : Prop :=
  map_Forall (fun k c => ArticleChunk.id c = k) (chunks s).

(** What the loop over [articleIds] has done to a store [s] when it ends in
    [s']. *)
Definition removed (ids : list Z) (s s' : VectorStore) : Prop :=
  (forall k, articles s' !! k
             = if bool_decide (k ∈ ids) then None else articles s !! k) /\
  (forall k, chunks s' !! k
             = match chunks s !! k with
               | Some c => if bool_decide (ArticleChunk.articleId c ∈ ids)
                           then None else Some c
               | None => None
               end) /\
  (forall k c, chunks s !! k = Some c -> ArticleChunk.articleId c ∈ ids ->
               embeddings s' !! (ArticleChunk.id c +:+ "_embedding") = None) /\
  (forall e, (forall k c, chunks s !! k = Some c ->
                          ArticleChunk.articleId c ∈ ids ->
                          e <> ArticleChunk.id c +:+ "_embedding") ->
             embeddings s' !! e = embeddings s !! e) /\
  (forall e, embeddings s !! e = None -> embeddings s' !! e = None) /\
  chunksKeyed s'.

(** The same of a state: of the store in memory and of the store in the
    file, which is what [load()] would install. *)
Definition wellKeyed (w : State) : Prop :=
  chunksKeyed (vectorStore w) /\
  match file w with
  | FileData s => chunksKeyed s
  | _ => True
  end.

Section Service.

(** [new Date(ms).toISOString()] *)
Variable toISOString : Z -> string.

(** The time value of [new Date(s)]; [None] for an invalid date. *)
Variable Date_parse : string -> option Z.

(** [new Date().toISOString()] *)
Definition now : M string := fun w => (Ok (toISOString (clock w)), w).

(** The structure [createEmptyStore()] returns at time [t]. *)
Definition emptyStore (t : string) : VectorStore :=
  {| articles := ∅; chunks := ∅; embeddings := ∅;
     metadata := {| Metadata.version := "1.0.0";
                    Metadata.createdAt := t;
                    Metadata.updatedAt := t;
                    Metadata.totalArticles := 0;
                    Metadata.totalChunks := 0;
                    Metadata.embeddingModel := "";
                    Metadata.chunkSize := 1000;
                    Metadata.chunkOverlap := 200 |} |}.

(** [createEmptyStore()] *)
Definition createEmptyStore : M VectorStore :=
  do t <- now; ret (emptyStore t).

(** [new VectorStoreService(filePath, logger)], in surroundings [f], [flt]
    and [clk]. *)
Definition newService (f : StoreFile) (flt : FsFault) (clk : Z) : State :=
  {| vectorStore := emptyStore (toISOString clk); chunksProto := None;
     embeddingsProto := None; isLoaded := false;
     file := f; fault := flt; clock := clk |}.

(** The store [load()] installs: the one in the file, or an empty one when
    the file is missing or cannot be read. *)
Definition loadedStore (w : State) : VectorStore :=
  match file w with
  | FileData s => s
  | _ => emptyStore (toISOString (clock w))
  end.

(** [load()]: every path of the [try] and the [catch] ends with
    [isLoaded = true]. *)
Definition load : M unit :=
  do w <- getState;
  match file w with
  | FileData s => do _ <- installStore s; setLoaded true
  | FileMissing =>
      do s <- createEmptyStore; do _ <- installStore s; setLoaded true
  | FileCorrupt =>
      do s <- createEmptyStore; do _ <- installStore s; setLoaded true
  end.

(** [if (!this.isLoaded) { await this.load(); }] *)
Definition ensureLoaded : M unit :=
  do w <- getState; if isLoaded w then ret tt else load.

(** [save()] *)
Definition save : M unit :=
  do w <- getState;
  if negb (isLoaded w) then throw NotLoaded
  else
    match fault w with
    | MkdirFault => throw FsError
    | flt =>
        do t <- now;
        do s <- getStore;
        let m := metadata s in
        let s' := withMetadata s
          {| Metadata.version := Metadata.version m;
             Metadata.createdAt := Metadata.createdAt m;
             Metadata.updatedAt := t;
             Metadata.totalArticles := jsSize (articles s);
             Metadata.totalChunks := jsSize (chunks s);
             Metadata.embeddingModel := Metadata.embeddingModel m;
             Metadata.chunkSize := Metadata.chunkSize m;
             Metadata.chunkOverlap := Metadata.chunkOverlap m |} in
        do _ <- setStore s';
        match flt with
        | WriteFault torn =>
            do _ <- (if torn then setFile FileCorrupt else ret tt);
            throw FsError
        | _ => writeFile s'
        end
    end.

(** The store [save()] leaves in memory and writes. *)
Definition stamped (w : State) : VectorStore :=
  let s := vectorStore w in
  let m := metadata s in
  withMetadata s
    {| Metadata.version := Metadata.version m;
       Metadata.createdAt := Metadata.createdAt m;
       Metadata.updatedAt := toISOString (clock w);
       Metadata.totalArticles := jsSize (articles s);
       Metadata.totalChunks := jsSize (chunks s);
       Metadata.embeddingModel := Metadata.embeddingModel m;
       Metadata.chunkSize := Metadata.chunkSize m;
       Metadata.chunkOverlap := Metadata.chunkOverlap m |}.

(** The state [save()] leaves when it got as far as [writeFile], with what
    the file then holds. *)
Definition stampedState (w : State) (f : StoreFile) : State :=
  {| vectorStore := stamped w; chunksProto := chunksProto w;
     embeddingsProto := embeddingsProto w; isLoaded := isLoaded w;
     file := f; fault := fault w; clock := clock w |}.

(** The state [load()] leaves. *)
Definition loadedState (w : State) : State :=
  {| vectorStore := loadedStore w; chunksProto := None;
     embeddingsProto := None; isLoaded := true;
     file := file w; fault := fault w; clock := clock w |}.

(** The three loops of [upsertData] and its update of the metadata: the
    state they leave. *)
Definition upserted (newArticles : list ZendeskArticle.t)
    (newChunks : list ArticleChunk.t) (newEmbeddings : list Embedding.t)
    (embeddingModel : string) (chunkSize chunkOverlap : Z) (w : State) : State :=
  let s := vectorStore w in
  let m := metadata s in
  let cs := fold_left (fun obj c => assign (ArticleChunk.id c) c obj)
                      newChunks (chunks s, chunksProto w) in
  let es := fold_left (fun obj e => assign (Embedding.id e) e obj)
                      newEmbeddings (embeddings s, embeddingsProto w) in
  {| vectorStore :=
       {| articles :=
            fold_left (fun acc a => <[ZendeskArticle.id a := a]> acc)
                      newArticles (articles s);
          chunks := cs.1;
          embeddings := es.1;
          metadata :=
            {| Metadata.version := Metadata.version m;
               Metadata.createdAt := Metadata.createdAt m;
               Metadata.updatedAt := Metadata.updatedAt m;
               Metadata.totalArticles := Metadata.totalArticles m;
               Metadata.totalChunks := Metadata.totalChunks m;
               Metadata.embeddingModel := embeddingModel;
               Metadata.chunkSize := chunkSize;
               Metadata.chunkOverlap := chunkOverlap |} |};
     chunksProto := cs.2;
     embeddingsProto := es.2;
     isLoaded := isLoaded w; file := file w; fault := fault w;
     clock := clock w |}.

(** [upsertData(articles, chunks, embeddings, embeddingModel, chunkSize,
    chunkOverlap)] *)
Definition upsertData (newArticles : list ZendeskArticle.t)
    (newChunks : list ArticleChunk.t) (newEmbeddings : list Embedding.t)
    (embeddingModel : string) (chunkSize chunkOverlap : Z) : M unit :=
  do _ <- ensureLoaded;
  do w <- getState;
  do _ <- setState (upserted newArticles newChunks newEmbeddings embeddingModel
                             chunkSize chunkOverlap w);
  save.

(** The time value of [new Date(value)] for a string or [undefined]
    ([None]); [new Date(undefined)] is an invalid date. *)
Definition dateOf (value : option string) : option Z :=
  match value with
  | Some s => Date_parse s
  | None => None
  end.

(** [getArticleAgeInDays(updatedAt)], at clock reading [clk]. The parameter
    is declared a string; [search] passes [chunk.updatedAt], which is
    [undefined] ([None]) when [chunk] is no chunk. *)
Definition getArticleAgeInDays (clk : Z) (updatedAt : option string) : float :=
  let diffTime := abs (ofZ clk - timeValue (dateOf updatedAt))%float in
  Math_ceil (diffTime / 86400000)%float.

(** The score pushed with a result. *)
Definition scoreOf (clk : Z) (opts : SearchOptions) (c : Value)
    (sim : float) : float :=
  if boostRecent opts then
    let articleAge := getArticleAgeInDays clk (readUpdatedAt c) in
    let boostFactor :=
      Math_max 1 (recentBoostFactor opts - articleAge / 365)%float in
    (sim * boostFactor)%float
  else sim.

(** What [search] promises of a result [r], for the store [s], the
    prototype [proto] of its chunk dictionary and the clock reading [clk] it
    ran on. *)
Definition searchHit (clk : Z) (s : VectorStore) (proto : option ArticleChunk.t)
    (q : list float) (opts : SearchOptions) (r : VectorSearchResult) : Prop :=
  (exists k, embeddings s !! k = Some (embedding r)) /\
  getProperty (chunks s, proto) (Embedding.articleChunkId (embedding r))
  = chunk r /\
  truthy (chunk r) = true /\
  cosineSimilarity q (Embedding.vector (embedding r)) = Ok (similarity r) /\
  (minSimilarity opts <=? similarity r)%float = true /\
  score r
  = if boostRecent opts then
      (similarity r
       * Math_max 1 (recentBoostFactor opts
                     - getArticleAgeInDays clk
                         (readUpdatedAt (chunk r)) / 365))%float
    else similarity r.

(** The [for (const embedding of embeddings)] loop of [search]: [results]
    as pushed so far, or the error [cosineSimilarity] throws. *)
Fixpoint searchLoop (clk : Z) (s : VectorStore) (proto : option ArticleChunk.t)
    (queryEmbedding : list float) (opts : SearchOptions)
    (embs : list Embedding.t) (results : list VectorSearchResult)
    : Result StoreError (list VectorSearchResult) :=
  match embs with
  | [] => Ok results
  | e :: rest =>
      match cosineSimilarity queryEmbedding (Embedding.vector e) with
      | Err err => Err err
      | Ok sim =>
          let results' :=
            if (minSimilarity opts <=? sim)%float then
              let c := getProperty (chunks s, proto) (Embedding.articleChunkId e) in
              if truthy c then
                results ++ [{| chunk := c; embedding := e; similarity := sim;
                               score := scoreOf clk opts c sim |}]
              else results
            else results in
          searchLoop clk s proto queryEmbedding opts rest results'
      end
  end.

(** [search(queryEmbedding, options)] *)
Definition search (queryEmbedding : list float) (opts : SearchOptions)
    : M (list VectorSearchResult) :=
  do _ <- ensureLoaded;
  do w <- getState;
  let s := vectorStore w in
  match searchLoop (clock w) s (chunksProto w) queryEmbedding opts
                   (values (embeddings s)) [] with
  | Err err => throw err
  | Ok results => ret (arraySlice0 (sortResults results) (maxResults opts))
  end.

(** [getArticle(articleId)]; [None] is [null]. *)
Definition getArticle (articleId : Z) : M (option ZendeskArticle.t) :=
  do w <- getState;
  if negb (isLoaded w) then throw NotLoaded
  else ret (articles (vectorStore w) !! articleId).

(** [getChunk(chunkId)]; [None] is [null]. The result is declared an
    [ArticleChunk]; it is whatever truthy value the read gives. *)
Definition getChunk (chunkId : string) : M (option Value) :=
  do w <- getState;
  if negb (isLoaded w) then throw NotLoaded
  else
    let v := getProperty (chunks (vectorStore w), chunksProto w) chunkId in
    ret (if truthy v then Some v else None).

(** [getArticleChunks(articleId)] *)
Definition getArticleChunks (articleId : Z) : M (list ArticleChunk.t) :=
  do w <- getState;
  if negb (isLoaded w) then throw NotLoaded
  else ret (List.filter (fun c => (ArticleChunk.articleId c =? articleId)%Z)
                        (values (chunks (vectorStore w)))).

(** [getStats()] *)
Definition getStats : M Stats.t :=
  do w <- getState;
  if negb (isLoaded w) then throw NotLoaded
  else
    let s := vectorStore w in
    ret {| Stats.totalArticles := jsSize (articles s);
           Stats.totalChunks := jsSize (chunks s);
           Stats.totalEmbeddings := jsSize (embeddings s);
           Stats.embeddingModel := Metadata.embeddingModel (metadata s);
           Stats.lastUpdated := Metadata.updatedAt (metadata s) |}.

(** [clear()] *)
Definition clear : M unit :=
  do s <- createEmptyStore; do _ <- installStore s; save.

(** [hasArticle(articleId)] *)
Definition hasArticle (articleId : Z) : M bool :=
  do w <- getState;
  if negb (isLoaded w) then ret false
  else ret (bool_decide (is_Some (articles (vectorStore w) !! articleId))).

(** [new Date(a) > new Date(b)]: a comparison with [NaN] is false. *)
Definition isNewer (a b : string) : bool :=
  match Date_parse a, Date_parse b with
  | Some ta, Some tb => (tb <? ta)%Z
  | _, _ => false
  end.

(** An article whose [id] the store does not hold. *)
Definition isAbsent (existingArticles : gmap Z ZendeskArticle.t)
    (article : ZendeskArticle.t) : bool :=
  match existingArticles !! ZendeskArticle.id article with
  | None => true
  | Some _ => false
  end.

(** An article the store holds with an older [updated_at]. *)
Definition isUpdated (existingArticles : gmap Z ZendeskArticle.t)
    (article : ZendeskArticle.t) : bool :=
  match existingArticles !! ZendeskArticle.id article with
  | Some existing => isNewer (ZendeskArticle.updated_at article)
                             (ZendeskArticle.updated_at existing)
  | None => false
  end.

(** The body of the loop over [articles] in [needsReindexing], on the pair
    ([newArticles], [updatedArticles]). *)
Definition classify (existingArticles : gmap Z ZendeskArticle.t)
    (acc : list ZendeskArticle.t * list ZendeskArticle.t)
    (article : ZendeskArticle.t)
    : list ZendeskArticle.t * list ZendeskArticle.t :=
  match existingArticles !! ZendeskArticle.id article with
  | None => (acc.1 ++ [article], acc.2)
  | Some existing =>
      if isNewer (ZendeskArticle.updated_at article)
                 (ZendeskArticle.updated_at existing)
      then (acc.1, acc.2 ++ [article])
      else acc
  end.

(** [needsReindexing(articles)] *)
Definition needsReindexing (currentArticles : list ZendeskArticle.t) : M Reindex :=
  do w <- getState;
  if negb (isLoaded w) then
    ret {| needsReindex := true; newArticles := currentArticles;
           updatedArticles := []; deletedArticleIds := [] |}
  else
    let existingArticles := articles (vectorStore w) in
    let currentArticleIds : gset Z :=
      list_to_set (map ZendeskArticle.id currentArticles) in
    let existingArticleIds := keys existingArticles in
    let '(new, updated) :=
      fold_left (classify existingArticles) currentArticles ([], []) in
    let deleted :=
      List.filter (fun i => negb (bool_decide (i ∈ currentArticleIds)))
                  existingArticleIds in
    ret {| needsReindex :=
             (0 <? length new)%nat || (0 <? length updated)%nat
             || (0 <? length deleted)%nat;
           newArticles := new;
           updatedArticles := updated;
           deletedArticleIds := deleted |}.

(** The body of the loop over [chunksToRemove], on the pair of the chunk
    and embedding dictionaries. *)
Definition removeChunk
    (acc : gmap string ArticleChunk.t * gmap string Embedding.t)
    (c : ArticleChunk.t)
    : gmap string ArticleChunk.t * gmap string Embedding.t :=
  let embeddingId := ArticleChunk.id c +:+ "_embedding" in
  (delete (ArticleChunk.id c) acc.1, delete embeddingId acc.2).

(** The body of the loop over [articleIds] in [removeArticles]. *)
Definition removeArticle (s : VectorStore) (articleId : Z) : VectorStore :=
  let chunksToRemove :=
    List.filter (fun c => (ArticleChunk.articleId c =? articleId)%Z)
                (values (chunks s)) in
  let acc := fold_left removeChunk chunksToRemove (chunks s, embeddings s) in
  {| articles := delete articleId (articles s);
     chunks := acc.1; embeddings := acc.2; metadata := metadata s |}.

(** [removeArticles(articleIds)] *)
Definition removeArticles (articleIds : list Z) : M unit :=
  do _ <- ensureLoaded;
  do s <- getStore;
  do _ <- setStore (fold_left removeArticle articleIds s);
  save.

End Service.

(** A clock and a date parser for the examples: the clock always reads the
    start of 2025, and two dates are known. *)
Definition exampleISO (ms : Z) : string := "2025-01-01T00:00:00.000Z".

Definition exampleParse (s : string) : option Z :=
  if decide (s = "2025-01-01T00:00:00.000Z") then Some 1735689600000%Z
  else if decide (s = "2024-01-01T00:00:00.000Z") then Some 1704067200000%Z
  else None.

(** A service on which nothing has been called, and the same after
    [load()], with no store file. *)
Definition freshService : State :=
  newService exampleISO FileMissing NoFault 1735689600000.

Definition loadedService : State := snd (load exampleISO freshService).

Definition article1 : ZendeskArticle.t :=
  {| ZendeskArticle.id := 1; ZendeskArticle.title := "Reset a password";
     ZendeskArticle.body := "Open the settings. Choose reset.";
     ZendeskArticle.html_url := "https://example.zendesk.com/1";
     ZendeskArticle.created_at := "2024-01-01T00:00:00.000Z";
     ZendeskArticle.updated_at := "2024-01-01T00:00:00.000Z" |}.

Definition article1_edited : ZendeskArticle.t :=
  {| ZendeskArticle.id := 1; ZendeskArticle.title := "Reset a password";
     ZendeskArticle.body := "Open the settings. Choose reset. Confirm.";
     ZendeskArticle.html_url := "https://example.zendesk.com/1";
     ZendeskArticle.created_at := "2024-01-01T00:00:00.000Z";
     ZendeskArticle.updated_at := "2025-01-01T00:00:00.000Z" |}.

Definition article2 : ZendeskArticle.t :=
  {| ZendeskArticle.id := 2; ZendeskArticle.title := "Close an account";
     ZendeskArticle.body := "Write to support.";
     ZendeskArticle.html_url := "https://example.zendesk.com/2";
     ZendeskArticle.created_at := "2024-01-01T00:00:00.000Z";
     ZendeskArticle.updated_at := "2024-01-01T00:00:00.000Z" |}.

Definition chunk1 (n : string) (text : string) : ArticleChunk.t :=
  {| ArticleChunk.id := "article_1_chunk_" +:+ n; ArticleChunk.articleId := 1;
     ArticleChunk.title := "Reset a password"; ArticleChunk.content := text;
     ArticleChunk.chunkIndex := 0; ArticleChunk.totalChunks := 2;
     ArticleChunk.url := "https://example.zendesk.com/1";
     ArticleChunk.createdAt := "2024-01-01T00:00:00.000Z";
     ArticleChunk.updatedAt := "2024-01-01T00:00:00.000Z" |}.

Definition embedding1 (n : string) (v : list float) : Embedding.t :=
  {| Embedding.id := "article_1_chunk_" +:+ n +:+ "_embedding";
     Embedding.articleChunkId := "article_1_chunk_" +:+ n;
     Embedding.vector := v; Embedding.model := "BAAI/bge-large-en-v1.5";
     Embedding.createdAt := "2025-01-01T00:00:00.000Z" |}.

(** The loaded service after document 1 was upserted with two chunks and
    two embeddings. *)
Definition boostedSearch : SearchOptions :=
  {| maxResults := 5; minSimilarity := 0.75; includeMetadata := true;
     boostRecent := true; recentBoostFactor := 2.5 |}.

Definition indexedService : State :=
  snd (upsertData exampleISO [article1]
         [chunk1 "0" "Open the settings."; chunk1 "1" "Choose reset."]
         [embedding1 "0" [1; 0]%float; embedding1 "1" [0.5; 0.5]%float]
         "BAAI/bge-large-en-v1.5" 1000 200 loadedService).

(** The last element of [l] whose key is [k]. *)
Definition lastBy {A K} `{EqDecision K} (key : A -> K) (k : K) (l : list A)
    : option A :=
  List.find (fun x => bool_decide (key x = k)) (rev l).

(** Every article, chunk and embedding is stored under its own [id]. *)
Definition storeKeyed (s : VectorStore) : Prop :=
  map_Forall (fun k a => ZendeskArticle.id a = k) (articles s) /\
  chunksKeyed s /\
  map_Forall (fun k e => Embedding.id e = k) (embeddings s).

(** The counts of the metadata are the sizes of the dictionaries. *)
Definition counted (s : VectorStore) : Prop :=
  Metadata.totalArticles (metadata s) = jsSize (articles s) /\
  Metadata.totalChunks (metadata s) = jsSize (chunks s).

Definition consistent (w : State) : Prop :=
  storeKeyed (vectorStore w) /\
  match file w with
  | FileData s => storeKeyed s /\ counted s
  | _ => True
  end /\
  (isLoaded w = false ->
   articles (vectorStore w) = ∅ /\ chunks (vectorStore w) = ∅ /\
   embeddings (vectorStore w) = ∅) /\
  (forall p, chunksProto w = Some p -> ArticleChunk.id p = "__proto__").

(** The surroundings change between two calls: the clock moves and the
    file system starts or stops failing. *)
Definition surroundings (w : State) (flt : FsFault) (clk : Z) : State :=
  {| vectorStore := vectorStore w; chunksProto := chunksProto w;
     embeddingsProto := embeddingsProto w; isLoaded := isLoaded w;
     file := file w; fault := flt; clock := clk |}.

Section Reachable.
Variable toISOString : Z -> string.
Variable Date_parse : string -> option Z.

(** The states of a service whose file, when there is one, was written by
    the service: the methods that change the state, a new service beside the
    file an earlier one left, and a change of the surroundings. The
    accessors, [hasArticle] and [needsReindexing] leave the state as it
    is. *)
Inductive reachable : State -> Prop :=
| reach_new flt clk :
    reachable (newService toISOString FileMissing flt clk)
| reach_unreadable flt clk :
    reachable (newService toISOString FileCorrupt flt clk)
| reach_restart w flt clk :
    reachable w -> reachable (newService toISOString (file w) flt clk)
| reach_surroundings w flt clk :
    reachable w -> reachable (surroundings w flt clk)
| reach_load w :
    reachable w -> reachable (snd (load toISOString w))
| reach_save w :
    reachable w -> reachable (snd (save toISOString w))
| reach_upsertData w a c e m cs co :
    reachable w -> reachable (snd (upsertData toISOString a c e m cs co w))
| reach_search w q opts :
    reachable w -> reachable (snd (search toISOString Date_parse q opts w))
| reach_removeArticles w ids :
    reachable w -> reachable (snd (removeArticles toISOString ids w))
| reach_clear w :
    reachable w -> reachable (snd (clear toISOString w)).

End Reachable.

(** The embeddings [search] pushes a result for: those at or above the
    threshold for whose [articleChunkId] the read of the chunk dictionary
    gives a truthy value. *)
Definition qualifies (s : VectorStore) (proto : option ArticleChunk.t)
    (q : list float) (opts : SearchOptions) (e : Embedding.t) : bool :=
  match cosineSimilarity q (Embedding.vector e) with
  | Ok sim =>
      (minSimilarity opts <=? sim)%float
      && truthy (getProperty (chunks s, proto) (Embedding.articleChunkId e))
  | Err _ => false
  end.

(** The names under which a read of the chunk dictionary can find what is
    no entry: the properties of [Object.prototype] and, when a chunk is the
    prototype, its fields. *)
Definition fieldNames : list string :=
  ["id"; "articleId"; "title"; "content"; "chunkIndex"; "totalChunks"; "url";
   "createdAt"; "updatedAt"].



(** A chunk whose id is [__proto__] with its embedding, and an embedding
    that names the chunk [constructor]. *)
Definition protoChunk : ArticleChunk.t :=
  {| ArticleChunk.id := "__proto__"; ArticleChunk.articleId := 1;
     ArticleChunk.title := "Reset a password";
     ArticleChunk.content := "Open the settings.";
     ArticleChunk.chunkIndex := 0; ArticleChunk.totalChunks := 1;
     ArticleChunk.url := "https://example.zendesk.com/1";
     ArticleChunk.createdAt := "2024-01-01T00:00:00.000Z";
     ArticleChunk.updatedAt := "2024-01-01T00:00:00.000Z" |}.

Definition protoEmbedding : Embedding.t :=
  {| Embedding.id := "__proto___embedding";
     Embedding.articleChunkId := "__proto__";
     Embedding.vector := [1; 0]%float; Embedding.model := "BAAI/bge-large-en-v1.5";
     Embedding.createdAt := "2025-01-01T00:00:00.000Z" |}.

Definition strayEmbedding : Embedding.t :=
  {| Embedding.id := "stray_embedding";
     Embedding.articleChunkId := "constructor";
     Embedding.vector := [1; 0]%float; Embedding.model := "BAAI/bge-large-en-v1.5";
     Embedding.createdAt := "2025-01-01T00:00:00.000Z" |}.

End Store.

(* ===================================================================== *)
(** * The embedding service *)
(* ===================================================================== *)

Module Embeddings.
Import Chunker Store.
Local Open Scope Z_scope.

(** The errors [chunkArticle] throws: [Error('Invalid article content: ...')]
    and [Error('Text splitting failed: ...')] around what [splitText]
    threw. *)
Inductive ChunkError :=
| InvalidContent
| SplittingFailed (e : SplitError).

(** [10 * 1024 * 1024] *)
Definition maxContentLength : Z := 10 * 1024 * 1024.

(** The code units of ["\n\n[Content truncated due to size]"]. *)
Definition truncationNote : text :=
  [10%N; 10%N] ++ ofString "[Content truncated due to size]".

Section ChunkArticle.

(** The store keeps titles, bodies and contents as strings it never looks
    into; the splitter works on code units. [codeUnits] gives the code
    units of a string and [fromCodeUnits] the string of a sequence of code
    units. *)
Variable codeUnits : string -> text.
Variable fromCodeUnits : text -> string.

(** The template [`article_${article.id}_chunk_${index}`]. *)
Definition chunkId (articleId index : Z) : string :=
  "article_" +:+ pretty articleId +:+ "_chunk_" +:+ pretty index.

(** The object literal pushed for the chunk [index] of [totalChunks], with
    the string [content]. *)
Definition chunkOf (article : ZendeskArticle.t) (totalChunks index : Z)
    (content : text) : ArticleChunk.t :=
  {| ArticleChunk.id := chunkId (ZendeskArticle.id article) index;
     ArticleChunk.articleId := ZendeskArticle.id article;
     ArticleChunk.title := ZendeskArticle.title article;
     ArticleChunk.content := fromCodeUnits content;
     ArticleChunk.chunkIndex := index;
     ArticleChunk.totalChunks := totalChunks;
     ArticleChunk.url := ZendeskArticle.html_url article;
     ArticleChunk.createdAt := ZendeskArticle.created_at article;
     ArticleChunk.updatedAt := ZendeskArticle.updated_at article |}.

(** What [chunkArticle] cuts: the body, shortened to [maxContentLength]
    code units and marked when it is longer. *)
Definition cutContent (content : text) : text :=
  if jsLength content >? maxContentLength
  then slice content 0 maxContentLength ++ truncationNote
  else content.

(** [chunkArticle(article, options)]. The body is a string, so
    [!content || typeof content !== 'string'] is [!content], which holds of
    the empty string only. [None] only when [splitText] runs out of fuel. *)
Definition chunkArticle (article : ZendeskArticle.t) (options : ChunkingOptions)
    : option (Result ChunkError (list ArticleChunk.t)) :=
  let content := codeUnits (ZendeskArticle.body article) in
  if jsLength content =? 0 then Some (Err InvalidContent)
  else if jsLength content =? 0 then
    Some (Ok [chunkOf article 1 0 []])
  else
    let content := cutContent content in
    if jsLength content <=? size options then
      Some (Ok [chunkOf article 1 0 (trim content)])
    else
      match splitText content options with
      | None => None
      | Some (Err e) => Some (Err (SplittingFailed e))
      | Some (Ok chunkTexts) =>
          Some (Ok (imap (fun index chunkText =>
                            chunkOf article (Z.of_nat (length chunkTexts))
                                    (Z.of_nat index) (trim chunkText))
                         chunkTexts))
      end.

End ChunkArticle.

(** A string without the character [_]. *)
Fixpoint plain (s : string) : Prop :=
  match s with
  | EmptyString => True
  | String a s' => a <> "_"%char /\ plain s'
  end.

(** ** The rate limiter *)

(** The entries of [RateLimitState]. *)
Module RequestStamp.
Record t := { timestamp : Z; endpoint : string }.
End RequestStamp.

Module TokenStamp.
Record t := { timestamp : Z; count : Z }.
End TokenStamp.

Record RateLimitState := {
  requests : list RequestStamp.t;
  tokens : list TokenStamp.t
}.

(** The state the constructor sets. *)
Definition noTraffic : RateLimitState := {| requests := []; tokens := [] |}.

(** [Math.min(...stamps)]; [None] is [Infinity], the minimum of no
    number. *)
Definition minTimestamp (stamps : list Z) : option Z :=
  match stamps with
  | [] => None
  | x :: rest => Some (fold_left Z.min rest x)
  end.

(** [Math.min(cap, 60 * 1000 - (now - Math.min(...stamps)))] *)
Definition waitTime (cap now : Z) (stamps : list Z) : Z :=
  match minTimestamp stamps with
  | Some oldest => Z.min cap (60 * 1000 - (now - oldest))
  | None => cap
  end.

(** [recentRequests] and [recentTokens] at the time [now]. *)
Definition recentRequests (now : Z) (st : RateLimitState) : list RequestStamp.t :=
  List.filter (fun r => now - 60 * 1000 <? RequestStamp.timestamp r) (requests st).

Definition recentTokens (now : Z) (st : RateLimitState) : list TokenStamp.t :=
  List.filter (fun t => now - 60 * 1000 <? TokenStamp.timestamp t) (tokens st).

Definition tokenSum (l : list TokenStamp.t) : Z :=
  fold_left (fun sum t => sum + TokenStamp.count t) l 0.

(** [enforceRateLimit(requests)] when [Date.now()] reads [now]: the delays
    it sleeps, in order, and the state it leaves. *)
Definition enforceRateLimit (now : Z) (n : Z) (st : RateLimitState)
    : list Z * RateLimitState :=
  let reqs := recentRequests now st in
  let toks := recentTokens now st in
  let requestLimit := 100 in
  let requestWait :=
    if Z.of_nat (length reqs) + n >? requestLimit
    then [waitTime (10 * 1000) now (map RequestStamp.timestamp reqs)]
    else [] in
  let tokenLimit := 50000 in
  let estimatedTokens := n * 100 in
  let tokenWait :=
    if tokenSum toks + estimatedTokens >? tokenLimit
    then [waitTime (15 * 1000) now (map TokenStamp.timestamp toks)]
    else [] in
  (requestWait ++ tokenWait,
   {| requests := reqs ++ [{| RequestStamp.timestamp := now;
                              RequestStamp.endpoint := "embeddings" |}];
      tokens := toks |}).

(** A minute in which a request was made every half second. *)
Fixpoint everyHalfSecond (n : nat) (from : Z) : list RequestStamp.t :=
  match n with
  | O => []
  | S n' => {| RequestStamp.timestamp := from;
               RequestStamp.endpoint := "embeddings" |}
            :: everyHalfSecond n' (from + 500)
  end.

Definition busyMinute : RateLimitState :=
  {| requests := everyHalfSecond 110 5000; tokens := [] |}.

(** ** Calls of the embedding server *)

(** The body [callTngEmbeddingApi] posts. *)
Inductive Input :=
| Single (text : string)
| Batch (texts : list string).

Record Request := { model : string; input : Input }.

(** A parsed answer as its readers see it. [callTngEmbeddingApi] casts the
    parsed JSON to [EmbeddingResponse] without a check, so the value can be
    [null] ([Null]), on which reading [usage] throws, or a value whose
    [usage] is missing ([None]) and whose [data] is no array ([None]), on
    which [data.map] and [data[0]] throw. The fields that are there have the
    types the interface declares: [usageTokens] is [usage.total_tokens] and
    [data] lists the [embedding] of each entry. *)
Inductive Body :=
| Null
| Object (usageTokens : option Z) (data : option (list (list float))).

(** What one call of [fetch] and the reading of its answer come to:
    - [Rejected error]: [fetch], [response.text()], [response.json()] or
      the reading of the error text rejects or throws [error];
    - [NotOk status detail]: [response.ok] is false, [detail] being
      [errorData.message || errorText];
    - [OkMessage message]: the answer is an object with [message] and
      without [data];
    - [OkBody body]: any other answer. *)
Inductive Fetched :=
| Rejected (error : Retry.Thrown)
| NotOk (status : Z) (detail : string)
| OkMessage (message : string)
| OkBody (body : Body).

(** The state of an [EmbeddingService] with a record of what it did: the
    number of calls of [fetch] and of readings of the clock so far, the
    delays slept and the requests posted, in order. *)
Record Service := {
  limiter : RateLimitState;
  apiCalls : nat;
  clockReads : nat;
  sleeps : list Z;
  sent : list Request
}.

(** [new EmbeddingService(config, timeoutMs, logger)] *)
Definition newEmbeddingService : Service :=
  {| limiter := noTraffic; apiCalls := 0; clockReads := 0; sleeps := [];
     sent := [] |}.

(** An asynchronous method: it resolves or rejects, and leaves a state. *)
Definition E (A : Type) : Type := Service -> Result Retry.Thrown A * Service.

Definition resolve {A} (a : A) : E A := fun s => (Ok a, s).

Definition reject {A} (error : Retry.Thrown) : E A := fun s => (Err error, s).

Definition andThen {A B} (m : E A) (k : A -> E B) : E B :=
  fun s => match m s with
           | (Ok a, s') => k a s'
           | (Err error, s') => (Err error, s')
           end.

Notation "'await' x <- m ; k" := (andThen m (fun x => k))
  (at level 10, x name, m at level 100, k at level 200).

(** [await this.delay(ms)] *)
Definition delay (ms : Z) : E unit :=
  fun s => (Ok tt, {| limiter := limiter s; apiCalls := apiCalls s;
                      clockReads := clockReads s; sleeps := sleeps s ++ [ms];
                      sent := sent s |}).

(** [`Title: ${chunk.title}\n\nContent: ${chunk.content}`] *)
Definition embeddingText (c : ArticleChunk.t) : string :=
  "Title: " +:+ ArticleChunk.title c
  +:+ String (Ascii.ascii_of_nat 10) (String (Ascii.ascii_of_nat 10) "Content: ")
  +:+ ArticleChunk.content c.

Section Calls.

(** The configuration: [config.embeddingModel] and [timeoutMs]. *)
Variable embeddingModel : string.
Variable timeoutMs : Z.

(** The surroundings: the outcome of the [k]-th call of [fetch] for the
    request it posts, the [k]-th reading of the clock ([Date.now()] or
    [new Date()]; the readings made for log lines only are left out),
    [Date.prototype.toISOString], the stack an [Error] records and the
    [TypeError] of reading a property of [undefined] or [null]. *)
Variable fetch : nat -> Request -> Fetched.
Variable Date_now : nat -> Z.
Variable toISOString : Z -> string.
Variable stackTrace : string.
Variable typeError : Retry.Thrown.

(** [new Error(message)]: [errorObjectSchema] accepts it, with its
    [message], the [name] of its prototype and its [stack]. *)
Definition newError (message : string) : Retry.Thrown :=
  Retry.ErrorObject {| Retry.message := message; Retry.name := Some "Error";
                       Retry.stack := Some stackTrace; Retry.code := None;
                       Retry.status := None |}.

(** [callTngEmbeddingApi(request)], given what [fetch] comes to. Every
    error is thrown inside the [try], so each passes the [catch], which
    replaces an error named [AbortError] and throws the others on. *)
Definition callTngEmbeddingApi (fetched : Fetched) : Result Retry.Thrown Body :=
  let rethrow error :=
    if decide (Retry.name (Retry.parseError error) = Some "AbortError")
    then Err (newError ("TNG Embedding API request timed out after "
                        +:+ pretty timeoutMs +:+ "ms"))
    else Err error in
  match fetched with
  | Rejected error => rethrow error
  | NotOk status detail =>
      rethrow (newError ("TNG Embedding API error (" +:+ pretty status
                         +:+ "): " +:+ detail))
  | OkMessage message =>
      rethrow (newError ("TNG Embedding API error: " +:+ message))
  | OkBody body => Ok body
  end.

(** [Date.now()] *)
Definition readClock : E Z :=
  fun s => (Ok (Date_now (clockReads s)),
            {| limiter := limiter s; apiCalls := apiCalls s;
               clockReads := S (clockReads s); sleeps := sleeps s;
               sent := sent s |}).

(** [await this.enforceRateLimit(n)] *)
Definition enforce (n : Z) : E unit :=
  await now <- readClock;
  fun s =>
    let '(waits, st) := enforceRateLimit now n (limiter s) in
    (Ok tt, {| limiter := st; apiCalls := apiCalls s;
               clockReads := clockReads s; sleeps := sleeps s ++ waits;
               sent := sent s |}).

(** [this.rateLimitState.tokens.push({ timestamp: Date.now(), count })] *)
Definition recordTokens (usageTokens : option Z) : E unit :=
  match usageTokens with
  | None => resolve tt
  | Some n =>
      await now <- readClock;
      fun s =>
        (Ok tt, {| limiter :=
                     {| requests := requests (limiter s);
                        tokens := tokens (limiter s)
                                  ++ [{| TokenStamp.timestamp := now;
                                         TokenStamp.count := n |}] |};
                   apiCalls := apiCalls s; clockReads := clockReads s;
                   sleeps := sleeps s; sent := sent s |})
  end.

(** [await this.retryRequest(async () => this.callTngEmbeddingApi(request))]:
    attempt [k] is the next call of [fetch] but [k]. The value thrown is
    [lastError], the error as [parseError] returned it. *)
Definition retried (request : Request) : E Body :=
  fun s =>
    let operation k :=
      callTngEmbeddingApi (fetch (apiCalls s + Z.to_nat k) request) in
    match Retry.retryRequest Retry.retryOptions operation with
    | Some r =>
        (match Retry.outcome r with
         | Ok body => Ok body
         | Err (Some lastError) => Err (Retry.ErrorObject lastError)
         | Err None => Err (Retry.OtherValue "undefined")
         end,
         {| limiter := limiter s;
            apiCalls := apiCalls s + Z.to_nat (Retry.calls r);
            clockReads := clockReads s;
            sleeps := sleeps s ++ Retry.delays r;
            sent := sent s ++ replicate (Z.to_nat (Retry.calls r)) request |})
    | None => (Err (Retry.OtherValue "undefined"), s)
    end.

(** The object for the embedding of [chunk] with the vector [v], created
    when the clock reads [now]. *)
Definition embeddingOf (chunk : ArticleChunk.t) (v : list float) (now : Z)
    : Embedding.t :=
  {| Embedding.id := ArticleChunk.id chunk +:+ "_embedding";
     Embedding.articleChunkId := ArticleChunk.id chunk;
     Embedding.vector := v;
     Embedding.model := embeddingModel;
     Embedding.createdAt := toISOString now |}.

(** [response.data.map((embedding, index) => ...)]: the entry at [index]
    goes with [chunks[index]], and reading the [id] of a chunk that is not
    there throws. *)
Fixpoint zipEmbeddings (items : list (list float)) (chunks : list ArticleChunk.t)
    : E (list Embedding.t) :=
  match items with
  | [] => resolve []
  | v :: items' =>
      match chunks with
      | [] => reject typeError
      | chunk :: chunks' =>
          await now <- readClock;
          await rest <- zipEmbeddings items' chunks';
          resolve (embeddingOf chunk v now :: rest)
      end
  end.

(** [createEmbeddingBatch(chunks)] *)
Definition createEmbeddingBatch (chunks : list ArticleChunk.t)
    : E (list Embedding.t) :=
  await _ <- enforce (Z.of_nat (length chunks));
  await response <- retried {| model := embeddingModel;
                               input := Batch (map embeddingText chunks) |};
  match response with
  | Null => reject typeError
  | Object usageTokens data =>
      await _ <- recordTokens usageTokens;
      match data with
      | None => reject typeError
      | Some items => zipEmbeddings items chunks
      end
  end.

(** [createEmbeddingForChunk(chunk)] *)
Definition createEmbeddingForChunk (chunk : ArticleChunk.t) : E Embedding.t :=
  await _ <- enforce 1;
  await response <- retried {| model := embeddingModel;
                               input := Single (embeddingText chunk) |};
  match response with
  | Null => reject typeError
  | Object usageTokens data =>
      await _ <- recordTokens usageTokens;
      match data with
      | Some (v :: _) =>
          await now <- readClock; resolve (embeddingOf chunk v now)
      | _ => reject typeError
      end
  end.

(** [createQueryEmbedding(query)] *)
Definition createQueryEmbedding (query : string) : E (list float) :=
  await _ <- enforce 1;
  await response <- retried {| model := embeddingModel; input := Single query |};
  match response with
  | Null => reject typeError
  | Object usageTokens data =>
      await _ <- recordTokens usageTokens;
      match data with
      | Some (v :: _) => resolve v
      | _ => reject typeError
      end
  end.

(** The [for (let j = 0; j < batch.length; j++)] loop of the [catch]: a
    chunk whose call fails is passed over. *)
Fixpoint individually (batch : list ArticleChunk.t) (embeddings : list Embedding.t)
    (s : Service) : list Embedding.t * Service :=
  match batch with
  | [] => (embeddings, s)
  | chunk :: rest =>
      match createEmbeddingForChunk chunk s with
      | (Ok embedding, s') => individually rest (embeddings ++ [embedding]) s'
      | (Err _, s') => individually rest embeddings s'
      end
  end.

(** [const batchSize = 5] *)
Definition batchSize : nat := 5.

(** The [for (let i = 0; i < chunks.length; i += batchSize)] loop of
    [createEmbeddingsForChunks], [rest] being the chunks from [i] on.
    [None] only when [fuel] runs out before the loop's own test fails. *)
Fixpoint batchLoop (fuel : nat) (rest : list ArticleChunk.t)
    (embeddings : list Embedding.t) (s : Service)
    : option (list Embedding.t * Service) :=
  match rest with
  | [] => Some (embeddings, s)
  | _ :: _ =>
      match fuel with
      | O => None
      | S fuel' =>
          let batch := take batchSize rest in
          let next := drop batchSize rest in
          match createEmbeddingBatch batch s with
          | (Ok batchEmbeddings, s1) =>
              let s2 := match next with
                        | [] => s1
                        | _ :: _ => snd (delay 500 s1)
                        end in
              batchLoop fuel' next (embeddings ++ batchEmbeddings) s2
          | (Err _, s1) =>
              let '(embeddings', s2) := individually batch embeddings s1 in
              batchLoop fuel' next embeddings' s2
          end
      end
  end.

(** [createEmbeddingsForChunks(chunks)]: every error is caught, so the
    call resolves. *)
Definition createEmbeddingsForChunks (chunks : list ArticleChunk.t) (s : Service)
    : option (list Embedding.t * Service) :=
  batchLoop (length chunks) chunks [] s.

(** [embeddings] are embeddings of the chunks [chunks], one for one and in
    order. *)
Definition embeds (embeddings : list Embedding.t) (chunks : list ArticleChunk.t)
    : Prop :=
  Forall2 (fun e c => exists v now, e = embeddingOf c v now) embeddings chunks.

(** A request of the service: for its model, with one text or a batch of
    one to [batchSize] texts. *)
Definition wellFormed (r : Request) : Prop :=
  model r = embeddingModel /\
  match input r with
  | Single _ => True
  | Batch texts => (0 < length texts <= batchSize)%nat
  end.

(** From [s] to [s'] the service has posted at most [bound] requests, all
    well formed, one for each call of [fetch]. *)
Definition advances (bound : nat) (s s' : Service) : Prop :=
  exists posted,
    sent s' = sent s ++ posted /\
    apiCalls s' = (apiCalls s + length posted)%nat /\
    (length posted <= bound)%nat /\
    Forall wellFormed posted.

End Calls.

Section ProcessArticles.
Variable codeUnits : string -> text.
Variable fromCodeUnits : text -> string.
Variable embeddingModel : string.
Variable timeoutMs : Z.
Variable fetch : nat -> Request -> Fetched.
Variable Date_now : nat -> Z.
Variable toISOString : Z -> string.
Variable stackTrace : string.
Variable typeError : Retry.Thrown.
Variable chunkingOptions : ChunkingOptions.

(** The [for (let i = 0; i < articles.length; i++)] loop of
    [processArticles]. [chunkArticle] is synchronous, so its promise is
    settled when [Promise.race] looks at it and the timeout never wins. An
    article whose chunking throws is passed over. [None] only when a loop
    below runs out of fuel. *)
Fixpoint processLoop (articles : list ZendeskArticle.t)
    (allChunks : list ArticleChunk.t) (allEmbeddings : list Embedding.t)
    (s : Service)
    : option (list ArticleChunk.t * list Embedding.t * Service) :=
  match articles with
  | [] => Some (allChunks, allEmbeddings, s)
  | article :: rest =>
      match chunkArticle codeUnits fromCodeUnits article chunkingOptions with
      | None => None
      | Some (Err _) => processLoop rest allChunks allEmbeddings s
      | Some (Ok chunks) =>
          match createEmbeddingsForChunks embeddingModel timeoutMs fetch
                  Date_now toISOString stackTrace typeError chunks s with
          | None => None
          | Some (embeddings, s') =>
              processLoop rest (allChunks ++ chunks)
                          (allEmbeddings ++ embeddings) s'
          end
      end
  end.

(** The chunks of an article: none when [chunkArticle] throws. *)
Definition chunked (article : ZendeskArticle.t) : list ArticleChunk.t :=
  match chunkArticle codeUnits fromCodeUnits article chunkingOptions with
  | Some (Ok chunks) => chunks
  | _ => []
  end.

(** [processArticles(articles, chunkingOptions)] *)
Definition processArticles (articles : list ZendeskArticle.t) (s : Service)
    : option (list ArticleChunk.t * list Embedding.t * Service) :=
  processLoop articles [] [] s.

End ProcessArticles.

(** A server that answers every request with status 401. *)
Definition unauthorized (k : nat) (request : Request) : Fetched :=
  NotOk 401 "Unauthorized".

(** A server that answers a batch with one vector for each text and a single
    text with one vector. *)
Definition obliging (k : nat) (request : Request) : Fetched :=
  OkBody (Object (Some 12)
            (Some (match input request with
                   | Single _ => [[1; 0]%float]
                   | Batch texts => map (fun _ => [1; 0]%float) texts
                   end))).

(** An article whose body is five spaces. *)
Definition blankArticle : ZendeskArticle.t :=
  {| ZendeskArticle.id := 3; ZendeskArticle.title := "Blank";
     ZendeskArticle.body := "     ";
     ZendeskArticle.html_url := "https://example.zendesk.com/3";
     ZendeskArticle.created_at := "2024-01-01T00:00:00.000Z";
     ZendeskArticle.updated_at := "2024-01-01T00:00:00.000Z" |}.

(** Strings of code units below 256, for the examples. *)
Fixpoint toString (t : text) : string :=
  match t with
  | [] => EmptyString
  | c :: t' => String (Ascii.ascii_of_N c) (toString t')
  end.

End Embeddings.

(* ===================================================================== *)
(** * The sources of an answer *)
(* ===================================================================== *)

Module Chat.
Import Chunker Store.
Local Open Scope Z_scope.

(** [SourceReference] *)
Record SourceReference := {
  articleId : Z;
  title : string;
  url : string;
  snippet : string;
  relevanceScore : float
}.

(** The loop behind [String.prototype.lastIndexOf]: [i] is the index of the
    head of [t] and [found] the last index of [c] before it. *)
Fixpoint lastIndexOf_from (c : N) (t : text) (i found : Z) : Z :=
  match t with
  | [] => found
  | x :: t' => lastIndexOf_from c t' (i + 1) (if (x =? c)%N then i else found)
  end.

(** [t.lastIndexOf(c)] for a single code unit [c]; [-1] when [c] is not
    there. *)
Definition lastIndexOf (c : N) (t : text) : Z := lastIndexOf_from c t 0 (-1).

(** [t.substr(0, n)] *)
Definition substr0 (t : text) (n : Z) : text := take (Z.to_nat n) t.

(** [truncateText(text, maxLength)] *)
Definition truncateText (t : text) (maxLength : Z) : text :=
  if jsLength t <=? maxLength then t
  else
    let truncated := substr0 t maxLength in
    let lastSpace := lastIndexOf 32 truncated in
    if lastSpace >? 0 then substr0 truncated lastSpace ++ ofString "..."
    else truncated ++ ofString "...".

(** What [extractSources] throws: the [TypeError] of [text.length] in
    [truncateText] when [text] is [undefined]. *)
Inductive ChatError := CannotReadLength.

Section Sources.
Variable codeUnits : string -> text.
Variable fromCodeUnits : text -> string.

(** The callback of [searchResults.map] in [extractSources]. Of the values
    a result can hold as its [chunk], only a chunk has the properties
    [articleId], [title], [url] and [content]; on any other they are
    [undefined], and [truncateText(undefined, 150)] throws the [TypeError]
    of reading [length] of [undefined]. *)
Definition sourceOf (result : VectorSearchResult)
    : Result ChatError SourceReference :=
  match chunk result with
  | OfChunk c =>
      Ok {| articleId := ArticleChunk.articleId c;
            title := ArticleChunk.title c;
            url := ArticleChunk.url c;
            snippet :=
              fromCodeUnits (truncateText (codeUnits (ArticleChunk.content c)) 150);
            relevanceScore := similarity result |}
  | _ => Err CannotReadLength
  end.

(** [extractSources(searchResults)]: [map] calls the callback on the
    results in order and ends with the first error thrown. *)
Fixpoint extractSources (searchResults : list VectorSearchResult)
    : Result ChatError (list SourceReference) :=
  match searchResults with
  | [] => Ok []
  | result :: rest =>
      match sourceOf result with
      | Err e => Err e
      | Ok source =>
          match extractSources rest with
          | Ok sources => Ok (source :: sources)
          | Err e => Err e
          end
      end
  end.

End Sources.

End Chat.

(* ===================================================================== *)
(** * Properties of the text splitter *)
(* ===================================================================== *)

Module ChunkerFacts.
Import Chunker.
Local Open Scope Z_scope.

(** ** Boundary search *)

Lemma sentenceEnders_loop_step c d rest idx targetPos lastEnd :
  sentenceEnders_loop (c :: d :: rest) idx targetPos lastEnd =
  if isSentenceEnder c && isWhitespace d then
    if idx >? targetPos then lastEnd
    else sentenceEnders_loop rest (idx + 2) targetPos (idx + 1)
  else sentenceEnders_loop (d :: rest) (idx + 1) targetPos lastEnd.
Proof. reflexivity. Qed.

Lemma sentenceEnders_loop_le (n : nat) :
  forall rest idx targetPos lastEnd,
    (length rest <= n)%nat ->
    sentenceEnders_loop rest idx targetPos lastEnd = lastEnd \/
    sentenceEnders_loop rest idx targetPos lastEnd <= targetPos + 1.
Proof.
  induction n as [|n IH]; intros rest idx targetPos lastEnd Hlen.
  - destruct rest; [left; reflexivity | simpl in Hlen; lia].
  - destruct rest as [|c [|d rest']]; try (left; reflexivity).
    simpl in Hlen. rewrite sentenceEnders_loop_step.
    destruct (isSentenceEnder c && isWhitespace d).
    + destruct (Z.gtb_spec idx targetPos) as [Hgt|Hle]; [left; reflexivity|].
      destruct (IH rest' (idx + 2) targetPos (idx + 1)) as [E|E];
        [lia | rewrite E; right; lia | right; exact E].
    + apply IH. simpl. lia.
Qed.

Lemma findSentenceEnd_le t targetPos minPos :
  0 <= minPos -> findSentenceEnd t targetPos minPos <= targetPos + 1.
Proof.
  intros Hmin. unfold findSentenceEnd.
  set (from := Z.max minPos 0).
  destruct (sentenceEnders_loop_le (length (drop (Z.to_nat from) t))
              (drop (Z.to_nat from) t) from targetPos (-1)) as [E|E];
    [lia | rewrite E | ].
  - destruct (Z.gtb_spec (-1) minPos); lia.
  - destruct (Z.gtb_spec (sentenceEnders_loop (drop (Z.to_nat from) t) from targetPos (-1)) minPos); lia.
Qed.

Lemma findWordEnd_loop_le t n : forall i targetPos,
  i <= targetPos -> findWordEnd_loop t i n targetPos <= targetPos.
Proof.
  induction n as [|n IH]; intros i targetPos Hi; simpl; [lia|].
  destruct (testWhitespace t i); [lia | apply IH; lia].
Qed.

Lemma findWordEnd_le t targetPos minPos : findWordEnd t targetPos minPos <= targetPos.
Proof. unfold findWordEnd. apply findWordEnd_loop_le. lia. Qed.

(** The end of a window lies after its start and at most one code unit
    past [start + size]; only the sentence search can pass [start + size]. *)
Lemma chooseEnd_bounds t o s :
  0 < size o -> 0 <= s ->
  s < chooseEnd t o s <= s + size o + 1 /\
  (preserveSentences o = false -> chooseEnd t o s <= s + size o).
Proof.
  intros Hsz Hs. unfold chooseEnd.
  destruct (Z.ltb_spec (s + size o) (jsLength t)); [|split; [lia | intros; lia]].
  destruct (preserveSentences o).
  - pose proof (findSentenceEnd_le t (s + size o) s Hs).
    destruct (Z.gtb_spec (findSentenceEnd t (s + size o) s) s);
      (split; [lia | intros; discriminate]).
  - destruct (preserveWords o); [|split; [lia | intros; lia]].
    pose proof (findWordEnd_le t (s + size o) s).
    destruct (Z.gtb_spec (findWordEnd t (s + size o) s) s); (split; [lia | intros; lia]).
Qed.

(** Without boundary search the window is exactly [size] long. *)
Lemma chooseEnd_plain t o s :
  preserveSentences o = false -> preserveWords o = false ->
  chooseEnd t o s = s + size o.
Proof.
  intros Hs Hw. unfold chooseEnd. rewrite Hs, Hw.
  destruct (s + size o <? jsLength t); reflexivity.
Qed.

Lemma nextStart_advances o s e : s + 1 <= nextStart o s e.
Proof.
  unfold nextStart, forced. destruct (Z.leb_spec (e - overlap o) s); lia.
Qed.

(** ** Slices and blank chunks *)

Lemma slice_length t s e :
  0 <= s -> 0 <= e -> jsLength (slice t s e) <= Z.max 0 (e - s).
Proof.
  intros Hs He. unfold slice, jsLength.
  rewrite length_take, length_drop.
  destruct (Z.ltb_spec s 0); [lia|].
  destruct (Z.ltb_spec e 0); lia.
Qed.

Lemma slice_lookup t s e i :
  0 <= s -> s <= i -> i < e -> i < jsLength t ->
  slice t s e !! Z.to_nat (i - s) = t !! Z.to_nat i.
Proof.
  intros Hs Hsi Hie Hlen. unfold slice, jsLength in *.
  destruct (Z.ltb_spec s 0); [lia|].
  destruct (Z.ltb_spec e 0); [lia|].
  rewrite lookup_take_lt by lia.
  rewrite lookup_drop. f_equal. lia.
Qed.

Lemma trimStart_Exists t :
  Exists (fun c => isWhitespace c = false) t ->
  Exists (fun c => isWhitespace c = false) (trimStart t).
Proof.
  induction 1 as [c t Hc | c t Hex IH]; simpl.
  - rewrite Hc. constructor. exact Hc.
  - destruct (isWhitespace c) eqn:E; [exact IH | constructor; exact E].
Qed.

Lemma nonBlank_of_char (t : text) c :
  In c t -> isWhitespace c = false -> nonBlank t = true.
Proof.
  intros Hin Hc. unfold nonBlank, trim, trimEnd, jsLength.
  assert (Hex : Exists (fun c => isWhitespace c = false) (trimStart (rev (trimStart t)))).
  { apply trimStart_Exists. apply List.Exists_rev. apply trimStart_Exists.
    apply List.Exists_exists. exists c. split; assumption. }
  rewrite length_rev. destruct (trimStart (rev (trimStart t))).
  - inversion Hex.
  - simpl. apply Z.ltb_lt. lia.
Qed.

(** ** The loop *)

Arguments iterate : simpl never.

Section Loop.
Variables (t : text) (o : ChunkingOptions) (cap : Z).

Lemma splitLoop_O st :
  splitLoop O t o cap st =
  if (start st <? jsLength t) && (iterations st <? cap) then None else Some st.
Proof. reflexivity. Qed.

Lemma splitLoop_S fuel st :
  splitLoop (S fuel) t o cap st =
  if (start st <? jsLength t) && (iterations st <? cap) then
    if start (iterate t o st) >=? jsLength t then Some (iterate t o st)
    else splitLoop fuel t o cap (iterate t o st)
  else Some st.
Proof. reflexivity. Qed.

(** A property kept by every run of the body holds when the loop ends. *)
Lemma splitLoop_invariant (P : LoopState -> Prop) :
  (forall st, P st -> start st < jsLength t -> iterations st < cap ->
              P (iterate t o st)) ->
  forall fuel st st', P st -> splitLoop fuel t o cap st = Some st' -> P st'.
Proof.
  intros Hstep. induction fuel as [|fuel IH]; intros st st' HP Hrun.
  - rewrite splitLoop_O in Hrun.
    destruct ((start st <? jsLength t) && (iterations st <? cap));
      [discriminate | inversion Hrun; subst; exact HP].
  - rewrite splitLoop_S in Hrun.
    destruct ((start st <? jsLength t) && (iterations st <? cap)) eqn:Hc;
      [|inversion Hrun; subst; exact HP].
    apply andb_true_iff in Hc as [H1 H2].
    apply Z.ltb_lt in H1. apply Z.ltb_lt in H2.
    pose proof (Hstep st HP H1 H2) as HP'.
    destruct (start (iterate t o st) >=? jsLength t);
      [inversion Hrun; subst; exact HP'|].
    apply (IH _ _ HP' Hrun).
Qed.

(** The loop ends at the end of the text or at the iteration cap. *)
Lemma splitLoop_exit : forall fuel st st',
  splitLoop fuel t o cap st = Some st' ->
  jsLength t <= start st' \/ cap <= iterations st'.
Proof.
  induction fuel as [|fuel IH]; intros st st' Hrun.
  - rewrite splitLoop_O in Hrun.
    destruct (Z.ltb_spec (start st) (jsLength t)); simpl in Hrun;
      [|inversion Hrun; subst; lia].
    destruct (Z.ltb_spec (iterations st) cap); [discriminate|].
    inversion Hrun; subst; lia.
  - rewrite splitLoop_S in Hrun.
    destruct (Z.ltb_spec (start st) (jsLength t)); cbn [andb] in Hrun;
      [|inversion Hrun; subst; lia].
    destruct (Z.ltb_spec (iterations st) cap); [|inversion Hrun; subst; lia].
    destruct (Z.geb_spec (start (iterate t o st)) (jsLength t)).
    + inversion Hrun; subst; lia.
    + eapply IH; eassumption.
Qed.

(** [cap - iterations] runs of the body are enough. *)
Lemma splitLoop_fuel : forall fuel st,
  cap <= iterations st + Z.of_nat fuel ->
  exists st', splitLoop fuel t o cap st = Some st'.
Proof.
  induction fuel as [|fuel IH]; intros st Hf.
  - rewrite splitLoop_O.
    destruct (Z.ltb_spec (start st) (jsLength t)); simpl; [|eauto].
    destruct (Z.ltb_spec (iterations st) cap); [lia | eauto].
  - rewrite splitLoop_S.
    destruct ((start st <? jsLength t) && (iterations st <? cap)); [|eauto].
    destruct (start (iterate t o st) >=? jsLength t); [eauto|].
    apply IH. unfold iterate; simpl. lia.
Qed.

End Loop.

Lemma maxIterations_ge t o : 100 <= maxIterations t o.
Proof.
  unfold maxIterations, jsLength.
  assert (- Z.of_nat (length t) / Z.max 1 (size o - overlap o) <= 0);
    [apply Z.div_le_upper_bound; lia | lia].
Qed.

Lemma runLoop_total t o : exists st, runLoop t o = Some st.
Proof.
  unfold runLoop. apply splitLoop_fuel. simpl.
  pose proof (maxIterations_ge t o). lia.
Qed.

(** The counters: [iterations] never passes the cap and [start] has moved
    by at least one code unit per iteration. *)
Lemma runLoop_counters t o st :
  runLoop t o = Some st ->
  0 <= iterations st <= maxIterations t o /\ iterations st <= start st.
Proof.
  pose proof (maxIterations_ge t o) as Hcap.
  apply (splitLoop_invariant t o (maxIterations t o)
           (fun st => 0 <= iterations st <= maxIterations t o /\
                      iterations st <= start st)).
  - intros s [Hi Hs] _ Hlt. simpl.
    pose proof (nextStart_advances o (start s) (chooseEnd t o (start s))). lia.
  - simpl. lia.
Qed.

Lemma splitText_unfold t o st :
  validOptions o -> runLoop t o = Some st ->
  splitText t o =
  if iterations st >=? maxIterations t o
  then Some (Err (MaxIterationsExceeded (maxIterations t o)))
  else Some (Ok (List.filter nonBlank (chunks st))).
Proof.
  intros [Hsz [Ho1 Ho2]] Hrun. unfold splitText. rewrite Hrun.
  destruct (Z.leb_spec (size o) 0); [lia|].
  destruct (Z.ltb_spec (overlap o) 0); [lia|].
  destruct (Z.geb_spec (overlap o) (size o)); [lia|]. reflexivity.
Qed.

Lemma splitText_Ok_inv t o cs :
  validOptions o -> splitText t o = Some (Ok cs) ->
  exists st, runLoop t o = Some st /\ iterations st < maxIterations t o /\
             jsLength t <= start st /\ cs = List.filter nonBlank (chunks st).
Proof.
  intros Hv Hs. destruct (runLoop_total t o) as [st Hrun].
  rewrite (splitText_unfold t o st Hv Hrun) in Hs.
  destruct (Z.geb_spec (iterations st) (maxIterations t o)); [discriminate|].
  exists st. repeat split; try assumption; try lia.
  - destruct (splitLoop_exit _ _ _ _ _ _ Hrun); lia.
  - congruence.
Qed.

(** ** Examples *)

Example splitText_sentence :
  splitText (ofString "abc. def") sentenceOptions
  = Some (Ok [ofString "abc."; ofString " de"; ofString "f"]).
Proof. vm_compute. reflexivity. Qed.

Example splitText_words :
  splitText alphabet wordOptions
  = Some (Ok [ofString "ab"; ofString "efghijklmn"; ofString "jklmnopqrs";
              ofString "opqrstuvwx"; ofString "tuvwxyz"; ofString "yz"]).
Proof. vm_compute. reflexivity. Qed.

(** A valid configuration can run into the iteration cap: ten-letter words
    with [size = 10] and [overlap = 4] alternate a forced advance of 5 with
    an advance of 6, which is less than [size - overlap] on average. *)
Example splitText_overflow :
  splitText (concat (repeat (ofString "aaaaaaaaaa ") 700))
    {| size := 10; overlap := 4; preserveWords := true; preserveSentences := false |}
  = Some (Err (MaxIterationsExceeded 1384)).
Proof. vm_compute. reflexivity. Qed.

(** ** Chunk length *)

(** C2, as the claim states it, fails: with [preserveSentences] the window
    [abc] of size 3 is extended over the full stop that follows it, and the
    chunk [abc.] has 4 code units. *)
Lemma chunk_exceeds_size :
  validOptions sentenceOptions /\
  splitText (ofString "abc. def") sentenceOptions
  = Some (Ok [ofString "abc."; ofString " de"; ofString "f"]) /\
  ~ (forall c, In c [ofString "abc."; ofString " de"; ofString "f"] ->
               jsLength c <= size sentenceOptions).
Proof.
  split; [unfold validOptions; simpl; lia|].
  split; [vm_compute; reflexivity|].
  intros H. specialize (H (ofString "abc.") (or_introl eq_refl)).
  vm_compute in H. apply H. reflexivity.
Qed.

(** C2, amended: for every text and every valid configuration, every chunk
    [splitText] returns has at most [size + 1] code units, and at most
    [size] when [preserveSentences] is off. *)
Theorem chunk_length_bound t o cs :
  validOptions o -> splitText t o = Some (Ok cs) ->
  forall c, In c cs ->
    jsLength c <= size o + 1 /\
    (preserveSentences o = false -> jsLength c <= size o).
Proof.
  intros Hv Hs c Hc.
  destruct (splitText_Ok_inv t o cs Hv Hs) as (st & Hrun & _ & _ & ->).
  apply List.filter_In in Hc as [Hc _].
  destruct Hv as [Hsz Hov].
  assert (HP : 0 <= start st /\
               forall c, In c (chunks st) ->
                 jsLength c <= size o + 1 /\
                 (preserveSentences o = false -> jsLength c <= size o)).
  { revert Hrun.
    apply (splitLoop_invariant t o (maxIterations t o)
             (fun st => 0 <= start st /\
                forall c, In c (chunks st) ->
                  jsLength c <= size o + 1 /\
                  (preserveSentences o = false -> jsLength c <= size o))).
    - intros s [Hs0 Hall] _ _.
      pose proof (nextStart_advances o (start s) (chooseEnd t o (start s))).
      destruct (chooseEnd_bounds t o (start s) Hsz Hs0) as [Hb Hb'].
      unfold iterate; simpl. split; [lia|].
      intros c' Hc'.
      destruct (nonBlank (slice t (start s) (chooseEnd t o (start s))));
        [|apply Hall; exact Hc'].
      apply in_app_or in Hc' as [Hc'|[<-|[]]]; [apply Hall; exact Hc'|].
      pose proof (slice_length t (start s) (chooseEnd t o (start s))).
      split; [lia | intros Hps; specialize (Hb' Hps); lia].
    - simpl. split; [lia | intros ? []]. }
  apply HP. exact Hc.
Qed.

Lemma chunk_length_bound_witness :
  validOptions sentenceOptions /\
  forall c, In c [ofString "abc."; ofString " de"; ofString "f"] ->
    jsLength c <= size sentenceOptions + 1 /\
    (preserveSentences sentenceOptions = false ->
     jsLength c <= size sentenceOptions).
Proof.
  assert (Hv : validOptions sentenceOptions) by (unfold validOptions; simpl; lia).
  split; [exact Hv|].
  apply (chunk_length_bound (ofString "abc. def") sentenceOptions _ Hv).
  vm_compute. reflexivity.
Defined.

(** ** Coverage *)

Lemma covered_snoc rs r i :
  covered (rs ++ [r]) i = covered rs i || ((fst r <=? i) && (i <? snd r)).
Proof. unfold covered. rewrite existsb_app. simpl. rewrite orb_false_r. reflexivity. Qed.

Lemma skipped_snoc o js j i :
  skipped o (js ++ [j]) i
  = skipped o js i || ((snd j <=? i) && (i <? fst j + Z.max 1 (size o / 2))).
Proof. unfold skipped. rewrite existsb_app. simpl. rewrite orb_false_r. reflexivity. Qed.

Lemma filter_all {A} (f : A -> bool) (l : list A) :
  Forall (fun x => f x = true) l -> List.filter f l = l.
Proof.
  induction 1 as [|x l Hx _ IH]; simpl; [reflexivity|].
  rewrite Hx, IH. reflexivity.
Qed.

(** A window that holds a code unit other than white space is pushed. *)
Lemma window_kept t s e i :
  0 <= s -> s <= i -> i < e -> i < jsLength t -> testWhitespace t i = false ->
  nonBlank (slice t s e) = true.
Proof.
  intros Hs Hsi Hie Hlen Hws.
  unfold testWhitespace, charAt in Hws.
  destruct (Z.ltb_spec i 0); [lia|].
  destruct (t !! Z.to_nat i) as [c|] eqn:Hc.
  - apply (nonBlank_of_char _ c); [|exact Hws].
    apply list_elem_of_In. apply list_elem_of_lookup.
    exists (Z.to_nat (i - s)). rewrite slice_lookup by lia. exact Hc.
  - apply lookup_ge_None in Hc. unfold jsLength in Hlen. lia.
Qed.

Lemma traceInv_iterate t o st :
  validOptions o -> traceInv t o st -> traceInv t o (iterate t o st).
Proof.
  intros [Hsz Hov] (Hs0 & Hch & Hnb & Hcov & Hj).
  set (s := start st) in *. set (e := chooseEnd t o s).
  destruct (chooseEnd_bounds t o s Hsz Hs0) as [Hb _].
  pose proof (nextStart_advances o s e) as Hadv.
  unfold traceInv, iterate. fold s. fold e. cbn [start chunks ranges jumps].
  split; [lia|]. split; [|split; [|split]].
  - destruct (nonBlank (slice t s e)); [|exact Hch].
    rewrite map_app, Hch. reflexivity.
  - destruct (nonBlank (slice t s e)) eqn:Hk; [|exact Hnb].
    apply Forall_app. split; [exact Hnb | constructor; [exact Hk | constructor]].
  - intros i Hi Hlen Hws.
    destruct (Z.lt_ge_cases i s) as [Hlt|Hge].
    + specialize (Hcov i ltac:(lia) Hlen Hws).
      apply orb_true_iff in Hcov. apply orb_true_iff.
      destruct Hcov as [Hc|Hc]; [left|right].
      * destruct (nonBlank (slice t s e)); [|exact Hc].
        rewrite covered_snoc, Hc. reflexivity.
      * destruct (forced o s e); [|exact Hc].
        rewrite skipped_snoc, Hc. reflexivity.
    + apply orb_true_iff.
      destruct (Z.lt_ge_cases i e) as [Hie|Hie].
      * left. rewrite (window_kept t s e i) by (assumption || lia).
        rewrite covered_snoc. cbn [fst snd].
        apply orb_true_iff. right. apply andb_true_iff.
        split; [apply Z.leb_le | apply Z.ltb_lt]; lia.
      * right. unfold nextStart in Hi.
        destruct (forced o s e); [|lia].
        rewrite skipped_snoc. cbn [fst snd].
        apply orb_true_iff. right. apply andb_true_iff.
        split; [apply Z.leb_le | apply Z.ltb_lt]; lia.
  - intros Hc. specialize (Hj Hc).
    assert (Hf : forced o s e = false).
    { unfold forced. apply Z.leb_gt. destruct Hc as [H0|[Hps Hpw]]; [lia|].
      unfold e. rewrite chooseEnd_plain by assumption. lia. }
    rewrite Hf. exact Hj.
Qed.

(** C3, as the claim states it, fails: with [size = 10], [overlap = 5] and
    [preserveWords] the first window of [alphabet] is cut back to [ab];
    [end - overlap] is then negative, [start] is forced from 0 to 5, and the
    letters [c] and [d] at offsets 3 and 4 are in no chunk. *)
Lemma chunks_leave_gap :
  validOptions wordOptions /\
  exists st,
    runLoop alphabet wordOptions = Some st /\
    splitText alphabet wordOptions = Some (Ok (chunks st)) /\
    ranges st = [(0, 2); (5, 15); (10, 20); (15, 25); (20, 30); (25, 35)] /\
    0 <= 3 < jsLength alphabet /\
    charAt alphabet 3 = Some 99%N /\
    covered (ranges st) 3 = false.
Proof.
  split; [unfold validOptions; simpl; lia|].
  eexists. split; [vm_compute; reflexivity|].
  cbn [chunks ranges].
  split; [vm_compute; reflexivity|].
  split; [reflexivity|].
  split; [vm_compute; split; [discriminate | reflexivity]|].
  split; reflexivity.
Qed.

(** C3, amended: for every text and every valid configuration for which
    [splitText] returns, the chunks returned are the slices of the text at
    the recorded ranges, and every offset of the text that holds a code unit
    other than white space lies in the range of a returned chunk or in a
    stretch [end, start + max(1, size/2)) passed over by a forced advance.
    No advance is forced when [overlap = 0] or when neither
    [preserveSentences] nor [preserveWords] is set; every such offset then
    lies in the range of a returned chunk. *)
Theorem chunks_cover_text t o cs :
  validOptions o -> splitText t o = Some (Ok cs) ->
  exists st,
    runLoop t o = Some st /\
    cs = map (fun r => slice t (fst r) (snd r)) (ranges st) /\
    (forall i, 0 <= i < jsLength t -> testWhitespace t i = false ->
               covered (ranges st) i || skipped o (jumps st) i = true) /\
    (overlap o = 0 \/ (preserveSentences o = false /\ preserveWords o = false) ->
     jumps st = [] /\
     forall i, 0 <= i < jsLength t -> testWhitespace t i = false ->
               covered (ranges st) i = true).
Proof.
  intros Hv Hs.
  destruct (splitText_Ok_inv t o cs Hv Hs) as (st & Hrun & _ & Hend & ->).
  assert (HP : traceInv t o st).
  { revert Hrun.
    apply (splitLoop_invariant t o (maxIterations t o) (traceInv t o)).
    - intros s Hs' _ _. apply traceInv_iterate; assumption.
    - unfold traceInv; simpl.
      split; [lia|]. split; [reflexivity|]. split; [constructor|].
      split; [intros; lia | reflexivity]. }
  destruct HP as (Hs0 & Hch & Hnb & Hcov & Hj).
  exists st. split; [exact Hrun|].
  split; [rewrite (filter_all _ _ Hnb); exact Hch|].
  split; [intros i Hi Hws; apply Hcov; (lia || assumption)|].
  intros Hc. specialize (Hj Hc). split; [exact Hj|].
  intros i Hi Hws. specialize (Hcov i ltac:(lia) ltac:(lia) Hws).
  rewrite Hj in Hcov. simpl in Hcov. rewrite orb_false_r in Hcov. exact Hcov.
Qed.

Lemma chunks_cover_text_witness :
  validOptions sentenceOptions /\
  exists st,
    runLoop (ofString "abc. def") sentenceOptions = Some st /\
    [ofString "abc."; ofString " de"; ofString "f"]
    = map (fun r => slice (ofString "abc. def") (fst r) (snd r)) (ranges st) /\
    (forall i, 0 <= i < jsLength (ofString "abc. def") ->
               testWhitespace (ofString "abc. def") i = false ->
               covered (ranges st) i || skipped sentenceOptions (jumps st) i = true) /\
    (overlap sentenceOptions = 0 \/
     (preserveSentences sentenceOptions = false /\
      preserveWords sentenceOptions = false) ->
     jumps st = [] /\
     forall i, 0 <= i < jsLength (ofString "abc. def") ->
               testWhitespace (ofString "abc. def") i = false ->
               covered (ranges st) i = true).
Proof.
  assert (Hv : validOptions sentenceOptions) by (unfold validOptions; simpl; lia).
  split; [exact Hv|].
  apply (chunks_cover_text (ofString "abc. def") sentenceOptions _ Hv).
  vm_compute. reflexivity.
Defined.

(** ** Termination *)

(** C4: for every text and every valid configuration the loop of
    [splitText] ends after at most [maxIterations] runs of its body, each of
    which moves [start] forward by at least one code unit (by
    [max(1, size/2)] when [end - overlap] does not pass [start]). When it
    ends below the cap the whole text has been walked and the chunks are
    returned; when it ends at the cap the overflow error is thrown. *)
Theorem splitText_terminates t o :
  validOptions o ->
  exists st,
    runLoop t o = Some st /\
    0 <= iterations st <= maxIterations t o /\
    iterations st <= start st /\
    (iterations st < maxIterations t o ->
       jsLength t <= start st /\
       splitText t o = Some (Ok (List.filter nonBlank (chunks st)))) /\
    (iterations st = maxIterations t o ->
       splitText t o = Some (Err (MaxIterationsExceeded (maxIterations t o)))) /\
    (forall s e,
       s + 1 <= nextStart o s e /\
       (e - overlap o <= s -> nextStart o s e = s + Z.max 1 (size o / 2)) /\
       (s < e - overlap o -> nextStart o s e = e - overlap o)).
Proof.
  intros Hv. destruct (runLoop_total t o) as [st Hrun]. exists st.
  destruct (runLoop_counters t o st Hrun) as [Hit Hst].
  pose proof (splitText_unfold t o st Hv Hrun) as Hsplit.
  split; [exact Hrun|]. split; [exact Hit|]. split; [exact Hst|].
  split; [|split].
  - intros Hlt. split.
    + destruct (splitLoop_exit _ _ _ _ _ _ Hrun); lia.
    + rewrite Hsplit. destruct (Z.geb_spec (iterations st) (maxIterations t o));
        [lia | reflexivity].
  - intros Heq. rewrite Hsplit.
    destruct (Z.geb_spec (iterations st) (maxIterations t o)); [reflexivity | lia].
  - intros s e. split; [apply nextStart_advances|].
    unfold nextStart, forced.
    destruct (Z.leb_spec (e - overlap o) s); split; intros; (reflexivity || lia).
Qed.

Lemma splitText_terminates_witness :
  validOptions wordOptions /\
  exists st,
    runLoop alphabet wordOptions = Some st /\
    0 <= iterations st <= maxIterations alphabet wordOptions /\
    iterations st <= start st /\
    (iterations st < maxIterations alphabet wordOptions ->
       jsLength alphabet <= start st /\
       splitText alphabet wordOptions
       = Some (Ok (List.filter nonBlank (chunks st)))) /\
    (iterations st = maxIterations alphabet wordOptions ->
       splitText alphabet wordOptions
       = Some (Err (MaxIterationsExceeded (maxIterations alphabet wordOptions)))) /\
    (forall s e,
       s + 1 <= nextStart wordOptions s e /\
       (e - overlap wordOptions <= s ->
        nextStart wordOptions s e = s + Z.max 1 (size wordOptions / 2)) /\
       (s < e - overlap wordOptions ->
        nextStart wordOptions s e = e - overlap wordOptions)).
Proof.
  assert (Hv : validOptions wordOptions) by (unfold validOptions; simpl; lia).
  split; [exact Hv | exact (splitText_terminates alphabet wordOptions Hv)].
Defined.

(** ** Rejected configurations *)

(** [splitText] throws the two configuration errors exactly on the invalid
    configurations, the size being tested first; on a valid configuration
    the only error it can throw is the one of the iteration cap. *)
Theorem splitText_rejects t o :
  (size o <= 0 ->
   splitText t o = Some (Err (InvalidChunkSize (size o)))) /\
  (0 < size o -> overlap o < 0 \/ size o <= overlap o ->
   splitText t o = Some (Err (InvalidOverlap (overlap o)))) /\
  (validOptions o -> forall e, splitText t o = Some (Err e) ->
   e = MaxIterationsExceeded (maxIterations t o)) /\
  (forall cs, splitText t o = Some (Ok cs) -> validOptions o).
Proof.
  unfold splitText, validOptions.
  destruct (Z.leb_spec (size o) 0) as [Hs|Hs].
  { split; [reflexivity|]. split; [lia|]. split; [lia | discriminate]. }
  destruct (Z.ltb_spec (overlap o) 0) as [Ho|Ho]; simpl.
  { split; [lia|]. split; [reflexivity|]. split; [lia | discriminate]. }
  destruct (Z.geb_spec (overlap o) (size o)) as [Ho'|Ho'].
  { split; [lia|]. split; [reflexivity|]. split; [lia | discriminate]. }
  split; [lia|]. split; [lia|]. split; [|intros; lia].
  intros _ e. destruct (runLoop t o) as [st|]; [|discriminate].
  destruct (iterations st >=? maxIterations t o); [|discriminate].
  intros H. inversion H. reflexivity.
Qed.

(** ** Short texts *)

(** A text of at most [size - overlap] code units is returned as one chunk,
    or as none when it holds white space only (or nothing). *)
Theorem splitText_short t o :
  validOptions o -> jsLength t <= size o - overlap o ->
  splitText t o = Some (Ok (if nonBlank t then [t] else [])).
Proof.
  intros Hv Hlen. pose proof Hv as [Hsz [Ho1 Ho2]].
  pose proof (maxIterations_ge t o) as Hcap.
  assert (Hce : chooseEnd t o 0 = size o).
  { unfold chooseEnd. destruct (Z.ltb_spec (0 + size o) (jsLength t)); lia. }
  assert (Hit : iterate t o initState
          = {| start := size o - overlap o; iterations := 1;
               chunks := if nonBlank t then [t] else [];
               ranges := if nonBlank t then [(0, size o)] else [];
               jumps := [] |}).
  { unfold iterate. cbn [start iterations chunks ranges jumps initState].
    rewrite Hce. unfold nextStart, forced.
    destruct (Z.leb_spec (size o - overlap o) 0); [lia|].
    assert (Hslice : slice t 0 (size o) = t).
    { unfold slice. destruct (Z.ltb_spec 0 0); [lia|].
      destruct (Z.ltb_spec (size o) 0); [lia|]. unfold jsLength in *.
      rewrite (Z.min_l 0), (Z.min_r (size o)) by lia.
      change (Z.to_nat 0) with O. rewrite drop_0. apply take_ge. lia. }
    rewrite Hslice. destruct (nonBlank t); reflexivity. }
  assert (Hrun : runLoop t o
          = Some (if 0 <? jsLength t then iterate t o initState else initState)).
  { unfold runLoop.
    destruct (Z.to_nat (maxIterations t o)) as [|fuel] eqn:Hf; [lia|].
    rewrite splitLoop_S. cbn [start iterations initState].
    destruct (Z.ltb_spec 0 (jsLength t)) as [Hpos|Hpos]; [|reflexivity].
    destruct (Z.ltb_spec 0 (maxIterations t o)); [|lia]. cbn [andb].
    rewrite Hit. cbn [start].
    destruct (Z.geb_spec (size o - overlap o) (jsLength t)); [reflexivity | lia]. }
  rewrite (splitText_unfold t o _ Hv Hrun).
  destruct (Z.ltb_spec 0 (jsLength t)) as [Hpos|Hpos].
  - rewrite Hit. cbn [iterations chunks].
    destruct (Z.geb_spec 1 (maxIterations t o)); [lia|].
    destruct (nonBlank t) eqn:Hnb; simpl; [rewrite Hnb|]; reflexivity.
  - cbn [iterations chunks initState].
    destruct (Z.geb_spec 0 (maxIterations t o)); [lia|].
    assert (t = []) by (destruct t; [reflexivity | unfold jsLength in Hpos; simpl in Hpos; lia]).
    subst t. reflexivity.
Qed.

Lemma splitText_short_witness :
  validOptions wordOptions /\
  jsLength (ofString "abcd") <= size wordOptions - overlap wordOptions /\
  splitText (ofString "abcd") wordOptions
  = Some (Ok (if nonBlank (ofString "abcd") then [ofString "abcd"] else [])).
Proof.
  assert (Hv : validOptions wordOptions) by (unfold validOptions; simpl; lia).
  assert (Hl : jsLength (ofString "abcd") <= size wordOptions - overlap wordOptions)
    by (vm_compute; discriminate).
  split; [exact Hv|]. split; [exact Hl|].
  exact (splitText_short (ofString "abcd") wordOptions Hv Hl).
Defined.

(** A text longer than [size - overlap] can come back in two chunks although
    it fits in one window. *)
Example splitText_fits_window_twice :
  splitText (ofString "abcdefgh") wordOptions
  = Some (Ok [ofString "abcdefgh"; ofString "fgh"]).
Proof. vm_compute. reflexivity. Qed.

(** ** The chunks as slices of the text *)

Lemma StronglySorted_snoc {A} (R : A -> A -> Prop) l y :
  StronglySorted R l -> Forall (fun x => R x y) l ->
  StronglySorted R (l ++ [y]).
Proof.
  induction 1 as [|x l Hl IH Hx]; intros Hy; simpl.
  - repeat constructor.
  - inversion Hy; subst. constructor; [apply IH; assumption|].
    apply Forall_app. split; [exact Hx | repeat constructor; assumption].
Qed.

Lemma trimStart_head t :
  match trimStart t with [] => True | c :: _ => isWhitespace c = false end.
Proof.
  induction t as [|c t IH]; simpl; [exact I|].
  destruct (isWhitespace c) eqn:E; [exact IH | exact E].
Qed.

Lemma trimStart_In t c : In c (trimStart t) -> In c t.
Proof.
  induction t as [|d t IH]; simpl; [tauto|].
  destruct (isWhitespace d); [intros H; right; apply IH, H | simpl; tauto].
Qed.

Lemma nonBlank_Exists t :
  nonBlank t = true -> Exists (fun u => isWhitespace u = false) t.
Proof.
  unfold nonBlank, trim, trimEnd, jsLength. rewrite List.length_rev.
  pose proof (trimStart_head (rev (trimStart t))) as Hh.
  pose proof (trimStart_In (rev (trimStart t))) as Hin.
  destruct (trimStart (rev (trimStart t))) as [|c l]; [discriminate|].
  intros _. apply List.Exists_exists. exists c. split; [|exact Hh].
  apply trimStart_In, List.in_rev, Hin. left. reflexivity.
Qed.

Lemma trim_length t : jsLength (trim t) <= jsLength t.
Proof.
  assert (H : forall l : text, (length (trimStart l) <= length l)%nat).
  { induction l as [|c l IH]; simpl; [lia|].
    destruct (isWhitespace c); simpl; lia. }
  unfold trim, trimEnd, jsLength. rewrite List.length_rev.
  pose proof (H (rev (trimStart t))) as H1. rewrite List.length_rev in H1.
  pose proof (H t). lia.
Qed.

Lemma rangesInv_iterate t o st :
  validOptions o -> start st < jsLength t ->
  rangesInv t o st -> rangesInv t o (iterate t o st).
Proof.
  intros [Hsz Hov] Hlt (Hs0 & Hi0 & Hch & Hnb & Hrs & Hsrt & Hlen).
  set (s := start st) in *. set (e := chooseEnd t o s).
  destruct (chooseEnd_bounds t o s Hsz Hs0) as [Hb _].
  pose proof (nextStart_advances o s e) as Hadv.
  assert (Hrs' : Forall (fun r => 0 <= fst r < snd r /\ fst r < jsLength t /\
                   snd r <= fst r + size o + 1 /\ fst r < nextStart o s e)
                 (ranges st)).
  { eapply List.Forall_impl; [|exact Hrs]. cbv beta. intros r Hr. lia. }
  unfold rangesInv, iterate. fold s. fold e.
  cbn [start iterations chunks ranges jumps].
  split; [lia|]. split; [lia|].
  destruct (nonBlank (slice t s e)) eqn:Hk.
  - split; [rewrite map_app, Hch; reflexivity|].
    split; [apply Forall_app; split; [exact Hnb | repeat constructor; exact Hk]|].
    split; [apply Forall_app; split; [exact Hrs'|]|].
    { repeat constructor; cbn [fst snd]; lia. }
    split.
    + rewrite map_app. apply StronglySorted_snoc; [exact Hsrt|].
      apply Forall_fmap. eapply List.Forall_impl; [|exact Hrs].
      cbv beta. intros r Hr. simpl. lia.
    + rewrite length_app. simpl. lia.
  - split; [exact Hch|]. split; [exact Hnb|]. split; [exact Hrs'|].
    split; [exact Hsrt | lia].
Qed.

Lemma runLoop_ranges t o st :
  validOptions o -> runLoop t o = Some st -> rangesInv t o st.
Proof.
  intros Hv. unfold runLoop.
  apply (splitLoop_invariant t o (maxIterations t o) (rangesInv t o)).
  - intros s Hs Hlt _. apply rangesInv_iterate; assumption.
  - unfold rangesInv. simpl. repeat split; try lia; constructor.
Qed.

(** The chunks [splitText] returns are, in order, the slices of the text at
    windows that begin at strictly increasing offsets inside the text, each
    non-empty and of at most [size + 1] code units; every chunk holds a code
    unit that is no white space, and there are fewer chunks than the
    iteration cap. *)
Theorem splitText_slices t o cs :
  validOptions o -> splitText t o = Some (Ok cs) ->
  exists rs,
    cs = map (fun r => slice t (fst r) (snd r)) rs /\
    Forall (fun r => 0 <= fst r < snd r /\ fst r < jsLength t /\
                     snd r <= fst r + size o + 1) rs /\
    StronglySorted Z.lt (map fst rs) /\
    Forall (fun c => Exists (fun u => isWhitespace u = false) c) cs /\
    Z.of_nat (length cs) < maxIterations t o.
Proof.
  intros Hv Hs.
  destruct (splitText_Ok_inv t o cs Hv Hs) as (st & Hrun & Hit & _ & ->).
  destruct (runLoop_ranges t o st Hv Hrun)
    as (_ & _ & Hch & Hnb & Hrs & Hsrt & Hlen).
  rewrite (filter_all _ _ Hnb). exists (ranges st).
  split; [exact Hch|].
  split; [eapply List.Forall_impl; [|exact Hrs]; cbv beta; intros r Hr; lia|].
  split; [exact Hsrt|]. split.
  - eapply List.Forall_impl; [|exact Hnb]. cbv beta. intros c Hc.
    apply nonBlank_Exists. exact Hc.
  - rewrite Hch, length_map. lia.
Qed.

Lemma splitText_slices_witness :
  validOptions wordOptions /\
  exists rs,
    [ofString "ab"; ofString "efghijklmn"; ofString "jklmnopqrs";
     ofString "opqrstuvwx"; ofString "tuvwxyz"; ofString "yz"]
    = map (fun r => slice alphabet (fst r) (snd r)) rs /\
    Forall (fun r => 0 <= fst r < snd r /\ fst r < jsLength alphabet /\
                     snd r <= fst r + size wordOptions + 1) rs /\
    StronglySorted Z.lt (map fst rs) /\
    Forall (fun c => Exists (fun u => isWhitespace u = false) c)
      [ofString "ab"; ofString "efghijklmn"; ofString "jklmnopqrs";
       ofString "opqrstuvwx"; ofString "tuvwxyz"; ofString "yz"] /\
    Z.of_nat (length [ofString "ab"; ofString "efghijklmn";
                      ofString "jklmnopqrs"; ofString "opqrstuvwx";
                      ofString "tuvwxyz"; ofString "yz"])
    < maxIterations alphabet wordOptions.
Proof.
  assert (Hv : validOptions wordOptions) by (unfold validOptions; simpl; lia).
  split; [exact Hv|].
  apply (splitText_slices alphabet wordOptions _ Hv).
  vm_compute. reflexivity.
Defined.

(** ** Plain windows *)

Lemma ceil_div_spec n d :
  0 < d -> n <= d * (- (- n / d)) /\ d * (- (- n / d) - 1) < n.
Proof.
  intros Hd. pose proof (Z.mul_div_le (- n) d Hd).
  pose proof (Z.mul_succ_div_gt (- n) d Hd). lia.
Qed.

(** When every window ends where it was set, at [start + size], the loop
    runs [ceil (length / (size - overlap))] times, below the cap, and
    forces no advance. *)
Lemma runLoop_grid t o st :
  validOptions o ->
  (forall s, 0 <= s -> chooseEnd t o s = s + size o) ->
  runLoop t o = Some st ->
  splitText t o = Some (Ok (chunks st)) /\
  iterations st = maxIterations t o - 100 /\
  jumps st = [] /\
  chunks st = map (fun r => slice t (fst r) (snd r)) (ranges st) /\
  Forall (fun c => nonBlank c = true) (chunks st) /\
  Forall (fun r => exists k, 0 <= k < iterations st /\
                     fst r = k * (size o - overlap o) /\
                     snd r = fst r + size o) (ranges st).
Proof.
  intros Hv Hend Hrun. pose proof Hv as [Hsz [Ho1 Ho2]].
  set (d := size o - overlap o).
  assert (HP : start st = iterations st * d /\ 0 <= iterations st /\
               (iterations st - 1) * d < Z.max 1 (jsLength t) /\
               jumps st = [] /\
               Forall (fun r => exists k, 0 <= k < iterations st /\
                         fst r = k * d /\ snd r = fst r + size o) (ranges st)).
  { revert Hrun. unfold runLoop.
    apply (splitLoop_invariant t o (maxIterations t o)
             (fun st => start st = iterations st * d /\ 0 <= iterations st /\
               (iterations st - 1) * d < Z.max 1 (jsLength t) /\
               jumps st = [] /\
               Forall (fun r => exists k, 0 <= k < iterations st /\
                         fst r = k * d /\ snd r = fst r + size o) (ranges st))).
    - intros s (Hst & Hi0 & Hlast & Hj & Hrs) Hlt _.
      unfold iterate. cbn [start iterations chunks ranges jumps].
      rewrite (Hend (start s)) by nia. unfold nextStart, forced.
      destruct (Z.leb_spec (start s + size o - overlap o) (start s)); [lia|].
      split; [unfold d; lia|]. split; [lia|]. split; [lia|].
      split; [exact Hj|].
      assert (Hrs' : Forall (fun r => exists k, 0 <= k < iterations s + 1 /\
                         fst r = k * d /\ snd r = fst r + size o) (ranges s)).
      { eapply List.Forall_impl; [|exact Hrs]. cbv beta.
        intros r (k & Hk & Hr). exists k. split; [lia | exact Hr]. }
      destruct (nonBlank _); [|exact Hrs'].
      apply Forall_app. split; [exact Hrs'|]. repeat constructor.
      exists (iterations s). cbn [fst snd]. lia.
    - simpl. repeat split; try lia. constructor. }
  destruct HP as (Hst & Hi0 & Hlast & Hj & Hrs).
  destruct (runLoop_ranges t o st Hv Hrun) as (_ & _ & Hch & Hnb & _).
  pose proof (maxIterations_ge t o) as Hcap.
  assert (Hlen : 0 <= jsLength t) by (unfold jsLength; lia).
  assert (Hd : 0 < d) by (unfold d; lia).
  destruct (ceil_div_spec (jsLength t) d Hd) as [Hc1 Hc2].
  set (c := - (- jsLength t / d)) in *.
  assert (Hmax : maxIterations t o = c + 100).
  { unfold maxIterations, c, d. rewrite Z.max_r by lia. reflexivity. }
  assert (Hle : iterations st <= Z.max 1 c) by nia.
  assert (Hit : iterations st = c).
  { destruct (splitLoop_exit t o _ _ _ _ Hrun) as [Hex|Hex]; [|lia].
    rewrite Hst in Hex.
    assert (c <= iterations st) by nia.
    destruct (Z.eq_dec (jsLength t) 0) as [H0|H0]; [|nia].
    assert (Hrun0 : runLoop t o = Some initState).
    { unfold runLoop. destruct (Z.to_nat (maxIterations t o));
        [rewrite splitLoop_O | rewrite splitLoop_S]; simpl start;
        rewrite H0; reflexivity. }
    rewrite Hrun0 in Hrun. inversion Hrun; subst st. simpl.
    unfold c. rewrite H0. reflexivity. }
  split.
  { rewrite (splitText_unfold t o st Hv Hrun).
    destruct (Z.geb_spec (iterations st) (maxIterations t o)); [lia|].
    rewrite (filter_all _ _ Hnb). reflexivity. }
  split; [lia|]. split; [exact Hj|]. split; [exact Hch|].
  split; [exact Hnb | exact Hrs].
Qed.

(** With neither [preserveSentences] nor [preserveWords] the splitter never
    reaches its iteration cap: it runs [ceil (length / (size - overlap))]
    times, forces no advance, and every chunk is the slice at a window
    [[k * (size - overlap), k * (size - overlap) + size)]. *)
Theorem splitText_plain t o :
  validOptions o -> preserveSentences o = false -> preserveWords o = false ->
  exists st,
    runLoop t o = Some st /\
    splitText t o = Some (Ok (chunks st)) /\
    iterations st = maxIterations t o - 100 /\
    jumps st = [] /\
    chunks st = map (fun r => slice t (fst r) (snd r)) (ranges st) /\
    Forall (fun r => exists k, 0 <= k < iterations st /\
                       fst r = k * (size o - overlap o) /\
                       snd r = fst r + size o) (ranges st).
Proof.
  intros Hv Hps Hpw. destruct (runLoop_total t o) as [st Hrun]. exists st.
  destruct (runLoop_grid t o st Hv) as (Hs & Hi & Hj & Hch & _ & Hrs);
    [intros s _; apply chooseEnd_plain; assumption | exact Hrun |].
  repeat split; assumption.
Qed.

Lemma splitText_plain_witness :
  validOptions plainOptions /\
  exists st,
    runLoop (ofString "abcdefghij") plainOptions = Some st /\
    splitText (ofString "abcdefghij") plainOptions = Some (Ok (chunks st)) /\
    iterations st = maxIterations (ofString "abcdefghij") plainOptions - 100 /\
    jumps st = [] /\
    chunks st = map (fun r => slice (ofString "abcdefghij") (fst r) (snd r))
                  (ranges st) /\
    Forall (fun r => exists k, 0 <= k < iterations st /\
                       fst r = k * (size plainOptions - overlap plainOptions) /\
                       snd r = fst r + size plainOptions) (ranges st).
Proof.
  assert (Hv : validOptions plainOptions) by (unfold validOptions; simpl; lia).
  split; [exact Hv|].
  exact (splitText_plain (ofString "abcdefghij") plainOptions Hv eq_refl eq_refl).
Defined.

(** ** Boundary search *)

Lemma findWordEnd_loop_spec t targetPos : forall n i,
  i <= targetPos ->
  (forall j, i < j <= targetPos -> testWhitespace t j = false) ->
  let r := findWordEnd_loop t i n targetPos in
  (i - Z.of_nat n < r <= i /\ testWhitespace t r = true /\
   forall j, r < j <= targetPos -> testWhitespace t j = false) \/
  (r = targetPos /\
   forall j, i - Z.of_nat n < j <= targetPos -> testWhitespace t j = false).
Proof.
  induction n as [|n IH]; intros i Hi Hno; cbn [findWordEnd_loop].
  - right. split; [reflexivity|]. intros j Hj. apply Hno. lia.
  - destruct (testWhitespace t i) eqn:Hw.
    + left. split; [lia|]. split; [exact Hw | exact Hno].
    + destruct (IH (i - 1)) as [(Hr & Hws & Hn)|(Hr & Hn)]; [lia| |left|right].
      * intros j Hj. destruct (Z.eq_dec j i) as [->|]; [exact Hw|].
        apply Hno. lia.
      * split; [lia|]. split; assumption.
      * split; [exact Hr|]. intros j Hj. apply Hn. lia.
Qed.

(** [findWordEnd] returns the greatest index in [(minPos, targetPos]] that
    holds white space, and [targetPos] when there is none. *)
Theorem findWordEnd_nearest t targetPos minPos :
  let r := findWordEnd t targetPos minPos in
  (minPos < r <= targetPos /\ testWhitespace t r = true /\
   forall j, r < j <= targetPos -> testWhitespace t j = false) \/
  (r = targetPos /\
   forall j, minPos < j <= targetPos -> testWhitespace t j = false).
Proof.
  unfold findWordEnd.
  destruct (findWordEnd_loop_spec t targetPos
              (Z.to_nat (targetPos - minPos)) targetPos)
    as [(Hr & Hws & Hn)|(Hr & Hn)]; [lia | intros; lia | left | right].
  - split; [lia|]. split; assumption.
  - split; [exact Hr|]. intros j Hj. apply Hn. lia.
Qed.

Lemma isSentenceEnder_not_space c :
  isSentenceEnder c = true -> isWhitespace c = false.
Proof.
  unfold isSentenceEnder. intros H.
  apply orb_true_iff in H as [H|H]; [apply orb_true_iff in H as [H|H]|];
    apply N.eqb_eq in H; subst c; reflexivity.
Qed.

Lemma sentenceMatch_at t i c d :
  0 <= i -> t !! Z.to_nat i = Some c -> t !! S (Z.to_nat i) = Some d ->
  sentenceMatch t i = isSentenceEnder c && isWhitespace d.
Proof.
  intros Hi Hc Hd. unfold sentenceMatch, charAt.
  destruct (Z.ltb_spec i 0); [lia|]. destruct (Z.ltb_spec (i + 1) 0); [lia|].
  replace (Z.to_nat (i + 1)) with (S (Z.to_nat i)) by lia.
  rewrite Hc, Hd. reflexivity.
Qed.

Lemma sentenceMatch_beyond t i :
  jsLength t <= i + 1 -> sentenceMatch t i = false.
Proof.
  intros Hi. unfold sentenceMatch, charAt, jsLength in *.
  destruct (charAt t i) eqn:E; unfold charAt in E; rewrite E; [|reflexivity].
  destruct (Z.ltb_spec (i + 1) 0); [reflexivity|].
  rewrite (lookup_ge_None_2 t (Z.to_nat (i + 1))) by lia. reflexivity.
Qed.

Lemma sentenceEnders_loop_spec t targetPos : forall n rest idx lastEnd,
  (length rest <= n)%nat -> 0 <= idx -> drop (Z.to_nat idx) t = rest ->
  let r := sentenceEnders_loop rest idx targetPos lastEnd in
  (exists i, idx <= i <= targetPos /\ sentenceMatch t i = true /\ r = i + 1 /\
             forall j, i < j <= targetPos -> sentenceMatch t j = false) \/
  (r = lastEnd /\
   forall j, idx <= j <= targetPos -> sentenceMatch t j = false).
Proof.
  induction n as [|n IH]; intros rest idx lastEnd Hn Hidx Hdrop.
  { destruct rest; [|simpl in Hn; lia]. right. split; [reflexivity|].
    intros j Hj. apply sentenceMatch_beyond.
    apply (f_equal length) in Hdrop. rewrite length_drop in Hdrop.
    simpl in Hdrop. unfold jsLength. lia. }
  destruct rest as [|c [|d rest']].
  - right. split; [reflexivity|]. intros j Hj. apply sentenceMatch_beyond.
    apply (f_equal length) in Hdrop. rewrite length_drop in Hdrop.
    simpl in Hdrop. unfold jsLength. lia.
  - right. split; [reflexivity|]. intros j Hj. apply sentenceMatch_beyond.
    apply (f_equal length) in Hdrop. rewrite length_drop in Hdrop.
    simpl in Hdrop. unfold jsLength. lia.
  - assert (Hc : t !! Z.to_nat idx = Some c).
    { pose proof (lookup_drop t (Z.to_nat idx) 0) as H.
      rewrite Hdrop, Nat.add_0_r in H. symmetry. exact H. }
    assert (Hd : t !! S (Z.to_nat idx) = Some d).
    { pose proof (lookup_drop t (Z.to_nat idx) 1) as H.
      rewrite Hdrop, Nat.add_1_r in H. symmetry. exact H. }
    assert (Hd1 : drop (Z.to_nat (idx + 1)) t = d :: rest').
    { replace (Z.to_nat (idx + 1)) with (Z.to_nat idx + 1)%nat by lia.
      rewrite <- drop_drop, Hdrop. reflexivity. }
    assert (Hd2 : drop (Z.to_nat (idx + 2)) t = rest').
    { replace (Z.to_nat (idx + 2)) with (Z.to_nat idx + 2)%nat by lia.
      rewrite <- drop_drop, Hdrop. reflexivity. }
    pose proof (sentenceMatch_at t idx c d Hidx Hc Hd) as Hm.
    rewrite sentenceEnders_loop_step.
    destruct (isSentenceEnder c && isWhitespace d) eqn:E.
    + destruct (Z.gtb_spec idx targetPos) as [Hgt|Hle].
      { right. split; [reflexivity|]. intros j Hj. lia. }
      assert (Hnext : sentenceMatch t (idx + 1) = false).
      { apply andb_true_iff in E as [_ Hws].
        destruct (sentenceMatch t (idx + 1)) eqn:Hm1; [|reflexivity].
        unfold sentenceMatch, charAt in Hm1.
        destruct (Z.ltb_spec (idx + 1) 0); [lia|].
        replace (Z.to_nat (idx + 1)) with (S (Z.to_nat idx)) in Hm1 by lia.
        rewrite Hd in Hm1.
        destruct (if idx + 1 + 1 <? 0 then None else t !! Z.to_nat (idx + 1 + 1));
          [|discriminate].
        apply andb_true_iff in Hm1 as [Hse _].
        apply isSentenceEnder_not_space in Hse. congruence. }
      left.
      destruct (IH rest' (idx + 2) (idx + 1)) as [(i & Hi & Hmi & Hr & Hno)|(Hr & Hno)];
        [simpl in Hn; lia | lia | exact Hd2 | |].
      * exists i. split; [lia|]. split; [exact Hmi|]. split; [exact Hr | exact Hno].
      * exists idx. split; [lia|]. split; [congruence|]. split; [exact Hr|].
        intros j Hj. destruct (Z.eq_dec j (idx + 1)) as [->|]; [exact Hnext|].
        apply Hno. lia.
    + destruct (IH (d :: rest') (idx + 1) lastEnd) as [(i & Hi & Hmi & Hr & Hno)|(Hr & Hno)];
        [simpl in *; lia | lia | exact Hd1 | left | right].
      * exists i. split; [lia|]. split; [exact Hmi|]. split; [exact Hr | exact Hno].
      * split; [exact Hr|]. intros j Hj.
        destruct (Z.eq_dec j idx) as [->|]; [congruence|]. apply Hno. lia.
Qed.

(** [findSentenceEnd] returns the offset just behind the last match of
    [/[.!?]\s/] that begins in [[minPos, targetPos]], and [targetPos] when
    no match begins there. A match that begins at [targetPos] itself counts,
    which is how the result can be [targetPos + 1]. *)
Theorem findSentenceEnd_last t targetPos minPos :
  0 <= minPos ->
  let r := findSentenceEnd t targetPos minPos in
  (exists i, minPos <= i <= targetPos /\ sentenceMatch t i = true /\
             r = i + 1 /\
             forall j, i < j <= targetPos -> sentenceMatch t j = false) \/
  (r = targetPos /\
   forall j, minPos <= j <= targetPos -> sentenceMatch t j = false).
Proof.
  intros Hmin. unfold findSentenceEnd. rewrite Z.max_l by lia.
  destruct (sentenceEnders_loop_spec t targetPos
              (length (drop (Z.to_nat minPos) t))
              (drop (Z.to_nat minPos) t) minPos (-1))
    as [(i & Hi & Hm & Hr & Hno)|(Hr & Hno)]; [lia | exact Hmin | reflexivity | |].
  - rewrite Hr. destruct (Z.gtb_spec (i + 1) minPos); [|lia].
    left. exists i. repeat split; try assumption; lia.
  - rewrite Hr. destruct (Z.gtb_spec (-1) minPos); [lia|].
    right. split; [reflexivity | exact Hno].
Qed.

Lemma findSentenceEnd_last_witness :
  0 <= 0 /\
  ((exists i, 0 <= i <= 3 /\ sentenceMatch (ofString "abc. def") i = true /\
              findSentenceEnd (ofString "abc. def") 3 0 = i + 1 /\
              forall j, i < j <= 3 ->
                sentenceMatch (ofString "abc. def") j = false) \/
   (findSentenceEnd (ofString "abc. def") 3 0 = 3 /\
    forall j, 0 <= j <= 3 -> sentenceMatch (ofString "abc. def") j = false)).
Proof.
  split; [lia|].
  exact (findSentenceEnd_last (ofString "abc. def") 3 0 ltac:(lia)).
Defined.

Example findSentenceEnd_past_target :
  findSentenceEnd (ofString "abc. def") 3 0 = 4.
Proof. vm_compute. reflexivity. Qed.

(** ** Blank texts *)

Lemma slice_blank (t : text) s e :
  Forall (fun c => isWhitespace c = true) t -> nonBlank (slice t s e) = false.
Proof.
  intros Hall. destruct (nonBlank (slice t s e)) eqn:Hnb; [|reflexivity].
  apply nonBlank_Exists, List.Exists_exists in Hnb as (c & Hin & Hc).
  assert (Hc' : isWhitespace c = true); [|congruence].
  rewrite Forall_forall in Hall. apply Hall.
  apply list_elem_of_In in Hin. unfold slice in Hin.
  eapply elem_of_sublist; [exact Hin|].
  etrans; [apply sublist_take | apply sublist_drop].
Qed.

Lemma trim_blank (t : text) :
  Forall (fun c => isWhitespace c = true) t -> trim t = [].
Proof.
  intros Hall.
  assert (H : trimStart t = []).
  { induction Hall as [|c t Hc _ IH]; simpl; [reflexivity|]. rewrite Hc. exact IH. }
  unfold trim, trimEnd. rewrite H. reflexivity.
Qed.

Lemma sentenceMatch_blank (t : text) i :
  Forall (fun c => isWhitespace c = true) t -> sentenceMatch t i = false.
Proof.
  intros Hall. unfold sentenceMatch.
  destruct (charAt t i) as [c|] eqn:Hc; [|reflexivity].
  destruct (charAt t (i + 1)) as [d|]; [|reflexivity].
  unfold charAt in Hc. destruct (i <? 0); [discriminate|].
  rewrite Forall_forall in Hall.
  pose proof (Hall c (list_elem_of_lookup_2 _ _ _ Hc)) as Hws.
  destruct (isSentenceEnder c) eqn:Hse; [|reflexivity].
  apply isSentenceEnder_not_space in Hse. congruence.
Qed.

Lemma chooseEnd_blank (t : text) o s :
  0 < size o -> 0 <= s -> Forall (fun c => isWhitespace c = true) t ->
  chooseEnd t o s = s + size o.
Proof.
  intros Hsz Hs Hall. unfold chooseEnd.
  destruct (Z.ltb_spec (s + size o) (jsLength t)) as [Hlt|]; [|reflexivity].
  destruct (preserveSentences o).
  - assert (Hf : findSentenceEnd t (s + size o) s = s + size o).
    { unfold findSentenceEnd. rewrite Z.max_l by lia.
      destruct (sentenceEnders_loop_spec t (s + size o)
                  (length (drop (Z.to_nat s) t)) (drop (Z.to_nat s) t) s (-1))
        as [(i & _ & Hm & _)|(Hr & _)]; [lia | exact Hs | reflexivity | |].
      - rewrite sentenceMatch_blank in Hm by exact Hall. discriminate.
      - rewrite Hr. destruct (Z.gtb_spec (-1) s); [lia | reflexivity]. }
    rewrite Hf. destruct (s + size o >? s); reflexivity.
  - destruct (preserveWords o); [|reflexivity].
    assert (Hf : findWordEnd t (s + size o) s = s + size o).
    { unfold findWordEnd.
      destruct (Z.to_nat (s + size o - s)) as [|n] eqn:Hn; [lia|].
      cbn [findWordEnd_loop].
      assert (Hw : testWhitespace t (s + size o) = true); [|rewrite Hw; reflexivity].
      unfold testWhitespace, charAt. destruct (Z.ltb_spec (s + size o) 0); [lia|].
      destruct (lookup_lt_is_Some_2 t (Z.to_nat (s + size o))) as [c Hc];
        [unfold jsLength in Hlt; lia|].
      rewrite Hc. rewrite Forall_forall in Hall.
      apply Hall, (list_elem_of_lookup_2 _ _ _ Hc). }
    rewrite Hf. destruct (s + size o >? s); reflexivity.
Qed.

(** A text of white space only gives no chunk, whatever the options ask
    to preserve. *)
Lemma splitText_blank (t : text) o :
  validOptions o -> Forall (fun c => isWhitespace c = true) t ->
  splitText t o = Some (Ok []).
Proof.
  intros Hv Hall. destruct (runLoop_total t o) as [st Hrun].
  destruct (runLoop_grid t o st Hv) as (Hs & _ & _ & Hch & Hnb & _);
    [intros s Hs; apply chooseEnd_blank; [apply Hv | exact Hs | exact Hall]
    | exact Hrun |].
  rewrite Hs. destruct (ranges st) as [|r rs]; simpl in Hch; rewrite Hch in *;
    [reflexivity|].
  inversion Hnb as [|? ? Hr _]; subst.
  rewrite slice_blank in Hr by exact Hall. discriminate.
Qed.

End ChunkerFacts.

(* ===================================================================== *)
(** * Properties of the retry wrapper *)
(* ===================================================================== *)

Module RetryFacts.
Import Retry.
Local Open Scope Z_scope.

Section Policy.
Context {T : Type}.
Variable opts : RetryOptions.
Variable operation : Z -> Result Thrown T.

(** [n] retried attempts take the loop from [attempt] to [attempt + n]. *)
Lemma retryLoop_skip (n : nat) : forall fuel attempt lastError slept,
  attempt + Z.of_nat n <= maxRetries opts ->
  (forall j, attempt <= j < attempt + Z.of_nat n -> retried operation j) ->
  exists lastError',
    retryLoop opts operation (n + fuel) attempt lastError slept
    = retryLoop opts operation fuel (attempt + Z.of_nat n) lastError'
        (slept ++ backoffs opts attempt n).
Proof.
  induction n as [|n IH]; intros fuel attempt lastError slept Hle Hall.
  - exists lastError. simpl. rewrite Z.add_0_r, app_nil_r. reflexivity.
  - destruct (Hall attempt ltac:(lia)) as (error & Hop & Hcl).
    destruct (IH fuel (attempt + 1) (Some (parseError error))
                (slept ++ [backoff opts attempt]) ltac:(lia)) as [le' Heq].
    { intros j Hj. apply Hall. lia. }
    exists le'. cbn [Nat.add retryLoop backoffs].
    destruct (Z.leb_spec attempt (maxRetries opts)); [|lia].
    rewrite Hop. destruct (Z.eqb_spec attempt (maxRetries opts)); [lia|].
    rewrite Hcl, Heq. rewrite <- app_assoc. simpl.
    replace (attempt + 1 + Z.of_nat n) with (attempt + Z.of_nat (S n)) by lia.
    reflexivity.
Qed.

(** The run in which attempts [0], ..., [k - 1] are retried and attempt [k]
    ends the loop. *)
Lemma retryRequest_at (k : Z) :
  0 <= k <= maxRetries opts ->
  (forall j, 0 <= j < k -> retried operation j) ->
  (forall v, operation k = Ok v ->
     retryRequest opts operation
     = Some {| outcome := Ok v; calls := k + 1;
               delays := backoffs opts 0 (Z.to_nat k) |}) /\
  (forall error, operation k = Err error ->
     isClientError (parseError error) = true \/ k = maxRetries opts ->
     retryRequest opts operation
     = Some {| outcome := Err (Some (parseError error)); calls := k + 1;
               delays := backoffs opts 0 (Z.to_nat k) |}).
Proof.
  intros Hk Hall. unfold retryRequest.
  replace (Z.to_nat (maxRetries opts + 1))
    with (Z.to_nat k + S (Z.to_nat (maxRetries opts - k)))%nat by lia.
  destruct (retryLoop_skip (Z.to_nat k) (S (Z.to_nat (maxRetries opts - k)))
              0 None []) as [le' Heq]; [lia | intros j Hj; apply Hall; lia |].
  rewrite Heq. simpl app. rewrite Z.add_0_l, Z2Nat.id by lia.
  cbn [retryLoop]. destruct (Z.leb_spec k (maxRetries opts)); [|lia].
  split.
  - intros v Hv. rewrite Hv. reflexivity.
  - intros error He Hstop. rewrite He.
    destruct (Z.eqb_spec k (maxRetries opts)); [reflexivity|].
    destruct Hstop as [Hc|Hc]; [rewrite Hc; reflexivity | contradiction].
Qed.

End Policy.

Lemma isClientError_spec e :
  isClientError e = true <->
  exists st, status e = Some st /\ 400 <= st < 500 /\ st <> 429.
Proof.
  unfold isClientError. split.
  - destruct (status e) as [st|]; [|discriminate]. intros H.
    apply andb_true_iff in H as [H H4]. apply andb_true_iff in H as [H H3].
    apply andb_true_iff in H as [H1 H2].
    apply negb_true_iff, Z.eqb_neq in H4. apply Z.ltb_lt in H3.
    apply Z.leb_le in H2. exists st. repeat split; (reflexivity || lia).
  - intros (st & -> & [H1 H2] & H3).
    apply andb_true_iff; split; [apply andb_true_iff; split;
      [apply andb_true_iff; split|]|].
    + apply negb_true_iff, Z.eqb_neq. lia.
    + apply Z.leb_le. lia.
    + apply Z.ltb_lt. lia.
    + apply negb_true_iff, Z.eqb_neq. exact H3.
Qed.

(** The wrapper with the options of the service ([maxRetries] 3, [baseDelay]
    1000, [backoffFactor] 2, [maxDelay] 30000), for every [operation]:
    - an error that carries a [status] from 400 to 499 other than 429 ends
      the loop at once: when the first attempt fails with it, [operation]
      has been called once, nothing was slept, and that error is thrown;
    - while the attempts fail with other errors the wrapper sleeps
      [min(baseDelay * backoffFactor^attempt, maxDelay)] and calls again,
      up to attempt 3;
    - when attempt 3 fails as well, [operation] has been called four times,
      the delays were 1000, 2000 and 4000, and the error of attempt 3 is
      thrown.
    The value thrown is the error as [parseError] returns it, and the rule
    for client errors looks at the [status] of that value only. *)
Theorem retryRequest_policy {T : Type} (operation : Z -> Result Thrown T) :
  (forall e, isClientError e = true <->
     exists st, status e = Some st /\ 400 <= st < 500 /\ st <> 429) /\
  (forall a, backoff retryOptions a = Z.min (1000 * 2 ^ a) 30000) /\
  (forall error,
     operation 0 = Err error -> isClientError (parseError error) = true ->
     retryRequest retryOptions operation
     = Some {| outcome := Err (Some (parseError error)); calls := 1;
               delays := [] |}) /\
  (forall k, 0 <= k <= 3 ->
     (forall j, 0 <= j < k -> retried operation j) ->
     (forall v, operation k = Ok v ->
        retryRequest retryOptions operation
        = Some {| outcome := Ok v; calls := k + 1;
                  delays := backoffs retryOptions 0 (Z.to_nat k) |}) /\
     (forall error, operation k = Err error ->
        isClientError (parseError error) = true \/ k = 3 ->
        retryRequest retryOptions operation
        = Some {| outcome := Err (Some (parseError error)); calls := k + 1;
                  delays := backoffs retryOptions 0 (Z.to_nat k) |})) /\
  (forall error,
     (forall j, 0 <= j < 3 -> retried operation j) ->
     operation 3 = Err error ->
     retryRequest retryOptions operation
     = Some {| outcome := Err (Some (parseError error)); calls := 4;
               delays := [1000; 2000; 4000] |}).
Proof.
  split; [apply isClientError_spec|].
  split; [reflexivity|].
  split; [|split].
  - intros error Hop Hc.
    destruct (retryRequest_at retryOptions operation 0) as [_ H];
      [simpl; lia | intros j Hj; lia |].
    apply (H error Hop). left. exact Hc.
  - intros k Hk Hall. apply (retryRequest_at retryOptions operation k Hk Hall).
  - intros error Hall Hop.
    destruct (retryRequest_at retryOptions operation 3) as [_ H];
      [simpl; lia | exact Hall |].
    apply (H error Hop). right. reflexivity.
Qed.

Example retryRequest_flaky :
  retryRequest retryOptions flaky
  = Some {| outcome := Ok 7; calls := 3; delays := [1000; 2000] |}.
Proof. reflexivity. Qed.

Example retryRequest_refused :
  retryRequest retryOptions refused
  = Some {| outcome := Err (Some {| message := "Not Found"; name := Some "Error";
                                    stack := None; code := None;
                                    status := Some 404 |});
            calls := 1; delays := [] |}.
Proof. reflexivity. Qed.

Example retryRequest_rateLimited :
  retryRequest retryOptions rateLimited
  = Some {| outcome := Err (Some {| message := "Too Many Requests";
                                    name := Some "Error"; stack := None;
                                    code := None; status := Some 429 |});
            calls := 4; delays := [1000; 2000; 4000] |}.
Proof. reflexivity. Qed.

Lemma retryRequest_policy_witness :
  retryRequest retryOptions flaky
  = Some {| outcome := Ok 7; calls := 2 + 1;
            delays := backoffs retryOptions 0 (Z.to_nat 2) |} /\
  retryRequest retryOptions refused
  = Some {| outcome := Err (Some (parseError
                                    (ErrorObject
                                       {| message := "Not Found";
                                          name := Some "Error"; stack := None;
                                          code := None; status := Some 404 |})));
            calls := 1; delays := [] |}.
Proof.
  split.
  - destruct (retryRequest_policy flaky) as (_ & _ & _ & H & _).
    destruct (H 2) as [Hok _]; [lia | | exact (Hok 7 eq_refl)].
    intros j Hj. unfold retried, flaky.
    destruct (Z.ltb_spec j 2); [|lia]. eexists. split; reflexivity.
  - destruct (retryRequest_policy refused) as (_ & _ & H & _).
    apply H; reflexivity.
Defined.

(** ** Every run of the wrapper *)

Section Budget.
Context {T : Type}.
Variable opts : RetryOptions.
Variable operation : Z -> Result Thrown T.

Lemma retryLoop_run : forall fuel attempt lastError slept,
  0 <= attempt <= maxRetries opts ->
  maxRetries opts - attempt < Z.of_nat fuel ->
  exists r,
    retryLoop opts operation fuel attempt lastError slept = Some r /\
    attempt + 1 <= calls r <= maxRetries opts + 1 /\
    delays r = slept ++ backoffs opts attempt (Z.to_nat (calls r - 1 - attempt)) /\
    (forall j, attempt <= j < calls r - 1 -> retried operation j) /\
    endsWith opts operation r.
Proof.
  induction fuel as [|fuel IH]; intros attempt lastError slept Ha Hf; [lia|].
  cbn [retryLoop]. destruct (Z.leb_spec attempt (maxRetries opts)); [|lia].
  assert (Hstop : forall o, exists r : Run T,
            Some {| outcome := o; calls := attempt + 1; delays := slept |} = Some r /\
            attempt + 1 <= calls r <= maxRetries opts + 1 /\
            delays r = slept ++ backoffs opts attempt (Z.to_nat (calls r - 1 - attempt)) /\
            (forall j, attempt <= j < calls r - 1 -> retried operation j) /\
            (endsWith opts operation {| outcome := o; calls := attempt + 1; delays := slept |}
             -> endsWith opts operation r)).
  { intros o. eexists. split; [reflexivity|]. cbn [calls delays].
    split; [lia|]. split.
    - replace (attempt + 1 - 1 - attempt) with 0 by lia. simpl.
      rewrite app_nil_r. reflexivity.
    - split; [intros j Hj; lia | tauto]. }
  destruct (operation attempt) as [v|error] eqn:Hop.
  - destruct (Hstop (Ok v)) as (r & Hr & Hc & Hd & Hj & He).
    exists r. repeat split; try assumption; try lia. apply He.
    unfold endsWith. cbn [outcome calls].
    replace (attempt + 1 - 1) with attempt by lia. exact Hop.
  - assert (Hend : isClientError (parseError error) = true \/
                   attempt = maxRetries opts ->
                   endsWith opts operation {| outcome := Err (Some (parseError error));
                               calls := attempt + 1; delays := slept |}).
    { intros Hw. unfold endsWith. cbn [outcome calls].
      replace (attempt + 1 - 1) with attempt by lia.
      exists error. split; [exact Hop|]. split; [reflexivity | exact Hw]. }
    destruct (Z.eqb_spec attempt (maxRetries opts)) as [Heq|Hne].
    { destruct (Hstop (Err (Some (parseError error)))) as (r & Hr & Hc & Hd & Hj & He).
      exists r. repeat split; try assumption; try lia. apply He, Hend. right. exact Heq. }
    destruct (isClientError (parseError error)) eqn:Hcl.
    { destruct (Hstop (Err (Some (parseError error)))) as (r & Hr & Hc & Hd & Hj & He).
      exists r. repeat split; try assumption; try lia. apply He, Hend. left.
      reflexivity. }
    destruct (IH (attempt + 1) (Some (parseError error))
                (slept ++ [backoff opts attempt]))
      as (r & Hr & Hc & Hd & Hj & He); [lia | lia |].
    exists r. split; [exact Hr|]. split; [lia|]. split; [|split; [|exact He]].
    + rewrite Hd, <- app_assoc.
      replace (Z.to_nat (calls r - 1 - attempt))
        with (S (Z.to_nat (calls r - 1 - (attempt + 1)))) by lia.
      reflexivity.
    + intros j Hj'. destruct (Z.eq_dec j attempt) as [->|];
        [exists error; split; assumption | apply Hj; lia].
Qed.

Lemma backoffs_le_maxDelay n : forall from,
  Forall (fun d => d <= maxDelay opts) (backoffs opts from n).
Proof.
  induction n as [|n IH]; intros from; simpl; constructor; [|apply IH].
  unfold backoff. lia.
Qed.

End Budget.

(** With whole-number options, [maxRetries] not negative, a positive
    [baseDelay] and [backoffFactor] 2 (the [doubling] options, which the
    three constructors set), and whatever the operation does, a call of the
    wrapper ends: it has called the operation at least once and at most
    [maxRetries + 1] times, every call but the last failed with an error
    that is retried, the delays are those of the back-off, none above
    [maxDelay], and the wrapper returns the value of the last call or
    throws the error of the last call, which is an error that [parseError]
    gives a client status or the error of attempt [maxRetries]. *)
Theorem retryRequest_run {T : Type} opts (operation : Z -> Result Thrown T) :
  0 <= maxRetries opts ->
  doubling opts ->
  exists r,
    retryRequest opts operation = Some r /\
    1 <= calls r <= maxRetries opts + 1 /\
    delays r = backoffs opts 0 (Z.to_nat (calls r - 1)) /\
    Forall (fun d => d <= maxDelay opts) (delays r) /\
    (forall j, 0 <= j < calls r - 1 -> retried operation j) /\
    endsWith opts operation r.
Proof.
  intros Hm _. unfold retryRequest.
  destruct (retryLoop_run opts operation (Z.to_nat (maxRetries opts + 1)) 0 None [])
    as (r & Hr & Hc & Hd & Hj & He); [lia | lia |].
  simpl in Hd. rewrite Z.sub_0_r in Hd.
  exists r. split; [exact Hr|]. split; [lia|]. split; [exact Hd|].
  split; [rewrite Hd; apply backoffs_le_maxDelay|]. split; [exact Hj | exact He].
Qed.

Lemma retryRequest_run_witness :
  0 <= maxRetries retryOptions /\
  doubling retryOptions /\
  exists r,
    retryRequest retryOptions flaky = Some r /\
    1 <= calls r <= maxRetries retryOptions + 1 /\
    delays r = backoffs retryOptions 0 (Z.to_nat (calls r - 1)) /\
    Forall (fun d => d <= maxDelay retryOptions) (delays r) /\
    (forall j, 0 <= j < calls r - 1 -> retried flaky j) /\
    endsWith retryOptions flaky r.
Proof.
  assert (H : 0 <= maxRetries retryOptions) by (simpl; lia).
  assert (Hd : doubling retryOptions) by (unfold doubling; simpl; lia).
  split; [exact H|]. split; [exact Hd|].
  exact (retryRequest_run retryOptions flaky H Hd).
Defined.

(** With the options of the service no call of the wrapper makes more than
    four attempts or sleeps more than seven seconds in all. *)
Lemma retryRequest_service_budget {T : Type} (operation : Z -> Result Thrown T) :
  exists r,
    retryRequest retryOptions operation = Some r /\
    1 <= calls r <= 4 /\ fold_right Z.add 0 (delays r) <= 7000.
Proof.
  destruct (retryLoop_run retryOptions operation 4 0 None [])
    as (r & Hr & Hc & Hd & _); [simpl; lia | simpl; lia |].
  exists r. split; [exact Hr|]. simpl in Hc. split; [lia|].
  rewrite Hd. simpl app. rewrite Z.sub_0_r.
  assert (Hk : calls r - 1 = 0 \/ calls r - 1 = 1 \/ calls r - 1 = 2 \/
               calls r - 1 = 3) by lia.
  destruct Hk as [Hk|[Hk|[Hk|Hk]]]; rewrite Hk; vm_compute; discriminate.
Qed.

(** With a negative [maxRetries] the operation is never called and the
    wrapper throws [undefined]. *)
Lemma retryRequest_no_attempt {T : Type} opts (operation : Z -> Result Thrown T) :
  maxRetries opts < 0 ->
  retryRequest opts operation
  = Some {| outcome := Err None; calls := 0; delays := [] |}.
Proof.
  intros Hm. unfold retryRequest.
  replace (Z.to_nat (maxRetries opts + 1)) with O by lia. simpl.
  destruct (Z.leb_spec 0 (maxRetries opts)); [lia | reflexivity].
Qed.

End RetryFacts.

(* ===================================================================== *)
(** * Properties of the vector store *)
(* ===================================================================== *)

Module StoreFacts.
Import JsNumber Store.

(** ** The monad and the dictionaries *)

Lemma bind_Ok_inv {A B} (m : M A) (k : A -> M B) w b w' :
  bind m k w = (Ok b, w') ->
  exists a w1, m w = (Ok a, w1) /\ k a w1 = (Ok b, w').
Proof.
  unfold bind. destruct (m w) as [[a|e] w1]; intros H; [eauto | discriminate].
Qed.

Lemma cosineSimilarity_Err a b e :
  cosineSimilarity a b = Err e -> e = LengthMismatch.
Proof.
  unfold cosineSimilarity.
  destruct (negb (length a =? length b)%nat); [congruence|].
  destruct (fold_left _ _ _) as [[d na] nb].
  destruct (_ =? _)%float; discriminate.
Qed.

Lemma filter_none {A} (f : A -> bool) (l : list A) :
  (forall x, In x l -> f x = false) -> List.filter f l = [].
Proof.
  induction l as [|x l IH]; intros H; simpl; [reflexivity|].
  rewrite (H x (or_introl eq_refl)). apply IH. intros y Hy. apply H. right. exact Hy.
Qed.

Lemma length_pos_iff {A} (l : list A) : (0 <? length l)%nat = true <-> l <> [].
Proof. destruct l; simpl; split; (congruence || reflexivity || discriminate). Qed.

Lemma elem_of_keys {V} (m : gmap Z V) k : k ∈ keys m <-> is_Some (m !! k).
Proof.
  unfold keys. rewrite list_elem_of_fmap. split.
  - intros ([k' v] & -> & H). apply elem_of_map_to_list in H. simpl. eauto.
  - intros [v H]. exists (k, v). split; [reflexivity|].
    apply elem_of_map_to_list. exact H.
Qed.

Lemma elem_of_values {K V} `{Countable K} (m : gmap K V) v :
  v ∈ values m <-> exists k, m !! k = Some v.
Proof.
  unfold values. rewrite list_elem_of_fmap. split.
  - intros ([k v'] & -> & Hin). apply elem_of_map_to_list in Hin. eauto.
  - intros [k Hk]. exists (k, v). split; [reflexivity|].
    apply elem_of_map_to_list. exact Hk.
Qed.

(** ** Accessors before [load()] *)

(** C5, as the claim states it, fails for [hasArticle]: on a service on
    which [load()] has not been called it returns [false]. *)
Lemma hasArticle_before_load :
  isLoaded freshService = false /\
  hasArticle 1 freshService = (Ok false, freshService).
Proof. split; reflexivity. Qed.

(** C5, amended: on a store on which [load()] has not been called,
    [getArticle], [getChunk], [getArticleChunks] and [getStats] throw the
    not-loaded error, and [hasArticle] returns [false]; none changes the
    state. *)
Theorem accessors_before_load w :
  isLoaded w = false ->
  (forall i, getArticle i w = (Err NotLoaded, w)) /\
  (forall i, getChunk i w = (Err NotLoaded, w)) /\
  (forall i, getArticleChunks i w = (Err NotLoaded, w)) /\
  getStats w = (Err NotLoaded, w) /\
  (forall i, hasArticle i w = (Ok false, w)).
Proof.
  intros H.
  unfold getArticle, getChunk, getArticleChunks, getStats, hasArticle,
    bind, getState, throw, ret.
  simpl. rewrite H. simpl. repeat split; reflexivity.
Qed.

Lemma accessors_before_load_witness :
  isLoaded freshService = false /\
  (forall i, getArticle i freshService = (Err NotLoaded, freshService)) /\
  (forall i, getChunk i freshService = (Err NotLoaded, freshService)) /\
  (forall i, getArticleChunks i freshService = (Err NotLoaded, freshService)) /\
  getStats freshService = (Err NotLoaded, freshService) /\
  (forall i, hasArticle i freshService = (Ok false, freshService)).
Proof.
  split; [reflexivity | apply (accessors_before_load freshService); reflexivity].
Defined.

(** ** The loop of [removeArticles] *)

(** Case analysis on the membership tests [bool_decide (_ ∈ _ :: _)]. *)
Ltac mem_cases :=
  repeat case_bool_decide; try reflexivity; exfalso;
  repeat match goal with
         | H : _ ∉ _ :: _ |- _ => apply not_elem_of_cons in H as [? ?]
         | H : _ ∈ _ :: _ |- _ => apply elem_of_cons in H as [?|?]
         | H : _ ∈ [] |- _ => apply elem_of_nil in H
         end;
  try contradiction; try congruence.

Lemma fold_removeChunk cs : forall acc,
  fold_left removeChunk cs acc
  = (fold_left (fun m c => delete (ArticleChunk.id c) m) cs acc.1,
     fold_left (fun m c => delete (ArticleChunk.id c +:+ "_embedding") m) cs acc.2).
Proof.
  induction cs as [|c cs IH]; intros [m1 m2]; simpl; [reflexivity|].
  rewrite IH. reflexivity.
Qed.

Lemma lookup_fold_delete {V C} (f : C -> string) (cs : list C) :
  forall (m : gmap string V) k,
    fold_left (fun m c => delete (f c) m) cs m !! k
    = if bool_decide (k ∈ f <$> cs) then None else m !! k.
Proof.
  induction cs as [|c cs IH]; intros m k; simpl; [reflexivity|].
  rewrite IH. destruct (decide (k = f c)) as [->|Hne].
  - rewrite lookup_delete_eq.
    mem_cases.
  - rewrite lookup_delete_ne by congruence.
    mem_cases.
Qed.

(** The chunks the loop body removes for [articleId]. *)
Lemma elem_of_chunksToRemove (s : VectorStore) articleId c :
  c ∈ List.filter (fun c => (ArticleChunk.articleId c =? articleId)%Z)
                  (values (chunks s))
  <-> ArticleChunk.articleId c = articleId /\
      exists k, chunks s !! k = Some c.
Proof.
  rewrite list_elem_of_In, List.filter_In, <- list_elem_of_In, elem_of_values.
  rewrite Z.eqb_eq. tauto.
Qed.

(** One run of the body of the loop over [articleIds]. *)
Lemma removeArticle_spec s a :
  chunksKeyed s ->
  articles (removeArticle s a) = delete a (articles s) /\
  (forall k, chunks (removeArticle s a) !! k
             = match chunks s !! k with
               | Some c => if bool_decide (ArticleChunk.articleId c = a)
                           then None else Some c
               | None => None
               end) /\
  (forall k c, chunks s !! k = Some c -> ArticleChunk.articleId c = a ->
               embeddings (removeArticle s a) !! (k +:+ "_embedding") = None) /\
  (forall e, (forall k c, chunks s !! k = Some c ->
                          ArticleChunk.articleId c = a -> e <> k +:+ "_embedding") ->
             embeddings (removeArticle s a) !! e = embeddings s !! e) /\
  (forall e, embeddings s !! e = None ->
             embeddings (removeArticle s a) !! e = None) /\
  metadata (removeArticle s a) = metadata s.
Proof.
  intros Hkey. unfold removeArticle. rewrite fold_removeChunk. simpl.
  set (rm := List.filter _ (values (chunks s))).
  assert (Hrm : forall c, c ∈ rm <->
            ArticleChunk.articleId c = a /\ chunks s !! ArticleChunk.id c = Some c).
  { intros c. unfold rm. rewrite elem_of_chunksToRemove. split.
    - intros [Ha [k Hk]]. split; [exact Ha|].
      rewrite (Hkey k c Hk). exact Hk.
    - intros [Ha Hk]. eauto. }
  split; [reflexivity|]. split; [|split; [|split; [|split]]].
  - intros k. rewrite lookup_fold_delete.
    destruct (chunks s !! k) as [c|] eqn:Hk.
    + pose proof (Hkey k c Hk) as Hid.
      destruct (decide (ArticleChunk.articleId c = a)) as [Ha|Ha].
      * rewrite (bool_decide_eq_true_2 _ Ha), bool_decide_eq_true_2; [reflexivity|].
        apply list_elem_of_fmap. exists c. split; [auto|]. apply Hrm.
        rewrite Hid. auto.
      * rewrite (bool_decide_eq_false_2 _ Ha), bool_decide_eq_false_2; [reflexivity|].
        intros Hin. apply list_elem_of_fmap in Hin as (c' & Hc' & Hin).
        apply Hrm in Hin as [Ha' Hk']. rewrite <- Hc', Hk in Hk'. congruence.
    + destruct (bool_decide _); reflexivity.
  - intros k c Hk Ha. rewrite lookup_fold_delete, bool_decide_eq_true_2; [reflexivity|].
    apply list_elem_of_fmap. exists c. pose proof (Hkey k c Hk) as Hid.
    split; [rewrite Hid; reflexivity|]. apply Hrm. rewrite Hid. auto.
  - intros e He. rewrite lookup_fold_delete, bool_decide_eq_false_2; [reflexivity|].
    intros Hin. apply list_elem_of_fmap in Hin as (c & Hc & Hin).
    apply Hrm in Hin as [Ha Hk]. exact (He _ c Hk Ha Hc).
  - intros e He. rewrite lookup_fold_delete, He. destruct (bool_decide _); reflexivity.
  - reflexivity.
Qed.

Lemma removeArticle_keyed s a : chunksKeyed s -> chunksKeyed (removeArticle s a).
Proof.
  intros Hkey k c Hk.
  destruct (removeArticle_spec s a Hkey) as (_ & Hc & _).
  rewrite Hc in Hk. destruct (chunks s !! k) as [c'|] eqn:Hk'; [|discriminate].
  destruct (bool_decide _); [discriminate|]. inversion Hk; subst. exact (Hkey k c Hk').
Qed.

Lemma removeArticles_fold ids : forall s,
  chunksKeyed s -> removed ids s (fold_left removeArticle ids s).
Proof.
  induction ids as [|a ids IH]; intros s Hkey; simpl.
  - unfold removed. split; [|split; [|split; [|split; [|split]]]].
    + intros k. mem_cases.
    + intros k. destruct (chunks s !! k); [mem_cases | reflexivity].
    + intros k c _ Hin. apply elem_of_nil in Hin. destruct Hin.
    + reflexivity.
    + auto.
    + exact Hkey.
  - destruct (removeArticle_spec s a Hkey) as (Ha1 & Hc1 & He1 & Hu1 & Hn1 & _).
    pose proof (removeArticle_keyed s a Hkey) as Hkey1.
    destruct (IH _ Hkey1) as (Ha & Hc & He & Hu & Hn & Hk).
    set (s1 := removeArticle s a) in *. set (s' := fold_left removeArticle ids s1) in *.
    assert (Hsub : forall k c, chunks s1 !! k = Some c -> chunks s !! k = Some c).
    { intros k c H1. rewrite Hc1 in H1. destruct (chunks s !! k); [|discriminate].
      destruct (bool_decide _); [discriminate | exact H1]. }
    split; [|split; [|split; [|split; [|split]]]].
    + intros k. rewrite Ha, Ha1. destruct (decide (k = a)) as [->|Hne].
      * rewrite lookup_delete_eq.
        mem_cases.
      * rewrite lookup_delete_ne by congruence.
        mem_cases.
    + intros k. rewrite Hc, Hc1. destruct (chunks s !! k) as [c|]; [|reflexivity].
      mem_cases.
    + intros k c Hkc Hin. pose proof (Hkey k c Hkc) as Hid.
      destruct (decide (ArticleChunk.articleId c = a)) as [Heq|Hne].
      * apply Hn. rewrite Hid. exact (He1 k c Hkc Heq).
      * apply elem_of_cons in Hin as [?|Hin]; [contradiction|].
        apply (He k c); [|exact Hin].
        rewrite Hc1, Hkc, (bool_decide_eq_false_2 _ Hne). reflexivity.
    + intros e Hne. rewrite Hu, Hu1; [reflexivity | |].
      * intros k c Hkc Heq. rewrite <- (Hkey k c Hkc).
        apply (Hne k c Hkc). rewrite Heq. left.
      * intros k c Hkc Hin. apply (Hne k c (Hsub k c Hkc)). right. exact Hin.
    + intros e Hnone. apply Hn, Hn1, Hnone.
    + exact Hk.
Qed.

Lemma upsert_keyed (cs : list ArticleChunk.t) :
  forall m : gmap string ArticleChunk.t,
  map_Forall (fun k c => ArticleChunk.id c = k) m ->
  map_Forall (fun k c => ArticleChunk.id c = k)
    (fold_left (fun acc c => <[ArticleChunk.id c := c]> acc) cs m).
Proof.
  induction cs as [|c cs IH]; intros m Hm; simpl; [exact Hm|].
  apply IH. apply map_Forall_insert_2; [reflexivity | exact Hm].
Qed.

(** ** Assignments to a plain object *)

Lemma lastBy_snoc {A K} `{EqDecision K} (key : A -> K) (k : K) (l : list A) x :
  lastBy key k (l ++ [x])
  = if bool_decide (key x = k) then Some x else lastBy key k l.
Proof. unfold lastBy. rewrite rev_unit. reflexivity. Qed.

Lemma assign_plain {V} (key : string) (value : V) (obj : Obj V) :
  key <> "__proto__" -> assign key value obj = (<[key := value]> obj.1, obj.2).
Proof.
  intros H. unfold assign. destruct (obj.1 !! key); [reflexivity|].
  rewrite bool_decide_eq_false_2 by exact H. reflexivity.
Qed.

Lemma assign_own {V} (key : string) (value : V) (obj : Obj V) :
  is_Some (obj.1 !! key) -> assign key value obj = (<[key := value]> obj.1, obj.2).
Proof. intros [v H]. unfold assign. rewrite H. reflexivity. Qed.

Lemma assign_proto {V} (value : V) (obj : Obj V) :
  obj.1 !! "__proto__" = None -> assign "__proto__" value obj = (obj.1, Some value).
Proof. intros H. unfold assign. rewrite H. reflexivity. Qed.

Lemma assign_cases {V} (key : string) (value : V) (obj : Obj V) :
  assign key value obj = (<[key := value]> obj.1, obj.2) \/
  (key = "__proto__" /\ obj.1 !! key = None /\
   assign key value obj = (obj.1, Some value)).
Proof.
  unfold assign. destruct (obj.1 !! key) eqn:E; [left; reflexivity|].
  case_bool_decide as Hk; [right | left]; auto.
Qed.

(** Where no new entry has the id [__proto__] the assignments are
    insertions. *)
Lemma fold_assign_plain {V} (key : V -> string) (l : list V) : forall obj : Obj V,
  Forall (fun x => key x <> "__proto__") l ->
  fold_left (fun o x => assign (key x) x o) l obj
  = (fold_left (fun m x => <[key x := x]> m) l obj.1, obj.2).
Proof.
  induction l as [|x l IH]; intros obj H; simpl; [destruct obj; reflexivity|].
  inversion H as [|? ? Hx Hl]; subst.
  rewrite (assign_plain _ _ _ Hx), (IH _ Hl). reflexivity.
Qed.

Lemma assign_own_keyed {V} (key : V -> string) (x : V) (obj : Obj V) :
  map_Forall (fun k v => key v = k) obj.1 ->
  map_Forall (fun k v => key v = k) (assign (key x) x obj).1.
Proof.
  intros Hm.
  destruct (assign_cases (key x) x obj) as [->|(_ & _ & ->)]; simpl;
    [apply map_Forall_insert_2; [reflexivity | exact Hm] | exact Hm].
Qed.

Lemma fold_assign_own_keyed {V} (key : V -> string) (l : list V) :
  forall obj : Obj V,
  map_Forall (fun k v => key v = k) obj.1 ->
  map_Forall (fun k v => key v = k)
    (fold_left (fun o x => assign (key x) x o) l obj).1.
Proof.
  induction l as [|x l IH]; intros obj Hm; simpl; [exact Hm|].
  apply IH, assign_own_keyed, Hm.
Qed.

Lemma assign_keyed {V} (key : V -> string) (x : V) (obj : Obj V) :
  map_Forall (fun k v => key v = k) obj.1 ->
  (forall p, obj.2 = Some p -> key p = "__proto__") ->
  map_Forall (fun k v => key v = k) (assign (key x) x obj).1 /\
  (forall p, (assign (key x) x obj).2 = Some p -> key p = "__proto__").
Proof.
  intros Hm Hp.
  destruct (assign_cases (key x) x obj) as [->|(Hk & _ & ->)]; simpl.
  - split; [apply map_Forall_insert_2; [reflexivity | exact Hm] | exact Hp].
  - split; [exact Hm|]. intros p Hx. inversion Hx; subst p. exact Hk.
Qed.

Lemma fold_assign_keyed {V} (key : V -> string) (l : list V) : forall obj : Obj V,
  map_Forall (fun k v => key v = k) obj.1 ->
  (forall p, obj.2 = Some p -> key p = "__proto__") ->
  map_Forall (fun k v => key v = k)
    (fold_left (fun o x => assign (key x) x o) l obj).1 /\
  (forall p, (fold_left (fun o x => assign (key x) x o) l obj).2 = Some p ->
             key p = "__proto__").
Proof.
  induction l as [|x l IH]; intros obj Hm Hp; simpl; [split; assumption|].
  destruct (assign_keyed key x obj Hm Hp) as [Hm' Hp']. apply IH; assumption.
Qed.

(** What a run of assignments leaves: under every key but [__proto__], and
    under [__proto__] when the object had an own property of that name, the
    last of the new entries with that id; else no property [__proto__] and
    the last of the new entries with the id [__proto__] as the prototype. *)
Lemma fold_assign_lookup {V} (key : V -> string) (l : list V) (obj : Obj V) :
  let obj' := fold_left (fun o x => assign (key x) x o) l obj in
  (forall k, k <> "__proto__" \/ is_Some (obj.1 !! k) ->
     obj'.1 !! k = match lastBy key k l with
                   | Some x => Some x
                   | None => obj.1 !! k
                   end) /\
  (obj.1 !! "__proto__" = None ->
   obj'.1 !! "__proto__" = None /\
   obj'.2 = match lastBy key "__proto__" l with
            | Some x => Some x
            | None => obj.2
            end) /\
  (is_Some (obj.1 !! "__proto__") -> obj'.2 = obj.2).
Proof.
  induction l as [|x l IH] using rev_ind; [simpl; auto|].
  intros obj'. unfold obj'. clear obj'. rewrite fold_left_app. simpl.
  set (o1 := fold_left (fun o x => assign (key x) x o) l obj) in *.
  destruct IH as (IH1 & IH2 & IH3).
  split; [|split].
  - intros k Hk. rewrite lastBy_snoc. case_bool_decide as Hx.
    + subst k.
      assert (Ha : assign (key x) x o1 = (<[key x := x]> o1.1, o1.2)).
      { destruct Hk as [Hk|Hk]; [apply assign_plain, Hk|].
        apply assign_own. rewrite (IH1 _ (or_intror Hk)).
        destruct (lastBy key (key x) l); [eauto | exact Hk]. }
      rewrite Ha. apply lookup_insert_eq.
    + rewrite <- (IH1 k Hk).
      destruct (assign_cases (key x) x o1) as [->|(_ & _ & ->)]; simpl;
        [apply lookup_insert_ne, Hx | reflexivity].
  - intros Hnone. destruct (IH2 Hnone) as [Hown Hproto].
    rewrite lastBy_snoc. case_bool_decide as Hx.
    + rewrite Hx, (assign_proto x o1 Hown). split; [exact Hown | reflexivity].
    + rewrite (assign_plain _ _ _ Hx). simpl.
      rewrite lookup_insert_ne by exact Hx. split; [exact Hown | exact Hproto].
  - intros Hsome. rewrite <- (IH3 Hsome).
    destruct (assign_cases (key x) x o1) as [->|(Hk & Hnone & _)];
      [reflexivity|].
    exfalso. rewrite Hk, (IH1 _ (or_intror Hsome)) in Hnone.
    destruct (lastBy key "__proto__" l); [discriminate|].
    destruct Hsome as [v Hv]. congruence.
Qed.

(** ** Reads of the chunk dictionary *)

(** Membership in a list that is written out. *)
Ltac listed :=
  apply list_elem_of_In; simpl; repeat ((left; reflexivity) || right).

Lemma ownField_not_chunk p key v : ownField p key = Some v -> forall c, v <> OfChunk c.
Proof.
  unfold ownField, chunkFields. simpl.
  repeat (case_bool_decide; simpl; [intros Hv c Hc; subst v; discriminate Hv|]).
  intros Hv. discriminate Hv.
Qed.

Lemma ownField_name p key v : ownField p key = Some v -> key ∈ fieldNames.
Proof.
  unfold ownField, chunkFields, fieldNames. simpl.
  repeat (case_bool_decide; simpl; [intros _; subst key; listed|]).
  intros Hv. discriminate Hv.
Qed.

(** A read gives a chunk only for an own entry, or for [__proto__] when a
    chunk is the prototype. *)
Lemma getProperty_OfChunk (obj : Obj ArticleChunk.t) key c :
  getProperty obj key = OfChunk c ->
  obj.1 !! key = Some c \/
  (obj.1 !! key = None /\ key = "__proto__" /\ obj.2 = Some c).
Proof.
  unfold getProperty, inherited.
  destruct (obj.1 !! key) as [c'|] eqn:Hown; [intros H; inversion H; auto|].
  destruct obj.2 as [p|] eqn:Hp.
  - destruct (ownField p key) as [v|] eqn:Hf.
    + intros ->. exfalso. exact (ownField_not_chunk p key _ Hf c eq_refl).
    + case_bool_decide as Hk; [intros H; inversion H; auto|].
      case_bool_decide; discriminate.
  - case_bool_decide; [discriminate|]. case_bool_decide; discriminate.
Qed.

(** A read gives what is no entry only under a name of [Object.prototype]
    or of a field of a chunk. *)
Lemma getProperty_truthy (obj : Obj ArticleChunk.t) key :
  truthy (getProperty obj key) = true ->
  is_Some (obj.1 !! key) \/ key ∈ prototypeNames \/ key ∈ fieldNames.
Proof.
  unfold getProperty, inherited.
  destruct (obj.1 !! key) as [c'|] eqn:Hown; [eauto|].
  assert (Hin : truthy (if bool_decide (key = "__proto__")
                        then match obj.2 with
                             | Some p => OfChunk p
                             | None => ObjectPrototype
                             end
                        else if bool_decide (key ∈ prototypeNames)
                             then Builtin key else Undefined) = true ->
                key ∈ prototypeNames).
  { case_bool_decide as Hk; [intros _; rewrite Hk; listed|].
    case_bool_decide; [auto | discriminate]. }
  destruct obj.2 as [p|] eqn:Hp.
  - destruct (ownField p key) as [v|] eqn:Hf.
    + intros _. right. right. exact (ownField_name p key v Hf).
    + intros H. right. left. apply Hin, H.
  - intros H. right. left. apply Hin, H.
Qed.

(** A read under a name that neither prototype defines gives the own
    entry. *)
Lemma getProperty_own (obj : Obj ArticleChunk.t) key :
  key ∉ prototypeNames -> key ∉ fieldNames ->
  getProperty obj key = match obj.1 !! key with
                        | Some c => OfChunk c
                        | None => Undefined
                        end.
Proof.
  intros Hp Hf. unfold getProperty, inherited.
  destruct (obj.1 !! key) as [c|]; [reflexivity|].
  assert (Hk : key <> "__proto__") by (intros ->; apply Hp; listed).
  rewrite (bool_decide_eq_false_2 _ Hk), (bool_decide_eq_false_2 _ Hp).
  destruct obj.2 as [p|]; [|reflexivity].
  destruct (ownField p key) as [v|] eqn:E; [|reflexivity].
  exfalso. exact (Hf (ownField_name p key v E)).
Qed.

(** ** Loading and saving *)

Section Persistence.
Variable toISOString : Z -> string.

Lemma load_spec w :
  load toISOString w = (Ok tt, loadedState toISOString w).
Proof.
  unfold load, loadedState, loadedStore, bind, getState. simpl.
  destruct (file w) eqn:Hf; simpl; rewrite Hf; reflexivity.
Qed.

Lemma ensureLoaded_loaded w :
  isLoaded w = true -> ensureLoaded toISOString w = (Ok tt, w).
Proof. intros H. unfold ensureLoaded, bind, getState. simpl. rewrite H. reflexivity. Qed.

Lemma ensureLoaded_unloaded w :
  isLoaded w = false -> ensureLoaded toISOString w = load toISOString w.
Proof. intros H. unfold ensureLoaded, bind, getState. simpl. rewrite H. reflexivity. Qed.

Lemma ensureLoaded_Ok w :
  exists w1, ensureLoaded toISOString w = (Ok tt, w1) /\ isLoaded w1 = true /\
             fault w1 = fault w /\ clock w1 = clock w /\ file w1 = file w /\
             vectorStore w1
             = if isLoaded w then vectorStore w else loadedStore toISOString w.
Proof.
  destruct (isLoaded w) eqn:H.
  - exists w. rewrite (ensureLoaded_loaded w H). repeat split; auto.
  - rewrite (ensureLoaded_unloaded w H), load_spec. eexists. split; [reflexivity|].
    simpl. repeat split; auto.
Qed.

Lemma save_spec w :
  save toISOString w =
  if isLoaded w then
    match fault w with
    | MkdirFault => (Err FsError, w)
    | WriteFault torn =>
        (Err FsError,
         stampedState toISOString w (if torn then FileCorrupt else file w))
    | NoFault =>
        (Ok tt, stampedState toISOString w (FileData (stamped toISOString w)))
    end
  else (Err NotLoaded, w).
Proof.
  unfold save, bind, getState. simpl.
  destruct (isLoaded w) eqn:Hl; simpl; [|reflexivity].
  destruct (fault w) as [| |[|]] eqn:Hf;
    unfold writeFile, setFile, throw, stampedState, stamped; simpl;
    rewrite ?Hl, ?Hf; reflexivity.
Qed.

Lemma save_not_NotLoaded w :
  isLoaded w = true -> fst (save toISOString w) <> Err NotLoaded.
Proof.
  intros H. rewrite save_spec, H. destruct (fault w); simpl; discriminate.
Qed.

(** A successful [save] leaves the counts equal to the sizes of the
    dictionaries, and the file equal to the store in memory. *)
Lemma save_Ok w w' :
  save toISOString w = (Ok tt, w') ->
  Metadata.totalArticles (metadata (vectorStore w'))
  = jsSize (articles (vectorStore w')) /\
  Metadata.totalChunks (metadata (vectorStore w'))
  = jsSize (chunks (vectorStore w')) /\
  file w' = FileData (vectorStore w') /\
  isLoaded w' = true /\
  articles (vectorStore w') = articles (vectorStore w) /\
  chunks (vectorStore w') = chunks (vectorStore w) /\
  embeddings (vectorStore w') = embeddings (vectorStore w).
Proof.
  rewrite save_spec. destruct (isLoaded w) eqn:Hl; [|discriminate].
  destruct (fault w); intros H; inversion H; subst; clear H; simpl.
  repeat split; try reflexivity. exact Hl.
Qed.

Lemma bind_ensureLoaded {B} (k : unit -> M B) w :
  bind (ensureLoaded toISOString) k w
  = k tt (if isLoaded w then w else snd (load toISOString w)).
Proof.
  unfold bind at 1. destruct (isLoaded w) eqn:H.
  - rewrite (ensureLoaded_loaded w H). reflexivity.
  - rewrite (ensureLoaded_unloaded w H), load_spec. reflexivity.
Qed.

(** ** Counts after a save *)

Lemma upsertData_save a c e m cs co w w' :
  upsertData toISOString a c e m cs co w = (Ok tt, w') ->
  exists w1, save toISOString w1 = (Ok tt, w').
Proof.
  unfold upsertData. intros H.
  apply bind_Ok_inv in H as (? & ? & _ & H).
  apply bind_Ok_inv in H as (? & ? & _ & H).
  apply bind_Ok_inv in H as (? & ? & _ & H). eauto.
Qed.

Lemma removeArticles_save ids w w' :
  removeArticles toISOString ids w = (Ok tt, w') ->
  exists w1, save toISOString w1 = (Ok tt, w').
Proof.
  unfold removeArticles. intros H.
  apply bind_Ok_inv in H as (? & ? & _ & H).
  apply bind_Ok_inv in H as (? & ? & _ & H).
  apply bind_Ok_inv in H as (? & ? & _ & H). eauto.
Qed.

Lemma clear_save w w' :
  clear toISOString w = (Ok tt, w') ->
  exists w1, save toISOString w1 = (Ok tt, w').
Proof.
  unfold clear. intros H.
  apply bind_Ok_inv in H as (? & ? & _ & H).
  apply bind_Ok_inv in H as (? & ? & _ & H). eauto.
Qed.

(** C10: when [upsertData], [removeArticles] or [clear] returns, the
    counts in the metadata are the numbers of entries of the article and
    chunk dictionaries, and the file holds the store as it is in memory. *)
Theorem counts_after_save w w' :
  (exists a c e m cs co, upsertData toISOString a c e m cs co w = (Ok tt, w')) \/
  (exists ids, removeArticles toISOString ids w = (Ok tt, w')) \/
  clear toISOString w = (Ok tt, w') ->
  Metadata.totalArticles (metadata (vectorStore w'))
  = Z.of_nat (size (articles (vectorStore w'))) /\
  Metadata.totalChunks (metadata (vectorStore w'))
  = Z.of_nat (size (chunks (vectorStore w'))) /\
  file w' = FileData (vectorStore w').
Proof.
  intros H.
  assert (Hs : exists w1, save toISOString w1 = (Ok tt, w')).
  { destruct H as [(a & c & e & m & cs & co & H)|[(ids & H)|H]].
    - eapply upsertData_save; eassumption.
    - eapply removeArticles_save; eassumption.
    - eapply clear_save; eassumption. }
  destruct Hs as [w1 Hs].
  destruct (save_Ok w1 w' Hs) as (Ha & Hc & Hf & _).
  split; [exact Ha|]. split; [exact Hc | exact Hf].
Qed.

(** ** Removal *)

Lemma removeArticles_keyed ids : forall s,
  chunksKeyed s -> chunksKeyed (fold_left removeArticle ids s).
Proof.
  induction ids as [|a ids IH]; intros s Hs; simpl; [exact Hs|].
  apply IH, removeArticle_keyed, Hs.
Qed.

Lemma load_wellKeyed w : wellKeyed w -> wellKeyed (snd (load toISOString w)).
Proof.
  intros [Hs Hf]. rewrite load_spec. unfold wellKeyed, loadedState, loadedStore.
  simpl. split; [|exact Hf]. destruct (file w); try apply map_Forall_empty. exact Hf.
Qed.

Lemma save_wellKeyed w : wellKeyed w -> wellKeyed (snd (save toISOString w)).
Proof.
  intros [Hs Hf]. rewrite save_spec.
  destruct (isLoaded w); [|split; assumption].
  destruct (fault w) as [| |[|]]; simpl; split; (assumption || exact I).
Qed.

Lemma ensured_wellKeyed w :
  wellKeyed w -> wellKeyed (if isLoaded w then w else snd (load toISOString w)).
Proof. intros Hw. destruct (isLoaded w); [exact Hw | apply load_wellKeyed, Hw]. Qed.

(** A service created beside a missing or unreadable file keeps every
    chunk under its own id, whatever is called on it. *)
Lemma newService_wellKeyed flt clk :
  wellKeyed (newService toISOString FileMissing flt clk) /\
  wellKeyed (newService toISOString FileCorrupt flt clk).
Proof. split; (split; [apply map_Forall_empty | exact I]). Qed.

Lemma upserted_keyed a c e m cs co w :
  chunksKeyed (vectorStore w) ->
  chunksKeyed (vectorStore (upserted a c e m cs co w)).
Proof.
  intros Hkey. unfold chunksKeyed, upserted. simpl.
  apply (fold_assign_own_keyed ArticleChunk.id). exact Hkey.
Qed.

(** [upsertData] is the three loops on the loaded state, followed by
    [save()]. *)
Lemma upsertData_run a c e m cs co w :
  upsertData toISOString a c e m cs co w
  = save toISOString
      (upserted a c e m cs co
         (if isLoaded w then w else snd (load toISOString w))).
Proof. unfold upsertData. rewrite bind_ensureLoaded. reflexivity. Qed.

(** [removeArticles] is the loop over the ids on the loaded state, followed
    by [save()]. *)
Lemma removeArticles_run ids w :
  removeArticles toISOString ids w
  = save toISOString
      (snd (setStore
              (fold_left removeArticle ids
                 (vectorStore (if isLoaded w then w
                               else snd (load toISOString w))))
              (if isLoaded w then w else snd (load toISOString w)))).
Proof. unfold removeArticles. rewrite bind_ensureLoaded. reflexivity. Qed.

Lemma upsertData_wellKeyed a c e m cs co w :
  wellKeyed w -> wellKeyed (snd (upsertData toISOString a c e m cs co w)).
Proof.
  intros Hw. rewrite upsertData_run. apply save_wellKeyed.
  destruct (ensured_wellKeyed w Hw) as [Hs Hf].
  split; [apply upserted_keyed, Hs | exact Hf].
Qed.

Lemma removeArticles_wellKeyed ids w :
  wellKeyed w -> wellKeyed (snd (removeArticles toISOString ids w)).
Proof.
  intros Hw. rewrite removeArticles_run. apply save_wellKeyed.
  destruct (ensured_wellKeyed w Hw) as [Hs Hf].
  split; [apply removeArticles_keyed, Hs | exact Hf].
Qed.

Lemma clear_wellKeyed w :
  wellKeyed w -> wellKeyed (snd (clear toISOString w)).
Proof.
  intros [_ Hf]. unfold clear, bind at 1 2, createEmptyStore.
  unfold bind, now, ret, installStore. apply save_wellKeyed.
  split; [apply map_Forall_empty | exact Hf].
Qed.

(** The stores the service builds keep every chunk under its own id: the
    empty store does, and [upsertData] keeps it so. *)
Lemma upsertData_keyed a c e m cs co w :
  chunksKeyed (vectorStore w) -> isLoaded w = true ->
  chunksKeyed (vectorStore (snd (upsertData toISOString a c e m cs co w))).
Proof.
  intros Hkey Hl. rewrite upsertData_run, Hl, save_spec.
  change (isLoaded (upserted a c e m cs co w)) with (isLoaded w). rewrite Hl.
  change (fault (upserted a c e m cs co w)) with (fault w).
  destruct (fault w); simpl; apply (fold_assign_own_keyed ArticleChunk.id);
    exact Hkey.
Qed.

(** What [removeArticles] does to the dictionaries, and that it saves. *)
Lemma removeArticles_lookup w ids :
  isLoaded w = true -> chunksKeyed (vectorStore w) ->
  let s := vectorStore w in
  let w' := snd (removeArticles toISOString ids w) in
  let s' := vectorStore w' in
  (forall k, articles s' !! k
             = if bool_decide (k ∈ ids) then None else articles s !! k) /\
  (forall k, chunks s' !! k
             = match chunks s !! k with
               | Some c => if bool_decide (ArticleChunk.articleId c ∈ ids)
                           then None else Some c
               | None => None
               end) /\
  (forall k c, chunks s !! k = Some c -> ArticleChunk.articleId c ∈ ids ->
               embeddings s' !! (ArticleChunk.id c +:+ "_embedding") = None) /\
  (forall e, (forall k c, chunks s !! k = Some c ->
                          ArticleChunk.articleId c ∈ ids ->
                          e <> ArticleChunk.id c +:+ "_embedding") ->
             embeddings s' !! e = embeddings s !! e) /\
  (fault w = NoFault ->
   removeArticles toISOString ids w = (Ok tt, w') /\
   file w' = FileData s').
Proof.
  intros Hl Hkey s w' s'.
  destruct (removeArticles_fold ids s Hkey) as (Ha & Hc & He & Hu & _ & _).
  assert (Hmaps : articles s' = articles (fold_left removeArticle ids s) /\
                  chunks s' = chunks (fold_left removeArticle ids s) /\
                  embeddings s' = embeddings (fold_left removeArticle ids s) /\
                  (fault w = NoFault ->
                   removeArticles toISOString ids w = (Ok tt, w') /\
                   file w' = FileData s')).
  { unfold s', w'. rewrite removeArticles_run, Hl, save_spec.
    unfold setStore. simpl. rewrite Hl.
    destruct (fault w); simpl; repeat split; try reflexivity; discriminate. }
  destruct Hmaps as (Ea & Ec & Ee & Hsave).
  rewrite Ea, Ec, Ee.
  split; [exact Ha|]. split; [exact Hc|]. split; [exact He|]. split; [exact Hu|].
  exact Hsave.
Qed.

(** [removeArticles] leaves the prototypes of the dictionaries as they
    are. *)
Lemma removeArticles_protos w ids :
  isLoaded w = true ->
  chunksProto (snd (removeArticles toISOString ids w)) = chunksProto w /\
  embeddingsProto (snd (removeArticles toISOString ids w)) = embeddingsProto w.
Proof.
  intros Hl. rewrite removeArticles_run, Hl, save_spec.
  unfold setStore. simpl. rewrite Hl.
  destruct (fault w); simpl; split; reflexivity.
Qed.

(** The store that [upsertData] leaves in memory, whether the save that
    follows succeeds or not. *)
Lemma upsertData_maps a c e m cs co w :
  isLoaded w = true ->
  let s := vectorStore w in
  let w1 := snd (upsertData toISOString a c e m cs co w) in
  isLoaded w1 = true /\
  articles (vectorStore w1)
  = fold_left (fun acc x => <[ZendeskArticle.id x := x]> acc) a (articles s) /\
  (chunks (vectorStore w1), chunksProto w1)
  = fold_left (fun obj x => assign (ArticleChunk.id x) x obj) c
              (chunks s, chunksProto w) /\
  (embeddings (vectorStore w1), embeddingsProto w1)
  = fold_left (fun obj x => assign (Embedding.id x) x obj) e
              (embeddings s, embeddingsProto w) /\
  Metadata.embeddingModel (metadata (vectorStore w1)) = m /\
  Metadata.chunkSize (metadata (vectorStore w1)) = cs /\
  Metadata.chunkOverlap (metadata (vectorStore w1)) = co.
Proof.
  intros Hl s w1. unfold w1.
  rewrite upsertData_run, Hl, save_spec.
  change (isLoaded (upserted a c e m cs co w)) with (isLoaded w). rewrite Hl.
  change (fault (upserted a c e m cs co w)) with (fault w).
  destruct (fault w); simpl; rewrite <- !surjective_pairing;
    repeat split; try reflexivity; exact Hl.
Qed.

(** The same where no new chunk and no new embedding has the id
    [__proto__]: the new entries are inserted and the prototypes stay. *)
Lemma upsertData_inserts a c e m cs co w :
  isLoaded w = true ->
  Forall (fun x => ArticleChunk.id x <> "__proto__") c ->
  Forall (fun x => Embedding.id x <> "__proto__") e ->
  let s := vectorStore w in
  let w1 := snd (upsertData toISOString a c e m cs co w) in
  isLoaded w1 = true /\
  articles (vectorStore w1)
  = fold_left (fun acc x => <[ZendeskArticle.id x := x]> acc) a (articles s) /\
  chunks (vectorStore w1)
  = fold_left (fun acc x => <[ArticleChunk.id x := x]> acc) c (chunks s) /\
  embeddings (vectorStore w1)
  = fold_left (fun acc x => <[Embedding.id x := x]> acc) e (embeddings s) /\
  chunksProto w1 = chunksProto w /\
  embeddingsProto w1 = embeddingsProto w.
Proof.
  intros Hl Hc He s w1.
  destruct (upsertData_maps a c e m cs co w Hl) as (Hl1 & Ha & Hcs & Hes & _).
  fold w1 in Hl1, Ha, Hcs, Hes.
  rewrite (fold_assign_plain ArticleChunk.id c _ Hc) in Hcs.
  rewrite (fold_assign_plain Embedding.id e _ He) in Hes.
  inversion Hcs. inversion Hes. repeat split; assumption || reflexivity.
Qed.

Lemma embeddingId_not_proto (k : string) : k +:+ "_embedding" <> "__proto__".
Proof.
  assert (H : forall s : string, (10 <= String.length (s +:+ "_embedding"))%nat).
  { intros s. induction s as [|a s IH]; [simpl; lia|].
    change (String a s +:+ "_embedding") with (String a (s +:+ "_embedding")).
    simpl. lia. }
  intros E. specialize (H k). rewrite E in H. simpl in H. lia.
Qed.



End Persistence.

Lemma counts_after_save_witness :
  upsertData exampleISO [article1]
    [chunk1 "0" "Open the settings."; chunk1 "1" "Choose reset."]
    [embedding1 "0" [1; 0]%float; embedding1 "1" [0.5; 0.5]%float]
    "BAAI/bge-large-en-v1.5" 1000 200 loadedService
  = (Ok tt, indexedService) /\
  size (articles (vectorStore indexedService)) = 1%nat /\
  size (chunks (vectorStore indexedService)) = 2%nat /\
  Metadata.totalArticles (metadata (vectorStore loadedService)) = 0%Z /\
  Metadata.totalChunks (metadata (vectorStore loadedService)) = 0%Z /\
  Metadata.totalArticles (metadata (vectorStore indexedService))
  = Z.of_nat (size (articles (vectorStore indexedService))) /\
  Metadata.totalChunks (metadata (vectorStore indexedService))
  = Z.of_nat (size (chunks (vectorStore indexedService))) /\
  file indexedService = FileData (vectorStore indexedService).
Proof.
  assert (H : upsertData exampleISO [article1]
                [chunk1 "0" "Open the settings."; chunk1 "1" "Choose reset."]
                [embedding1 "0" [1; 0]%float; embedding1 "1" [0.5; 0.5]%float]
                "BAAI/bge-large-en-v1.5" 1000 200 loadedService
              = (Ok tt, indexedService))
    by (vm_compute; reflexivity).
  split; [exact H|].
  split; [vm_compute; reflexivity|]. split; [vm_compute; reflexivity|].
  split; [reflexivity|]. split; [reflexivity|].
  apply (counts_after_save exampleISO loadedService indexedService).
  left. do 6 eexists. exact H.
Defined.

(** The counts follow the dictionaries down as well: after
    [removeArticles([1])] on the indexed service both are 0. *)
Example counts_after_removal :
  exists w',
    removeArticles exampleISO [1%Z] indexedService = (Ok tt, w') /\
    Metadata.totalArticles (metadata (vectorStore indexedService)) = 1%Z /\
    Metadata.totalChunks (metadata (vectorStore indexedService)) = 2%Z /\
    Metadata.totalArticles (metadata (vectorStore w')) = 0%Z /\
    Metadata.totalChunks (metadata (vectorStore w')) = 0%Z.
Proof. eexists. split; [vm_compute; reflexivity|]. repeat split; reflexivity. Qed.

Example removeArticles_indexed :
  size (articles (vectorStore indexedService)) = 1%nat /\
  size (chunks (vectorStore indexedService)) = 2%nat /\
  size (embeddings (vectorStore indexedService)) = 2%nat /\
  getStats (snd (removeArticles exampleISO [1%Z] indexedService))
  = (Ok {| Stats.totalArticles := 0; Stats.totalChunks := 0;
           Stats.totalEmbeddings := 0;
           Stats.embeddingModel := "BAAI/bge-large-en-v1.5";
           Stats.lastUpdated := "2025-01-01T00:00:00.000Z" |},
     snd (removeArticles exampleISO [1%Z] indexedService)).
Proof. vm_compute. repeat split; reflexivity. Qed.

Lemma indexedService_keyed : chunksKeyed (vectorStore indexedService).
Proof.
  apply upsertData_keyed; [apply map_Forall_empty | reflexivity].
Qed.



(** The scenario of C6 with a chunk whose id is [__proto__]: [upsertData]
    stores the embedding of the chunk but not the chunk, so
    [removeArticles([1])] finds no chunk to remove and the embedding
    stays. *)
Example removeArticles_leaves_embedding :
  let w1 := snd (upsertData exampleISO [article1]
                   [protoChunk; chunk1 "1" "Choose reset."]
                   [protoEmbedding; embedding1 "1" [0.5; 0.5]%float]
                   "BAAI/bge-large-en-v1.5" 1000 200 loadedService) in
  let s2 := vectorStore (snd (removeArticles exampleISO [1%Z] w1)) in
  size (chunks (vectorStore w1)) = 1%nat /\
  size (articles s2) = 0%nat /\ size (chunks s2) = 0%nat /\
  size (embeddings s2) = 1%nat.
Proof. vm_compute. repeat split; reflexivity. Qed.

(** ** Reindex detection *)

Section Reindex.
Variable Date_parse : string -> option Z.

Lemma classify_fold existing : forall l new updated,
  fold_left (classify Date_parse existing) l (new, updated)
  = (new ++ List.filter (isAbsent existing) l,
     updated ++ List.filter (isUpdated Date_parse existing) l).
Proof.
  induction l as [|a l IH]; intros new updated; simpl.
  - rewrite !app_nil_r. reflexivity.
  - unfold classify at 2, isAbsent at 1, isUpdated at 1. simpl.
    destruct (existing !! ZendeskArticle.id a) as [e|].
    + destruct (isNewer _ _ _); rewrite IH; [rewrite <- app_assoc|]; reflexivity.
    + rewrite IH, <- app_assoc. reflexivity.
Qed.

Lemma isNewer_spec a b :
  isNewer Date_parse a b = true <->
  exists ta tb, Date_parse a = Some ta /\ Date_parse b = Some tb /\ (tb < ta)%Z.
Proof.
  unfold isNewer. split.
  - destruct (Date_parse a) as [ta|]; [|discriminate].
    destruct (Date_parse b) as [tb|]; [|discriminate].
    intros H. apply Z.ltb_lt in H. eauto.
  - intros (ta & tb & -> & -> & H). apply Z.ltb_lt. exact H.
Qed.

Lemma isNewer_irrefl a : isNewer Date_parse a a = false.
Proof. unfold isNewer. destruct (Date_parse a); [apply Z.ltb_irrefl | reflexivity]. Qed.

(** C7: on a loaded store [needsReindexing] changes nothing and returns
    - as new the input articles whose id the store does not hold,
    - as updated the input articles whose [updated_at] is strictly later
      than that of the stored article with their id,
    - as deleted the stored ids that no input article has,
    - [needsReindex] true exactly when one of the three lists is not empty;
    when every input article is stored with the same [updated_at] and every
    stored id is an input id, all three lists are empty and [needsReindex]
    is false. *)
Theorem needsReindexing_diff w (currentArticles : list ZendeskArticle.t) :
  isLoaded w = true ->
  let existing := articles (vectorStore w) in
  exists r,
    needsReindexing Date_parse currentArticles w = (Ok r, w) /\
    newArticles r = List.filter (isAbsent existing) currentArticles /\
    updatedArticles r
    = List.filter (isUpdated Date_parse existing) currentArticles /\
    (forall a b, isNewer Date_parse a b = true <->
       exists ta tb, Date_parse a = Some ta /\ Date_parse b = Some tb /\
                     (tb < ta)%Z) /\
    (forall k, k ∈ deletedArticleIds r <->
       is_Some (existing !! k) /\ k ∉ map ZendeskArticle.id currentArticles) /\
    NoDup (deletedArticleIds r) /\
    (needsReindex r = true <->
       newArticles r <> [] \/ updatedArticles r <> [] \/
       deletedArticleIds r <> []) /\
    ((forall a, In a currentArticles ->
        exists e, existing !! ZendeskArticle.id a = Some e /\
                  ZendeskArticle.updated_at e = ZendeskArticle.updated_at a) ->
     (forall k, is_Some (existing !! k) ->
        k ∈ map ZendeskArticle.id currentArticles) ->
     r = {| needsReindex := false; newArticles := []; updatedArticles := [];
            deletedArticleIds := [] |}).
Proof.
  intros Hl existing.
  unfold needsReindexing, bind, getState, ret. simpl. rewrite Hl. simpl.
  fold existing. rewrite classify_fold. simpl.
  set (deleted := List.filter _ (keys existing)).
  assert (Hdel : forall k, k ∈ deleted <->
            is_Some (existing !! k) /\ k ∉ map ZendeskArticle.id currentArticles).
  { intros k. unfold deleted. rewrite list_elem_of_In, List.filter_In.
    rewrite <- list_elem_of_In, elem_of_keys, negb_true_iff, bool_decide_eq_false.
    rewrite elem_of_list_to_set. tauto. }
  eexists. split; [reflexivity|]. simpl.
  split; [reflexivity|]. split; [reflexivity|].
  split; [apply isNewer_spec|].
  split; [exact Hdel|].
  split; [unfold deleted;
          apply NoDup_ListNoDup, List.NoDup_filter, NoDup_ListNoDup,
                NoDup_fst_map_to_list|].
  split.
  - rewrite !orb_true_iff, !length_pos_iff. tauto.
  - intros Hsame Hall.
    assert (Hn : List.filter (isAbsent existing) currentArticles = []).
    { apply filter_none. intros a Ha. destruct (Hsame a Ha) as (e & He & _).
      unfold isAbsent. rewrite He. reflexivity. }
    assert (Hu : List.filter (isUpdated Date_parse existing) currentArticles = []).
    { apply filter_none. intros a Ha. destruct (Hsame a Ha) as (e & He & Heq).
      unfold isUpdated. rewrite He, Heq. apply isNewer_irrefl. }
    assert (Hd : deleted = []).
    { destruct deleted as [|k d] eqn:E; [reflexivity|].
      assert (Hk : k ∈ k :: d) by (left).
      apply Hdel in Hk as [Hk1 Hk2]. destruct (Hk2 (Hall k Hk1)). }
    rewrite Hn, Hu, Hd. reflexivity.
Qed.

End Reindex.

Example needsReindexing_changed :
  needsReindexing exampleParse [article1_edited; article2] indexedService
  = (Ok {| needsReindex := true; newArticles := [article2];
           updatedArticles := [article1_edited]; deletedArticleIds := [] |},
     indexedService).
Proof. vm_compute. reflexivity. Qed.

Example needsReindexing_unchanged :
  needsReindexing exampleParse [article1] indexedService
  = (Ok {| needsReindex := false; newArticles := []; updatedArticles := [];
           deletedArticleIds := [] |},
     indexedService).
Proof. vm_compute. reflexivity. Qed.

Example needsReindexing_deleted :
  needsReindexing exampleParse [article2] indexedService
  = (Ok {| needsReindex := true; newArticles := [article2];
           updatedArticles := []; deletedArticleIds := [1%Z] |},
     indexedService).
Proof. vm_compute. reflexivity. Qed.

Lemma needsReindexing_diff_witness :
  isLoaded indexedService = true /\
  exists r,
    needsReindexing exampleParse [article1_edited; article2] indexedService
    = (Ok r, indexedService) /\
    newArticles r = [article2] /\
    updatedArticles r = [article1_edited].
Proof.
  assert (Hl : isLoaded indexedService = true) by (vm_compute; reflexivity).
  split; [exact Hl|].
  destruct (needsReindexing_diff exampleParse indexedService
              [article1_edited; article2] Hl) as (r & Heq & Hn & Hu & _).
  exists r. split; [exact Heq|].
  rewrite Hn, Hu. split; vm_compute; reflexivity.
Defined.

(** ** Search *)

Section Searching.
Variable toISOString : Z -> string.
Variable Date_parse : string -> option Z.

Lemma searchLoop_Err clk s p q opts : forall embs results e,
  searchLoop Date_parse clk s p q opts embs results = Err e -> e = LengthMismatch.
Proof.
  induction embs as [|x embs IH]; intros results e H; simpl in H; [discriminate|].
  destruct (cosineSimilarity q (Embedding.vector x)) eqn:Hc.
  - eapply IH; eassumption.
  - inversion H; subst. eapply cosineSimilarity_Err; eassumption.
Qed.

(** C9: called on a store on which [load()] has not been called, [search],
    [upsertData] and [removeArticles] first load it, taking the store in
    the file or an empty one, and go on as on the loaded store; none of
    them throws the not-loaded error. *)
Theorem operations_load_first w :
  isLoaded w = false ->
  let w1 := snd (load toISOString w) in
  load toISOString w = (Ok tt, w1) /\
  isLoaded w1 = true /\
  vectorStore w1 = loadedStore toISOString w /\
  (forall q opts,
     search toISOString Date_parse q opts w
     = search toISOString Date_parse q opts w1 /\
     fst (search toISOString Date_parse q opts w) <> Err NotLoaded) /\
  (forall a c e m cs co,
     upsertData toISOString a c e m cs co w
     = upsertData toISOString a c e m cs co w1 /\
     fst (upsertData toISOString a c e m cs co w) <> Err NotLoaded) /\
  (forall ids,
     removeArticles toISOString ids w = removeArticles toISOString ids w1 /\
     fst (removeArticles toISOString ids w) <> Err NotLoaded).
Proof.
  intros H w1.
  assert (Hl : isLoaded w1 = true) by (unfold w1; rewrite load_spec; reflexivity).
  split; [unfold w1; rewrite load_spec; reflexivity|].
  split; [exact Hl|].
  split; [unfold w1; rewrite load_spec; reflexivity|].
  split; [|split].
  - intros q opts.
    assert (Heq : search toISOString Date_parse q opts w
                  = search toISOString Date_parse q opts w1).
    { unfold search. rewrite !bind_ensureLoaded, H, Hl. reflexivity. }
    split; [exact Heq|]. rewrite Heq.
    unfold search. rewrite bind_ensureLoaded, Hl.
    unfold bind, getState, throw, ret.
    destruct (searchLoop _ _ _ _ _ _ _) eqn:Hs; simpl; [discriminate|].
    apply searchLoop_Err in Hs. subst. discriminate.
  - intros a c e m cs co.
    assert (Heq : upsertData toISOString a c e m cs co w
                  = upsertData toISOString a c e m cs co w1).
    { unfold upsertData. rewrite !bind_ensureLoaded, H, Hl. reflexivity. }
    split; [exact Heq|]. rewrite Heq, upsertData_run, Hl.
    apply save_not_NotLoaded. exact Hl.
  - intros ids.
    assert (Heq : removeArticles toISOString ids w
                  = removeArticles toISOString ids w1).
    { unfold removeArticles. rewrite !bind_ensureLoaded, H, Hl. reflexivity. }
    split; [exact Heq|]. rewrite Heq.
    unfold removeArticles. rewrite bind_ensureLoaded, Hl.
    unfold bind at 1 2. unfold getStore, setStore.
    apply save_not_NotLoaded. exact Hl.
Qed.

Lemma searchLoop_hits clk s p q opts : forall embs results rs,
  (forall e, e ∈ embs -> exists k, embeddings s !! k = Some e) ->
  Forall (searchHit Date_parse clk s p q opts) results ->
  searchLoop Date_parse clk s p q opts embs results = Ok rs ->
  Forall (searchHit Date_parse clk s p q opts) rs.
Proof using Date_parse.
  clear toISOString.
  induction embs as [|e embs IH]; intros results rs Hst Hres Hrun; simpl in Hrun.
  - inversion Hrun; subst. exact Hres.
  - destruct (cosineSimilarity q (Embedding.vector e)) as [sim|] eqn:Hsim;
      [|discriminate].
    apply IH in Hrun; [exact Hrun | intros e' He'; apply Hst; right; exact He' |].
    destruct (minSimilarity opts <=? sim)%float eqn:Hmin; [|exact Hres].
    destruct (truthy (getProperty (chunks s, p) (Embedding.articleChunkId e)))
      eqn:Hc; [|exact Hres].
    apply Forall_app. split; [exact Hres|]. constructor; [|constructor].
    unfold searchHit, scoreOf. simpl.
    split; [apply Hst; left|]. repeat split; assumption || reflexivity.
Qed.

Lemma insertResult_Forall (P : VectorSearchResult -> Prop) x : forall l,
  P x -> Forall P l -> Forall P (insertResult x l).
Proof.
  clear toISOString Date_parse.
  induction l as [|y l IH]; intros Hx Hl; simpl.
  - constructor; [exact Hx | constructor].
  - inversion Hl; subst. destruct (0 <? compareScore x y)%float.
    + constructor; [assumption | apply IH; assumption].
    + constructor; assumption.
Qed.

Lemma sortResults_Forall (P : VectorSearchResult -> Prop) l :
  Forall P l -> Forall P (sortResults l).
Proof.
  clear toISOString Date_parse.
  induction 1 as [|x l Hx Hl IH]; simpl; [constructor|].
  apply insertResult_Forall; assumption.
Qed.

(** Sorting reorders the results and neither adds nor drops one. *)
Lemma sortResults_Permutation l : sortResults l ≡ₚ l.
Proof.
  clear toISOString Date_parse.
  assert (Hins : forall x l, insertResult x l ≡ₚ x :: l).
  { intros x. induction l0 as [|y l0 IH]; simpl; [reflexivity|].
    destruct (0 <? compareScore x y)%float; [|reflexivity].
    rewrite IH. apply Permutation_swap. }
  induction l as [|x l IH]; simpl; [reflexivity|].
  rewrite Hins, IH. reflexivity.
Qed.

(** The scan keeps the same results with and without the recency boost. *)
Lemma searchLoop_boost clk s p q opts : forall embs r1 r2,
  map stripScore r1 = map stripScore r2 ->
  kept (searchLoop Date_parse clk s p q (setBoostRecent opts true) embs r1)
  = kept (searchLoop Date_parse clk s p q (setBoostRecent opts false) embs r2).
Proof using Date_parse.
  clear toISOString.
  induction embs as [|e embs IH]; intros r1 r2 Heq; simpl.
  - rewrite Heq. reflexivity.
  - destruct (cosineSimilarity q (Embedding.vector e)) as [sim|]; [|reflexivity].
    apply IH.
    destruct (minSimilarity opts <=? sim)%float; [|exact Heq].
    destruct (truthy (getProperty (chunks s, p) (Embedding.articleChunkId e)));
      [|exact Heq].
    rewrite !map_app, Heq. reflexivity.
Qed.

(** C1: every result [search] returns belongs to a stored embedding whose
    cosine similarity to the query, computed without any boost, is at or
    above [minSimilarity]; its [similarity] is that value and its [score] is
    the similarity, multiplied by [max(1, recentBoostFactor - ageInDays/365)]
    when [boostRecent] is set. The scan keeps the same chunks, embeddings
    and similarities whether [boostRecent] is set or not. *)
Theorem search_threshold q opts w rs w' :
  search toISOString Date_parse q opts w = (Ok rs, w') ->
  Forall (searchHit Date_parse (clock w') (vectorStore w') (chunksProto w') q opts) rs /\
  (forall clk s p,
     kept (searchLoop Date_parse clk s p q (setBoostRecent opts true)
                 (values (embeddings s)) [])
     = kept (searchLoop Date_parse clk s p q (setBoostRecent opts false)
                   (values (embeddings s)) [])).
Proof.
  intros Hrun. split; [|intros clk s p; apply searchLoop_boost; reflexivity].
  unfold search in Hrun. rewrite bind_ensureLoaded in Hrun.
  set (w1 := if isLoaded w then w else snd (load toISOString w)) in Hrun.
  unfold bind, getState, throw, ret in Hrun.
  destruct (searchLoop Date_parse (clock w1) (vectorStore w1) (chunksProto w1) q opts
              (values (embeddings (vectorStore w1))) []) as [results|] eqn:Hscan;
    [|discriminate].
  inversion Hrun; subst. unfold arraySlice0.
  apply Forall_take, sortResults_Forall.
  eapply searchLoop_hits; [|constructor | exact Hscan].
  intros e He. apply elem_of_values in He. exact He.
Qed.

End Searching.

(** The second embedding of [indexedService] has similarity [0.7071...] to
    the query and is left out, with the boost and without it. *)
Example search_boosted :
  match fst (search exampleISO exampleParse [1; 0]%float boostedSearch
               indexedService) with
  | Ok rs => map (fun r => (Embedding.id (embedding r), similarity r)) rs
             = [("article_1_chunk_0_embedding", 1%float)]
  | Err _ => False
  end.
Proof. vm_compute. reflexivity. Qed.

Example search_unboosted :
  match fst (search exampleISO exampleParse [1; 0]%float
               (setBoostRecent boostedSearch false) indexedService) with
  | Ok rs => map (fun r => (Embedding.id (embedding r), similarity r, score r)) rs
             = [("article_1_chunk_0_embedding", 1%float, 1%float)]
  | Err _ => False
  end.
Proof. vm_compute. reflexivity. Qed.

Lemma search_threshold_witness :
  exists rs w',
    search exampleISO exampleParse [1; 0]%float boostedSearch indexedService
    = (Ok rs, w') /\
    length rs = 1%nat /\
    Forall (searchHit exampleParse (clock w') (vectorStore w') (chunksProto w') [1; 0]%float
              boostedSearch) rs.
Proof.
  eexists. eexists. split; [vm_compute; reflexivity|].
  split; [reflexivity|].
  apply (search_threshold exampleISO exampleParse [1; 0]%float boostedSearch
           indexedService).
  vm_compute. reflexivity.
Defined.

Lemma operations_load_first_witness :
  isLoaded freshService = false /\
  isLoaded (snd (load exampleISO freshService)) = true /\
  forall ids,
    fst (removeArticles exampleISO ids freshService) <> Err NotLoaded.
Proof.
  split; [reflexivity|].
  pose proof (operations_load_first exampleISO exampleParse freshService eq_refl)
    as (_ & Hl & _ & _ & _ & Hr).
  split; [exact Hl | intros ids; apply Hr].
Defined.

(** ** What [upsertData] stores *)

Lemma fold_insert_lookup {K A} `{Countable K} (key : A -> K) (l : list A) :
  forall (m : gmap K A) k,
    fold_left (fun acc x => <[key x := x]> acc) l m !! k
    = match lastBy key k l with
      | Some x => Some x
      | None => m !! k
      end.
Proof.
  induction l as [|x l IH] using rev_ind; intros m k; [reflexivity|].
  rewrite fold_left_app. unfold lastBy. rewrite rev_unit. simpl.
  case_bool_decide as Hk.
  - rewrite <- Hk. apply lookup_insert_eq.
  - rewrite lookup_insert_ne by exact Hk. apply IH.
Qed.

Lemma fold_insert_keyed {K A} `{Countable K} (key : A -> K) (l : list A) :
  forall m : gmap K A,
    map_Forall (fun k x => key x = k) m ->
    map_Forall (fun k x => key x = k)
      (fold_left (fun acc x => <[key x := x]> acc) l m).
Proof.
  induction l as [|x l IH]; intros m Hm; simpl; [exact Hm|].
  apply IH, map_Forall_insert_2; [reflexivity | exact Hm].
Qed.

Lemma fold_delete_Forall {K V C} `{Countable K} (P : K -> V -> Prop)
    (f : C -> K) (cs : list C) :
  forall m : gmap K V,
    map_Forall P m -> map_Forall P (fold_left (fun m c => delete (f c) m) cs m).
Proof.
  induction cs as [|c cs IH]; intros m Hm; simpl; [exact Hm|].
  apply IH, map_Forall_delete, Hm.
Qed.

Section Upserting.
Variable toISOString : Z -> string.

Lemma upsertData_outcome a c e m cs co w :
  isLoaded w = true ->
  let r := upsertData toISOString a c e m cs co w in
  match fault w with
  | NoFault => fst r = Ok tt /\ file (snd r) = FileData (vectorStore (snd r))
  | MkdirFault => fst r = Err FsError /\ file (snd r) = file w
  | WriteFault torn =>
      fst r = Err FsError /\ file (snd r) = if torn then FileCorrupt else file w
  end.
Proof.
  intros Hl r. unfold r. rewrite upsertData_run, Hl, save_spec.
  change (isLoaded (upserted a c e m cs co w)) with (isLoaded w). rewrite Hl.
  change (fault (upserted a c e m cs co w)) with (fault w).
  destruct (fault w); simpl; split; reflexivity.
Qed.

(** After [upsertData] on a loaded service the article dictionary holds,
    under a key, the last of the new articles with that [id], and what it
    held before when there is none; so do the chunk and the embedding
    dictionary under every key but [__proto__], and under [__proto__] when
    they had an own property of that name: entries are replaced and added,
    never removed. A new chunk or embedding with the id [__proto__] is not
    stored where the dictionary has no such property: the last such chunk
    becomes the prototype of the chunk dictionary. The settings of the
    metadata are overwritten. The store in memory is changed before the
    save: when the save fails, the call throws, the store in memory holds
    the new entries, and the file is as it was or, when the write broke
    off, unreadable. *)
Theorem upsertData_last_wins a c e m cs co w :
  isLoaded w = true ->
  let s := vectorStore w in
  let w' := snd (upsertData toISOString a c e m cs co w) in
  let s' := vectorStore w' in
  (forall k, articles s' !! k
             = match lastBy ZendeskArticle.id k a with
               | Some x => Some x
               | None => articles s !! k
               end) /\
  (forall k, k <> "__proto__" \/ is_Some (chunks s !! k) ->
     chunks s' !! k
     = match lastBy ArticleChunk.id k c with
       | Some x => Some x
       | None => chunks s !! k
       end) /\
  (chunks s !! "__proto__" = None ->
   chunks s' !! "__proto__" = None /\
   chunksProto w' = match lastBy ArticleChunk.id "__proto__" c with
                    | Some x => Some x
                    | None => chunksProto w
                    end) /\
  (forall k, k <> "__proto__" \/ is_Some (embeddings s !! k) ->
     embeddings s' !! k
     = match lastBy Embedding.id k e with
       | Some x => Some x
       | None => embeddings s !! k
       end) /\
  (embeddings s !! "__proto__" = None -> embeddings s' !! "__proto__" = None) /\
  Metadata.embeddingModel (metadata s') = m /\
  Metadata.chunkSize (metadata s') = cs /\
  Metadata.chunkOverlap (metadata s') = co /\
  (fault w = NoFault ->
   upsertData toISOString a c e m cs co w = (Ok tt, w') /\
   file w' = FileData s') /\
  (fault w <> NoFault ->
   fst (upsertData toISOString a c e m cs co w) = Err FsError /\
   file w' = match fault w with
             | WriteFault true => FileCorrupt
             | _ => file w
             end).
Proof.
  intros Hl s w' s'.
  destruct (upsertData_maps toISOString a c e m cs co w Hl)
    as (_ & Ha & Hc & He & Hm & Hcs & Hco).
  fold w' in Ha, Hc, He, Hm, Hcs, Hco. fold s' in Ha, Hc, He, Hm, Hcs, Hco.
  fold s in Ha, Hc, He.
  destruct (fold_assign_lookup ArticleChunk.id c (chunks s, chunksProto w))
    as (Hc1 & Hc2 & _).
  destruct (fold_assign_lookup Embedding.id e (embeddings s, embeddingsProto w))
    as (He1 & He2 & _).
  rewrite <- Hc in Hc1, Hc2. rewrite <- He in He1, He2. simpl in Hc1, Hc2, He1, He2.
  pose proof (upsertData_outcome a c e m cs co w Hl) as Hout. simpl in Hout.
  fold w' in Hout. fold s' in Hout.
  split; [intros k; rewrite Ha; apply fold_insert_lookup|].
  split; [exact Hc1|]. split; [exact Hc2|]. split; [exact He1|].
  split; [intros Hn; apply (He2 Hn)|].
  split; [exact Hm|]. split; [exact Hcs|]. split; [exact Hco|]. split.
  - intros Hf. rewrite Hf in Hout. destruct Hout as [Hr Hfile].
    split; [|exact Hfile].
    rewrite (surjective_pairing (upsertData toISOString a c e m cs co w)).
    rewrite Hr. reflexivity.
  - intros Hf. destruct (fault w) as [| |[|]]; [contradiction| | |];
      destruct Hout as [Hr Hfile]; split; assumption.
Qed.

End Upserting.

Lemma upsertData_last_wins_witness :
  isLoaded loadedService = true /\
  chunks (vectorStore indexedService) !! "article_1_chunk_1"
  = match lastBy ArticleChunk.id "article_1_chunk_1"
            [chunk1 "0" "Open the settings."; chunk1 "1" "Choose reset."] with
    | Some x => Some x
    | None => chunks (vectorStore loadedService) !! "article_1_chunk_1"
    end.
Proof.
  split; [reflexivity|].
  pose proof (upsertData_last_wins exampleISO [article1]
                [chunk1 "0" "Open the settings."; chunk1 "1" "Choose reset."]
                [embedding1 "0" [1; 0]%float; embedding1 "1" [0.5; 0.5]%float]
                "BAAI/bge-large-en-v1.5" 1000 200 loadedService eq_refl) as H.
  destruct H as (_ & Hc & _). apply Hc. left. intros E. discriminate E.
Defined.

(** A chunk with the id [__proto__] and its embedding, upserted into the
    empty store: the chunk dictionary gets no entry, the chunk is its
    prototype and what [getChunk] returns for [__proto__], and a field of
    the chunk is what [getChunk] returns for the name of the field. *)
Example upsertData_proto :
  let w' := snd (upsertData exampleISO [] [protoChunk] [protoEmbedding]
                   "BAAI/bge-large-en-v1.5" 1000 200 loadedService) in
  chunks (vectorStore w') = ∅ /\
  chunksProto w' = Some protoChunk /\
  size (embeddings (vectorStore w')) = 1%nat /\
  getChunk "__proto__" w' = (Ok (Some (OfChunk protoChunk)), w') /\
  getChunk "title" w' = (Ok (Some (OfString "Reset a password")), w') /\
  getArticleChunks 1 w' = (Ok [], w').
Proof. vm_compute. repeat split; reflexivity. Qed.

(** ** The states the service reaches *)

Lemma removeArticle_storeKeyed s a : storeKeyed s -> storeKeyed (removeArticle s a).
Proof.
  intros (Ha & Hc & He). split; [|split].
  - unfold removeArticle. simpl. apply map_Forall_delete, Ha.
  - apply removeArticle_keyed, Hc.
  - unfold removeArticle. simpl. rewrite fold_removeChunk. simpl.
    apply fold_delete_Forall, He.
Qed.

Lemma removeArticles_storeKeyed ids : forall s,
  storeKeyed s -> storeKeyed (fold_left removeArticle ids s).
Proof.
  induction ids as [|a ids IH]; intros s Hs; simpl; [exact Hs|].
  apply IH, removeArticle_storeKeyed, Hs.
Qed.

Section Invariant.
Variable toISOString : Z -> string.
Variable Date_parse : string -> option Z.

Lemma emptyStore_storeKeyed t : storeKeyed (emptyStore t).
Proof. repeat split; apply map_Forall_empty. Qed.

Lemma load_consistent w : consistent w -> consistent (snd (load toISOString w)).
Proof.
  intros (Hs & Hf & _). rewrite load_spec.
  unfold consistent, loadedState, loadedStore. simpl.
  split; [|split; [exact Hf | split; discriminate]].
  destruct (file w); try apply emptyStore_storeKeyed. apply Hf.
Qed.

Lemma stamped_storeKeyed w :
  storeKeyed (vectorStore w) -> storeKeyed (stamped toISOString w).
Proof. intros H. exact H. Qed.

Lemma stamped_counted w : counted (stamped toISOString w).
Proof. split; reflexivity. Qed.

Lemma save_consistent w : consistent w -> consistent (snd (save toISOString w)).
Proof.
  intros Hw. pose proof Hw as (Hs & Hf & He & Hp). rewrite save_spec.
  destruct (isLoaded w) eqn:Hl; [|exact Hw].
  destruct (fault w) as [| |[|]]; [| exact Hw | |]; unfold consistent; simpl;
    (split; [apply stamped_storeKeyed, Hs|]).
  - split; [split; [apply stamped_storeKeyed, Hs | apply stamped_counted]|].
    split; [congruence | exact Hp].
  - split; [exact I|]. split; [congruence | exact Hp].
  - split; [exact Hf|]. split; [congruence | exact Hp].
Qed.

Lemma ensured_consistent w :
  consistent w ->
  consistent (if isLoaded w then w else snd (load toISOString w)) /\
  isLoaded (if isLoaded w then w else snd (load toISOString w)) = true.
Proof.
  intros Hw. destruct (isLoaded w) eqn:Hl; [split; assumption|].
  split; [apply load_consistent, Hw | rewrite load_spec; reflexivity].
Qed.

Lemma upserted_consistent a c e m cs co w :
  consistent w -> isLoaded w = true -> consistent (upserted a c e m cs co w).
Proof.
  intros ((Ha & Hc & He) & Hf & _ & Hp) Hl.
  destruct (fold_assign_keyed ArticleChunk.id c
              (chunks (vectorStore w), chunksProto w) Hc Hp) as [Hc' Hp'].
  unfold consistent, upserted, storeKeyed, chunksKeyed. simpl.
  split; [split; [|split]|].
  - apply (fold_insert_keyed ZendeskArticle.id), Ha.
  - exact Hc'.
  - apply (fold_assign_own_keyed Embedding.id), He.
  - split; [exact Hf|]. split; [congruence | exact Hp'].
Qed.

Lemma search_state q opts w :
  snd (search toISOString Date_parse q opts w)
  = if isLoaded w then w else snd (load toISOString w).
Proof using Type.
  unfold search. rewrite bind_ensureLoaded. unfold bind, getState.
  destruct (searchLoop _ _ _ _ _ _ _); reflexivity.
Qed.

Lemma reachable_inv w : reachable toISOString Date_parse w -> consistent w.
Proof using Type.
  induction 1 as [flt clk|flt clk|w flt clk _ IH|w flt clk _ IH|w _ IH|w _ IH
                 |w a c e m cs co _ IH|w q opts _ IH|w ids _ IH|w _ IH].
  - split; [apply emptyStore_storeKeyed|]. split; [exact I|].
    split; [intros _; repeat split | discriminate].
  - split; [apply emptyStore_storeKeyed|]. split; [exact I|].
    split; [intros _; repeat split | discriminate].
  - destruct IH as (_ & Hf & _).
    split; [apply emptyStore_storeKeyed|]. split; [exact Hf|].
    split; [intros _; repeat split | discriminate].
  - exact IH.
  - apply load_consistent, IH.
  - apply save_consistent, IH.
  - rewrite upsertData_run. apply save_consistent.
    destruct (ensured_consistent w IH) as [Hc Hl].
    apply upserted_consistent; assumption.
  - rewrite search_state. apply ensured_consistent, IH.
  - rewrite removeArticles_run. apply save_consistent.
    destruct (ensured_consistent w IH) as [(Hs1 & Hf1 & _ & Hp1) Hl1].
    unfold setStore, consistent. simpl.
    split; [apply removeArticles_storeKeyed, Hs1|]. split; [exact Hf1|].
    split; [congruence | exact Hp1].
  - destruct IH as (_ & Hf & _).
    unfold clear, bind at 1 2, createEmptyStore.
    unfold bind, now, ret, installStore. apply save_consistent.
    split; [apply emptyStore_storeKeyed|]. split; [exact Hf|].
    split; [intros _; repeat split | discriminate].
Qed.

(** In every state the service reaches, each article, chunk and embedding
    in memory is stored under its own [id], and so is a chunk that is the
    prototype of the chunk dictionary: [getArticle] returns only an article
    and [getChunk] only a chunk that carries the [id] asked for. What
    [getChunk] returns is no chunk only for the name of a property of
    [Object.prototype] or of a field of a chunk. The file, once written,
    holds a store with every entry under its own [id] and with
    [totalArticles] and [totalChunks] equal to the numbers of its articles
    and chunks; and a service that has not loaded holds nothing in
    memory. *)
Theorem reachable_consistent w :
  reachable toISOString Date_parse w ->
  (forall i a w', getArticle i w = (Ok (Some a), w') -> ZendeskArticle.id a = i) /\
  (forall k c w', getChunk k w = (Ok (Some (OfChunk c)), w') ->
                  ArticleChunk.id c = k) /\
  (forall k v w', getChunk k w = (Ok (Some v), w') ->
                  (forall c, v <> OfChunk c) ->
                  k ∈ prototypeNames \/ k ∈ fieldNames) /\
  (forall k e, embeddings (vectorStore w) !! k = Some e -> Embedding.id e = k) /\
  (forall s, file w = FileData s -> storeKeyed s /\ counted s) /\
  (isLoaded w = false ->
   articles (vectorStore w) = ∅ /\ chunks (vectorStore w) = ∅ /\
   embeddings (vectorStore w) = ∅).
Proof using Type.
  intros Hr. destruct (reachable_inv w Hr) as ((Ha & Hc & He) & Hf & Hu & Hp).
  assert (Hget : forall k v w', getChunk k w = (Ok (Some v), w') ->
            getProperty (chunks (vectorStore w), chunksProto w) k = v /\
            truthy v = true).
  { intros k v w'. unfold getChunk, bind, getState. simpl.
    destruct (isLoaded w); simpl; [|discriminate]. unfold ret.
    destruct (truthy (getProperty _ k)) eqn:Ht; intros H; inversion H; subst.
    split; [reflexivity | exact Ht]. }
  split; [|split; [|split; [|split; [|split]]]].
  - intros i a w'. unfold getArticle, bind, getState. simpl.
    destruct (isLoaded w); simpl; [|discriminate].
    unfold ret. intros H. inversion H as [[Hlk Hw]]. apply (Ha i a Hlk).
  - intros k c w' H. apply Hget in H as [H _].
    apply getProperty_OfChunk in H as [H|(_ & -> & H)].
    + apply (Hc k c H).
    + apply (Hp c H).
  - intros k v w' H Hv. apply Hget in H as [H Ht]. rewrite <- H in Ht.
    apply getProperty_truthy in Ht as [[c Hown]|Ht]; [|exact Ht].
    exfalso. apply (Hv c). rewrite <- H. unfold getProperty.
    rewrite Hown. reflexivity.
  - intros k e Hlk. apply (He k e Hlk).
  - intros s Hs. rewrite Hs in Hf. exact Hf.
  - exact Hu.
Qed.

End Invariant.

Lemma reachable_consistent_witness :
  reachable exampleISO exampleParse indexedService /\
  (forall k c w', getChunk k indexedService = (Ok (Some (OfChunk c)), w') ->
                  ArticleChunk.id c = k) /\
  (forall s, file indexedService = FileData s -> storeKeyed s /\ counted s).
Proof.
  assert (Hr : reachable exampleISO exampleParse indexedService).
  { unfold indexedService, loadedService, freshService.
    apply reach_upsertData, reach_load, reach_new. }
  split; [exact Hr|].
  destruct (reachable_consistent exampleISO exampleParse indexedService Hr)
    as (_ & Hc & _ & _ & Hf & _).
  split; [exact Hc | exact Hf].
Defined.

(** On the empty store [getChunk('constructor')] returns the function
    [Object.prototype.constructor], and [getChunk('__proto__')] returns
    [Object.prototype]. *)
Example getChunk_inherited :
  getChunk "constructor" loadedService
  = (Ok (Some (Builtin "constructor")), loadedService) /\
  getChunk "__proto__" loadedService = (Ok (Some ObjectPrototype), loadedService) /\
  getChunk "article_1_chunk_0" loadedService = (Ok None, loadedService).
Proof. repeat split; reflexivity. Qed.

(** ** What [search] selects *)

Lemma cosineSimilarity_Ok a b :
  length a = length b -> exists sim, cosineSimilarity a b = Ok sim.
Proof.
  intros H. unfold cosineSimilarity. rewrite H, Nat.eqb_refl. simpl.
  destruct (fold_left _ _ _) as [[d na] nb].
  destruct (_ =? _)%float; eexists; reflexivity.
Qed.

Lemma cosineSimilarity_mismatch a b :
  length a <> length b -> cosineSimilarity a b = Err LengthMismatch.
Proof.
  intros H. unfold cosineSimilarity.
  apply Nat.eqb_neq in H. rewrite H. reflexivity.
Qed.

Section Selecting.
Variable toISOString : Z -> string.
Variable Date_parse : string -> option Z.

Lemma searchLoop_filter clk s p q opts : forall embs results rs,
  searchLoop Date_parse clk s p q opts embs results = Ok rs ->
  map embedding rs
  = map embedding results ++ List.filter (qualifies s p q opts) embs.
Proof using Type.
  induction embs as [|e embs IH]; intros results rs Hrun; simpl in Hrun.
  - inversion Hrun. simpl. rewrite app_nil_r. reflexivity.
  - assert (Hq : qualifies s p q opts e
            = match cosineSimilarity q (Embedding.vector e) with
              | Ok sim =>
                  (minSimilarity opts <=? sim)%float
                  && truthy (getProperty (chunks s, p)
                                         (Embedding.articleChunkId e))
              | Err _ => false
              end) by reflexivity.
    cbn [List.filter]. rewrite Hq. clear Hq.
    destruct (cosineSimilarity q (Embedding.vector e)) as [sim|] eqn:Hsim;
      [|discriminate].
    rewrite (IH _ _ Hrun).
    destruct (minSimilarity opts <=? sim)%float; [|reflexivity].
    destruct (truthy (getProperty (chunks s, p) (Embedding.articleChunkId e)));
      simpl.
    + rewrite map_app, <- app_assoc. reflexivity.
    + reflexivity.
Qed.

Lemma searchLoop_Ok clk s p q opts : forall embs results,
  Forall (fun e => length (Embedding.vector e) = length q) embs ->
  exists rs, searchLoop Date_parse clk s p q opts embs results = Ok rs.
Proof using Type.
  induction embs as [|e embs IH]; intros results Hall; simpl; [eauto|].
  inversion Hall as [|? ? He Hrest]; subst.
  destruct (cosineSimilarity_Ok q (Embedding.vector e) (eq_sym He)) as [sim ->].
  apply IH, Hrest.
Qed.

Lemma searchLoop_mismatch clk s p q opts : forall embs results,
  Exists (fun e => length (Embedding.vector e) <> length q) embs ->
  searchLoop Date_parse clk s p q opts embs results = Err LengthMismatch.
Proof using Type.
  induction embs as [|e embs IH]; intros results Hex; [inversion Hex|].
  simpl. destruct (cosineSimilarity q (Embedding.vector e)) as [sim|err] eqn:Hsim.
  - apply IH. inversion Hex as [? ? He|]; subst; [|assumption].
    rewrite cosineSimilarity_mismatch in Hsim by congruence. discriminate.
  - apply cosineSimilarity_Err in Hsim. subst. reflexivity.
Qed.

(** [search] loads the store when it is not loaded and changes nothing
    else. It throws, with the length error, exactly when the store holds an
    embedding whose vector has another length than the query, whether or
    not that embedding has a chunk or would pass the threshold; otherwise
    it returns. *)
Theorem search_dimensions q opts w :
  let w1 := if isLoaded w then w else snd (load toISOString w) in
  snd (search toISOString Date_parse q opts w) = w1 /\
  (fst (search toISOString Date_parse q opts w) = Err LengthMismatch <->
   exists k e, embeddings (vectorStore w1) !! k = Some e /\
               length (Embedding.vector e) <> length q) /\
  ((exists rs, fst (search toISOString Date_parse q opts w) = Ok rs) <->
   forall k e, embeddings (vectorStore w1) !! k = Some e ->
               length (Embedding.vector e) = length q).
Proof using Type.
  intros w1. split; [apply search_state|].
  assert (Hfst : fst (search toISOString Date_parse q opts w)
          = match searchLoop Date_parse (clock w1) (vectorStore w1) (chunksProto w1) q opts
                    (values (embeddings (vectorStore w1))) [] with
            | Ok results => Ok (arraySlice0 (sortResults results) (maxResults opts))
            | Err err => Err err
            end).
  { unfold search. rewrite bind_ensureLoaded. fold w1. unfold bind, getState.
    destruct (searchLoop _ _ _ _ _ _); reflexivity. }
  rewrite Hfst.
  set (embs := values (embeddings (vectorStore w1))).
  destruct (Forall_Exists_dec
              (fun e => length (Embedding.vector e) = length q)
              (fun e => length (Embedding.vector e) <> length q)
              (fun e => Nat.eq_dec _ _) embs) as [Hall|Hex].
  - destruct (searchLoop_Ok (clock w1) (vectorStore w1) (chunksProto w1) q opts embs [] Hall)
      as [rs Hrs].
    rewrite Hrs. split; split.
    + discriminate.
    + intros (k & e & Hk & Hne). exfalso. apply Hne.
      rewrite List.Forall_forall in Hall. apply Hall.
      apply list_elem_of_In, elem_of_values. eauto.
    + intros _ k e Hk. rewrite List.Forall_forall in Hall. apply Hall.
      apply list_elem_of_In, elem_of_values. eauto.
    + eauto.
  - rewrite (searchLoop_mismatch (clock w1) (vectorStore w1) (chunksProto w1) q opts embs [] Hex).
    apply List.Exists_exists in Hex as (e & Hin & Hne).
    apply list_elem_of_In, elem_of_values in Hin as [k Hk].
    split; split.
    + intros _. eauto.
    + reflexivity.
    + intros [rs Hrs]. discriminate.
    + intros Hall. exfalso. apply Hne. eapply Hall. exact Hk.
Qed.

(** The results of [search] are taken from the scan's hits, one hit for
    each stored embedding that is at or above the threshold and for whose
    [articleChunkId] the read of the chunk dictionary gives a truthy value,
    in the order of the scan. For an [articleChunkId] that is no name of a
    property of [Object.prototype] or of a field of a chunk, that is: whose
    chunk the store holds. No hit is returned twice, the number of results
    is the smaller of [maxResults] and the number of hits (for a negative
    [maxResults], that many hits are dropped), and when [maxResults] is not
    below the number of hits every hit is returned. *)
Theorem search_selects q opts w rs w' :
  search toISOString Date_parse q opts w = (Ok rs, w') ->
  (forall e,
     (Embedding.articleChunkId e ∉ prototypeNames) ->
     (Embedding.articleChunkId e ∉ fieldNames) ->
     qualifies (vectorStore w') (chunksProto w') q opts e
     = match cosineSimilarity q (Embedding.vector e) with
       | Ok sim =>
           (minSimilarity opts <=? sim)%float
           && bool_decide (is_Some (chunks (vectorStore w')
                                      !! Embedding.articleChunkId e))
       | Err _ => false
       end) /\
  exists hits,
    searchLoop Date_parse (clock w') (vectorStore w') (chunksProto w') q opts
      (values (embeddings (vectorStore w'))) [] = Ok hits /\
    map embedding hits
    = List.filter (qualifies (vectorStore w') (chunksProto w') q opts)
        (values (embeddings (vectorStore w'))) /\
    rs ⊆+ hits /\
    Z.of_nat (length rs)
    = (if (maxResults opts <? 0)%Z
       then Z.max (Z.of_nat (length hits) + maxResults opts) 0
       else Z.min (maxResults opts) (Z.of_nat (length hits))) /\
    ((Z.of_nat (length hits) <= maxResults opts)%Z -> rs ≡ₚ hits).
Proof using Type.
  intros Hrun. split.
  { intros e Hp Hf. unfold qualifies.
    rewrite (getProperty_own _ _ Hp Hf). simpl.
    destruct (cosineSimilarity q (Embedding.vector e)); [|reflexivity].
    destruct (chunks (vectorStore w') !! Embedding.articleChunkId e) as [c|];
      reflexivity. }
  unfold search in Hrun. rewrite bind_ensureLoaded in Hrun.
  set (w1 := if isLoaded w then w else snd (load toISOString w)) in Hrun.
  unfold bind, getState, throw, ret in Hrun.
  destruct (searchLoop Date_parse (clock w1) (vectorStore w1) (chunksProto w1) q opts
              (values (embeddings (vectorStore w1))) []) as [hits|] eqn:Hscan;
    [|discriminate].
  inversion Hrun; subst. exists hits. split; [exact Hscan|].
  split; [apply (searchLoop_filter _ _ _ _ _ _ _ _ Hscan)|].
  pose proof (sortResults_Permutation hits) as Hperm.
  assert (Hlen : length (sortResults hits) = length hits)
    by (apply Permutation_length, Hperm).
  unfold arraySlice0. rewrite Hlen. split; [|split].
  - etrans; [apply sublist_submseteq, sublist_take|].
    apply Permutation_submseteq, Hperm.
  - rewrite length_take, Hlen.
    destruct (Z.ltb_spec (maxResults opts) 0); lia.
  - intros Hle. destruct (Z.ltb_spec (maxResults opts) 0); [lia|].
    rewrite take_ge by lia. exact Hperm.
Qed.

End Selecting.

Lemma search_selects_witness :
  exists rs w' hits,
    search exampleISO exampleParse [1; 0]%float boostedSearch indexedService
    = (Ok rs, w') /\
    map embedding hits
    = List.filter (qualifies (vectorStore w') (chunksProto w') [1; 0]%float
                     boostedSearch)
        (values (embeddings (vectorStore w'))) /\
    rs ⊆+ hits /\
    Z.of_nat (length rs)
    = (if (maxResults boostedSearch <? 0)%Z
       then Z.max (Z.of_nat (length hits) + maxResults boostedSearch) 0
       else Z.min (maxResults boostedSearch) (Z.of_nat (length hits))).
Proof.
  destruct (search exampleISO exampleParse [1; 0]%float boostedSearch
              indexedService) as [[rs|err] w'] eqn:Hrun.
  - destruct (search_selects exampleISO exampleParse _ _ _ _ _ Hrun)
      as (_ & hits & _ & Hf & Hs & Hn & _).
    exists rs, w', hits. repeat split; assumption.
  - exfalso. vm_compute in Hrun. discriminate.
Defined.

(** ** Removal and clearing, seen through the accessors *)

Section Forgetting.
Variable toISOString : Z -> string.

Lemma removeArticles_loaded ids w :
  isLoaded (snd (removeArticles toISOString ids w)) = true.
Proof.
  unfold removeArticles. rewrite bind_ensureLoaded.
  assert (Hl : isLoaded (if isLoaded w then w else snd (load toISOString w)) = true).
  { destruct (isLoaded w) eqn:E; [exact E | rewrite load_spec; reflexivity]. }
  unfold bind at 1 2. unfold getStore, setStore.
  rewrite save_spec. simpl. rewrite Hl. destruct (fault _); simpl;
    (reflexivity || exact Hl).
Qed.

(** After [removeArticles ids] on a loaded store, whether or not the save
    succeeded: for an id of the list, [getArticle] returns null, [hasArticle]
    false and [getArticleChunks] no chunk; for any other id [getArticle]
    returns what it returned before and [getArticleChunks] the same
    chunks. *)
Theorem removed_articles_gone ids w :
  isLoaded w = true -> chunksKeyed (vectorStore w) ->
  let w' := snd (removeArticles toISOString ids w) in
  (forall i, i ∈ ids ->
     getArticle i w' = (Ok None, w') /\
     hasArticle i w' = (Ok false, w') /\
     getArticleChunks i w' = (Ok [], w')) /\
  (forall i, i ∉ ids ->
     getArticle i w' = (Ok (articles (vectorStore w) !! i), w') /\
     exists l l',
       getArticleChunks i w = (Ok l, w) /\
       getArticleChunks i w' = (Ok l', w') /\
       forall c, In c l' <-> In c l).
Proof.
  intros Hl Hkey w'.
  destruct (removeArticles_lookup toISOString w ids Hl Hkey) as (Ha & Hc & _).
  fold w' in Ha, Hc.
  pose proof (removeArticles_loaded ids w) as Hl'. fold w' in Hl'.
  assert (Hget : forall i, getArticle i w' = (Ok (articles (vectorStore w') !! i), w')).
  { intros i. unfold getArticle, bind, getState. simpl. rewrite Hl'. reflexivity. }
  assert (Hchunks : forall v, getArticleChunks v w
            = (Ok (List.filter (fun c => (ArticleChunk.articleId c =? v)%Z)
                               (values (chunks (vectorStore w)))), w)).
  { intros v. unfold getArticleChunks, bind, getState. simpl. rewrite Hl.
    reflexivity. }
  assert (Hchunks' : forall v, getArticleChunks v w'
            = (Ok (List.filter (fun c => (ArticleChunk.articleId c =? v)%Z)
                               (values (chunks (vectorStore w')))), w')).
  { intros v. unfold getArticleChunks, bind, getState. simpl. rewrite Hl'.
    reflexivity. }
  split.
  - intros i Hi. split; [|split].
    + rewrite Hget, Ha, bool_decide_eq_true_2 by exact Hi. reflexivity.
    + unfold hasArticle, bind, getState. simpl. rewrite Hl'. simpl.
      rewrite Ha, (bool_decide_eq_true_2 (i ∈ ids) Hi).
      rewrite bool_decide_eq_false_2 by (intros [? ?]; discriminate).
      reflexivity.
    + rewrite Hchunks'. rewrite filter_none; [reflexivity|].
      intros c Hin. apply list_elem_of_In, elem_of_values in Hin as [k Hk].
      rewrite Hc in Hk. destruct (chunks (vectorStore w) !! k) as [c0|];
        [|discriminate].
      case_bool_decide as Hmem; [discriminate|]. inversion Hk; subst c0.
      apply Z.eqb_neq. intros Heq. apply Hmem. rewrite Heq. exact Hi.
  - intros i Hi. split.
    + rewrite Hget, Ha, bool_decide_eq_false_2 by exact Hi. reflexivity.
    + eexists. eexists. split; [apply Hchunks|]. split; [apply Hchunks'|].
      intros c. rewrite !List.filter_In, <- !list_elem_of_In, !elem_of_values.
      split; intros [[k Hk] Hid]; (split; [exists k|exact Hid]).
      * rewrite Hc in Hk. destruct (chunks (vectorStore w) !! k) as [c0|];
          [|discriminate].
        case_bool_decide; [discriminate | exact Hk].
      * rewrite Hc, Hk. apply Z.eqb_eq in Hid.
        rewrite bool_decide_eq_false_2 by (rewrite Hid; exact Hi). reflexivity.
Qed.

(** [clear()] does not load: on a service that has not loaded it throws the
    not-loaded error and leaves the file as it was. On a loaded service
    whose file system works it leaves an empty store in memory and in the
    file: all counts of [getStats] are zero, the model is the empty string
    and [lastUpdated] is the time of the call; [hasArticle] is false for
    every id, and [getChunk] returns null for every id but the names of the
    properties of [Object.prototype], for which it returns that property:
    a function, or [Object.prototype] itself for [__proto__]. *)
Theorem clear_outcome w :
  (isLoaded w = false ->
   fst (clear toISOString w) = Err NotLoaded /\
   file (snd (clear toISOString w)) = file w /\
   isLoaded (snd (clear toISOString w)) = false) /\
  (isLoaded w = true -> fault w = NoFault ->
   exists w',
     clear toISOString w = (Ok tt, w') /\
     file w' = FileData (vectorStore w') /\
     getStats w'
     = (Ok {| Stats.totalArticles := 0; Stats.totalChunks := 0;
              Stats.totalEmbeddings := 0; Stats.embeddingModel := EmptyString;
              Stats.lastUpdated := toISOString (clock w) |}, w') /\
     (forall i, hasArticle i w' = (Ok false, w')) /\
     (forall k, k ∉ prototypeNames -> getChunk k w' = (Ok None, w')) /\
     (forall k, k ∈ prototypeNames ->
        getChunk k w'
        = (Ok (Some (if bool_decide (k = "__proto__") then ObjectPrototype
                     else Builtin k)), w'))).
Proof.
  assert (Hrun : clear toISOString w
          = save toISOString
              {| vectorStore := emptyStore (toISOString (clock w));
                 chunksProto := None; embeddingsProto := None;
                 isLoaded := isLoaded w; file := file w; fault := fault w;
                 clock := clock w |}) by reflexivity.
  rewrite Hrun, save_spec. simpl. split.
  - intros Hl. rewrite Hl. simpl. repeat split; assumption.
  - intros Hl Hf. rewrite Hl, Hf. eexists. split; [reflexivity|].
    split; [reflexivity|]. split; [reflexivity|].
    split; [intros; reflexivity|].
    assert (Hget : forall k st,
              getChunk k
                (stampedState toISOString
                   {| vectorStore := emptyStore (toISOString (clock w));
                      chunksProto := None; embeddingsProto := None;
                      isLoaded := true; file := file w; fault := NoFault;
                      clock := clock w |} st)
              = (Ok (if truthy (inherited None k) then Some (inherited None k)
                     else None),
                 stampedState toISOString
                   {| vectorStore := emptyStore (toISOString (clock w));
                      chunksProto := None; embeddingsProto := None;
                      isLoaded := true; file := file w; fault := NoFault;
                      clock := clock w |} st)) by reflexivity.
    split; intros k Hk; rewrite Hget; unfold inherited.
    + case_bool_decide as Hp; [exfalso; apply Hk; rewrite Hp; listed|].
      rewrite (bool_decide_eq_false_2 _ Hk). reflexivity.
    + case_bool_decide as Hp; [reflexivity|].
      rewrite (bool_decide_eq_true_2 _ Hk). reflexivity.
Qed.

End Forgetting.

Lemma removed_articles_gone_witness :
  isLoaded indexedService = true /\
  chunksKeyed (vectorStore indexedService) /\
  getArticleChunks 1 (snd (removeArticles exampleISO [1%Z] indexedService))
  = (Ok [], snd (removeArticles exampleISO [1%Z] indexedService)).
Proof.
  split; [reflexivity|]. split; [exact indexedService_keyed|].
  destruct (removed_articles_gone exampleISO [1%Z] indexedService eq_refl
              indexedService_keyed) as [H _].
  apply (H 1%Z). left.
Defined.

End StoreFacts.

(* ===================================================================== *)
(** * Facts about the embedding service *)
(* ===================================================================== *)

Module EmbeddingsFacts.
Import Chunker Store Embeddings.
Local Open Scope Z_scope.

Lemma splitText_total t o : exists r, splitText t o = Some r.
Proof.
  unfold splitText. destruct (size o <=? 0); [eauto|].
  destruct ((overlap o <? 0) || (overlap o >=? size o)); [eauto|].
  destruct (ChunkerFacts.runLoop_total t o) as [st ->].
  destruct (iterations st >=? maxIterations t o); eauto.
Qed.

Lemma splitText_valid_Err t o e :
  validOptions o -> splitText t o = Some (Err e) ->
  e = MaxIterationsExceeded (maxIterations t o).
Proof.
  intros Hv H. destruct (ChunkerFacts.runLoop_total t o) as [st Hrun].
  rewrite (ChunkerFacts.splitText_unfold t o st Hv Hrun) in H.
  destruct (iterations st >=? maxIterations t o); congruence.
Qed.

Lemma chunkId_inj a i j : chunkId a i = chunkId a j -> i = j.
Proof.
  unfold chunkId. intros H.
  apply String.app_inj, String.app_inj, String.app_inj in H.
  apply pretty_Z_inj in H. exact H.
Qed.

(** The decimal form of a number holds no [_], so the two numbers of a
    chunk id can be read back from it. *)
Lemma append_cons a s t : String a s +:+ t = String a (s +:+ t).
Proof. reflexivity. Qed.

Lemma append_length s t :
  String.length (s +:+ t) = (String.length s + String.length t)%nat.
Proof.
  induction s as [|a s IH]; [reflexivity|].
  rewrite append_cons. simpl. rewrite IH. reflexivity.
Qed.

Lemma append_inj_r t : forall s1 s2, s1 +:+ t = s2 +:+ t -> s1 = s2.
Proof.
  induction s1 as [|a s1 IH]; intros [|b s2] H.
  - reflexivity.
  - apply (f_equal String.length) in H. rewrite !append_length in H.
    simpl in H. lia.
  - apply (f_equal String.length) in H. rewrite !append_length in H.
    simpl in H. lia.
  - rewrite !append_cons in H. inversion H; subst. f_equal. apply IH. assumption.
Qed.

Lemma pretty_N_char_plain x : pretty_N_char x <> "_"%char.
Proof. unfold pretty_N_char. repeat case_match; discriminate. Qed.

Lemma pretty_N_go_plain x : forall s, plain s -> plain (pretty_N_go x s).
Proof.
  induction (N.lt_wf_0 x) as [x _ IH]; intros s Hs.
  destruct (N.eq_dec x 0%N) as [->|Hx]; [rewrite pretty_N_go_0; exact Hs|].
  rewrite pretty_N_go_step by lia. apply IH.
  - apply N.div_lt; lia.
  - split; [apply pretty_N_char_plain | exact Hs].
Qed.

Lemma pretty_Z_plain (x : Z) : plain (pretty x).
Proof.
  assert (HN : forall n : N, plain (pretty n)).
  { intros n. unfold pretty, pretty_N. case_decide.
    - split; [discriminate | exact I].
    - apply pretty_N_go_plain. exact I. }
  destruct x as [|p|p]; unfold pretty, pretty_Z.
  - split; [discriminate | exact I].
  - apply HN.
  - rewrite append_cons. split; [discriminate | apply HN].
Qed.

Lemma plain_prefix_unique : forall s1 s2 r1 r2,
  plain s1 -> plain s2 ->
  s1 +:+ String "_" r1 = s2 +:+ String "_" r2 -> s1 = s2 /\ r1 = r2.
Proof.
  induction s1 as [|a s1 IH]; intros [|b s2] r1 r2 H1 H2 H.
  - inversion H. split; reflexivity.
  - rewrite append_cons in H. inversion H; subst b. destruct H2 as [Hb _].
    contradiction.
  - rewrite append_cons in H. inversion H; subst a. destruct H1 as [Ha _].
    contradiction.
  - rewrite !append_cons in H. inversion H; subst b.
    destruct H1 as [_ H1]. destruct H2 as [_ H2].
    destruct (IH s2 r1 r2 H1 H2) as [-> ->]; [assumption|]. split; reflexivity.
Qed.

Lemma chunkId_injective a i b j : chunkId a i = chunkId b j -> a = b /\ i = j.
Proof.
  unfold chunkId. intros H. apply String.app_inj in H.
  change "_chunk_" with (String "_" "chunk_") in H.
  rewrite !append_cons in H.
  apply plain_prefix_unique in H as [Ha Hi]; try apply pretty_Z_plain.
  apply pretty_Z_inj in Ha.
  change ("chunk_" +:+ pretty i = "chunk_" +:+ pretty j) in Hi.
  apply String.app_inj, pretty_Z_inj in Hi. split; assumption.
Qed.

Lemma jsLength_nil_iff (t : text) : jsLength t = 0 <-> t = [].
Proof.
  unfold jsLength. destruct t; simpl; split; intros H; (reflexivity || lia || discriminate).
Qed.

(** ** The rate limiter *)

Lemma minTimestamp_bound (stamps : list Z) lo oldest :
  Forall (fun x => lo < x) stamps -> minTimestamp stamps = Some oldest ->
  lo < oldest.
Proof.
  destruct stamps as [|x rest]; [discriminate|]. simpl.
  intros Hall H. inversion H; subst oldest; clear H.
  inversion Hall as [|? ? Hx Hrest]; subst. clear Hall.
  revert x Hx. induction Hrest as [|y rest Hy _ IH]; intros x Hx; simpl; [exact Hx|].
  apply IH. lia.
Qed.

Lemma waitTime_bounds cap now (stamps : list Z) :
  0 < cap -> Forall (fun x => now - 60 * 1000 < x) stamps ->
  0 < waitTime cap now stamps <= cap.
Proof.
  intros Hcap Hall. unfold waitTime.
  destruct (minTimestamp stamps) as [oldest|] eqn:Hmin; [|lia].
  pose proof (minTimestamp_bound stamps _ oldest Hall Hmin). lia.
Qed.

Lemma recentRequests_recent now st :
  Forall (fun r => now - 60 * 1000 < RequestStamp.timestamp r)
         (recentRequests now st).
Proof.
  apply Forall_forall. intros r Hr. apply list_elem_of_In in Hr.
  apply List.filter_In in Hr as [_ Hr]. apply Z.ltb_lt in Hr. exact Hr.
Qed.

Lemma recentTokens_recent now st :
  Forall (fun t => now - 60 * 1000 < TokenStamp.timestamp t)
         (recentTokens now st).
Proof.
  apply Forall_forall. intros r Hr. apply list_elem_of_In in Hr.
  apply List.filter_In in Hr as [_ Hr]. apply Z.ltb_lt in Hr. exact Hr.
Qed.

(** A call of [enforceRateLimit] sleeps at most twice, each time for a
    positive time, at most 10 seconds for the requests and 15 for the
    tokens, and sleeps at all only when the requests of the last minute
    and the [n] to come pass 100, or the tokens of the last minute and
    [100 * n] pass 50000. It then goes on whatever the counts are: it drops
    the stamps of a minute ago or older, keeps the others and adds one
    stamp for the call, not [n]. *)
Theorem enforceRateLimit_waits now n st :
  let reqs := recentRequests now st in
  let toks := recentTokens now st in
  let delays := fst (enforceRateLimit now n st) in
  let st' := snd (enforceRateLimit now n st) in
  (exists requestWait tokenWait,
     delays = requestWait ++ tokenWait /\
     (length requestWait <= 1)%nat /\ (length tokenWait <= 1)%nat /\
     Forall (fun d => 0 < d <= 10 * 1000) requestWait /\
     Forall (fun d => 0 < d <= 15 * 1000) tokenWait /\
     (requestWait = [] <-> Z.of_nat (length reqs) + n <= 100) /\
     (tokenWait = [] <-> tokenSum toks + n * 100 <= 50000)) /\
  (length delays <= 2)%nat /\
  Forall (fun d => 0 < d <= 15 * 1000) delays /\
  fold_right Z.add 0 delays <= 25 * 1000 /\
  (delays = [] <->
   Z.of_nat (length reqs) + n <= 100 /\ tokenSum toks + n * 100 <= 50000) /\
  requests st' = reqs ++ [{| RequestStamp.timestamp := now;
                             RequestStamp.endpoint := "embeddings" |}] /\
  tokens st' = toks /\
  Forall (fun r => now - 60 * 1000 < RequestStamp.timestamp r) (requests st') /\
  Forall (fun t => now - 60 * 1000 < TokenStamp.timestamp t) (tokens st').
Proof.
  intros reqs toks delays st'. unfold delays, st', enforceRateLimit.
  fold reqs. fold toks. cbn [fst snd requests tokens].
  pose proof (waitTime_bounds (10 * 1000) now (map RequestStamp.timestamp reqs)
                ltac:(lia)) as Hw1.
  pose proof (waitTime_bounds (15 * 1000) now (map TokenStamp.timestamp toks)
                ltac:(lia)) as Hw2.
  assert (H1 : Forall (fun x => now - 60 * 1000 < x)
                 (map RequestStamp.timestamp reqs)).
  { apply Forall_fmap. exact (recentRequests_recent now st). }
  assert (H2 : Forall (fun x => now - 60 * 1000 < x)
                 (map TokenStamp.timestamp toks)).
  { apply Forall_fmap. exact (recentTokens_recent now st). }
  specialize (Hw1 H1). specialize (Hw2 H2).
  split; [|split;
    [|split; [|split; [|split; [|split; [reflexivity|split; [reflexivity|split]]]]]]].
  - eexists. eexists. split; [reflexivity|].
    destruct (Z.gtb_spec (Z.of_nat (length reqs) + n) 100);
      destruct (Z.gtb_spec (tokenSum toks + n * 100) 50000); simpl;
      (split; [lia|]); (split; [lia|]);
      (split; [repeat constructor; lia|]); (split; [repeat constructor; lia|]);
      split; split; intros Heq; try discriminate; try reflexivity; lia.
  - destruct (_ >? 100); destruct (_ >? 50000); simpl; lia.
  - destruct (_ >? 100); destruct (_ >? 50000); simpl;
      repeat constructor; lia.
  - destruct (_ >? 100); destruct (_ >? 50000); simpl; lia.
  - destruct (Z.gtb_spec (Z.of_nat (length reqs) + n) 100);
      destruct (Z.gtb_spec (tokenSum toks + n * 100) 50000); simpl;
      split; intros Heq; try discriminate; try reflexivity; lia.
  - apply Forall_app. split; [exact (recentRequests_recent now st)|].
    repeat constructor. simpl. lia.
  - exact (recentTokens_recent now st).
Qed.

(** The limit is advisory: after a minute with 110 requests the call
    sleeps five seconds and goes on, with 111 stamps in the window. *)
Example enforceRateLimit_busy :
  fst (enforceRateLimit 60000 5 busyMinute) = [5000] /\
  length (requests (snd (enforceRateLimit 60000 5 busyMinute))) = 111%nat.
Proof. vm_compute. split; reflexivity. Qed.

(** ** Calls of the embedding server *)

Section CallsFacts.
Variable embeddingModel : string.
Variable timeoutMs : Z.
Variable fetch : nat -> Request -> Fetched.
Variable Date_now : nat -> Z.
Variable toISOString : Z -> string.
Variable stackTrace : string.
Variable typeError : Retry.Thrown.

Lemma advances_refl s : advances embeddingModel 0 s s.
Proof.
  exists []. rewrite app_nil_r. simpl. repeat split; try lia. constructor.
Qed.

Lemma advances_trans a b s s1 s2 :
  advances embeddingModel a s s1 -> advances embeddingModel b s1 s2 ->
  advances embeddingModel (a + b) s s2.
Proof.
  intros (p1 & Hs1 & Hc1 & Hl1 & Hw1) (p2 & Hs2 & Hc2 & Hl2 & Hw2).
  exists (p1 ++ p2). rewrite length_app.
  split; [rewrite Hs2, Hs1, app_assoc; reflexivity|].
  split; [lia|]. split; [lia|]. apply Forall_app. split; assumption.
Qed.

Lemma advances_le a b s s' :
  (a <= b)%nat -> advances embeddingModel a s s' -> advances embeddingModel b s s'.
Proof.
  intros Hab (p & Hs & Hc & Hl & Hw). exists p. repeat split; try assumption. lia.
Qed.

(** A step that posts nothing. *)
Lemma advances_quiet s s' :
  sent s' = sent s -> apiCalls s' = apiCalls s -> advances embeddingModel 0 s s'.
Proof.
  intros Hs Hc. exists []. rewrite app_nil_r. simpl.
  repeat split; try lia; try assumption. constructor.
Qed.

Lemma readClock_spec s :
  exists s', readClock Date_now s = (Ok (Date_now (clockReads s)), s') /\
             sent s' = sent s /\ apiCalls s' = apiCalls s.
Proof. eexists. split; [reflexivity|]. split; reflexivity. Qed.

Lemma enforce_spec n s :
  exists s', enforce Date_now n s = (Ok tt, s') /\
             sent s' = sent s /\ apiCalls s' = apiCalls s.
Proof.
  unfold enforce, andThen, readClock.
  destruct (enforceRateLimit _ n _) as [waits st] eqn:E.
  eexists. split; [reflexivity|]. split; reflexivity.
Qed.

Lemma enforce_eq n s :
  enforce Date_now n s
  = (Ok tt,
     {| limiter := snd (enforceRateLimit (Date_now (clockReads s)) n (limiter s));
        apiCalls := apiCalls s; clockReads := S (clockReads s);
        sleeps := sleeps s
                  ++ fst (enforceRateLimit (Date_now (clockReads s)) n (limiter s));
        sent := sent s |}).
Proof.
  unfold enforce, andThen, readClock. cbn [clockReads limiter].
  destruct (enforceRateLimit _ n _) as [waits st]. reflexivity.
Qed.

Lemma recordTokens_spec u s :
  exists s', recordTokens Date_now u s = (Ok tt, s') /\
             sent s' = sent s /\ apiCalls s' = apiCalls s.
Proof.
  destruct u as [n|]; simpl; eexists; (split; [reflexivity|]); split; reflexivity.
Qed.

(** A retried request is posted one to four times. *)
Lemma retried_spec request s :
  wellFormed embeddingModel request ->
  exists res s',
    retried timeoutMs fetch stackTrace request s = (res, s') /\
    advances embeddingModel 4 s s'.
Proof.
  intros Hw. unfold retried.
  destruct (RetryFacts.retryRequest_service_budget
              (fun k => callTngEmbeddingApi timeoutMs stackTrace
                          (fetch (apiCalls s + Z.to_nat k) request)))
    as (r & Hr & Hc & _).
  rewrite Hr. eexists. eexists. split; [reflexivity|].
  exists (replicate (Z.to_nat (Retry.calls r)) request). cbn [sent apiCalls].
  rewrite length_replicate. repeat split; try lia.
  apply Forall_replicate. exact Hw.
Qed.

Lemma andThen_Ok {A B} (m : E A) (k : A -> E B) s a s' :
  m s = (Ok a, s') -> andThen m k s = k a s'.
Proof. intros H. unfold andThen. rewrite H. reflexivity. Qed.

Lemma andThen_Err {A B} (m : E A) (k : A -> E B) s error s' :
  m s = (Err error, s') -> andThen m k s = (Err error, s').
Proof. intros H. unfold andThen. rewrite H. reflexivity. Qed.

Lemma zipEmbeddings_spec items : forall chunks s,
  exists res s',
    zipEmbeddings embeddingModel Date_now toISOString typeError items chunks s
    = (res, s') /\
    sent s' = sent s /\ apiCalls s' = apiCalls s /\
    forall es, res = Ok es ->
      embeds embeddingModel toISOString es (take (length es) chunks).
Proof.
  induction items as [|v items IH]; intros chunks s; simpl.
  - eexists. eexists. split; [reflexivity|]. split; [reflexivity|].
    split; [reflexivity|]. intros es H. inversion H. constructor.
  - destruct chunks as [|chunk chunks].
    + eexists. eexists. split; [reflexivity|]. split; [reflexivity|].
      split; [reflexivity|]. discriminate.
    + destruct (readClock_spec s) as (s1 & H1 & Hs1 & Hc1).
      rewrite (andThen_Ok _ _ _ _ _ H1).
      destruct (IH chunks s1) as (res & s2 & H2 & Hs2 & Hc2 & Hes).
      destruct res as [rest|error].
      * rewrite (andThen_Ok _ _ _ _ _ H2). eexists. eexists.
        split; [reflexivity|]. split; [congruence|]. split; [congruence|].
        intros es H. inversion H; subst es. simpl.
        constructor; [eauto | apply Hes; reflexivity].
      * rewrite (andThen_Err _ _ _ _ _ H2). eexists. eexists.
        split; [reflexivity|]. split; [congruence|]. split; [congruence|].
        discriminate.
Qed.

Lemma createEmbeddingBatch_spec chunks s :
  (0 < length chunks <= batchSize)%nat ->
  exists res s',
    createEmbeddingBatch embeddingModel timeoutMs fetch Date_now toISOString
      stackTrace typeError chunks s = (res, s') /\
    advances embeddingModel 4 s s' /\
    forall es, res = Ok es ->
      exists cs, cs `sublist_of` chunks /\ embeds embeddingModel toISOString es cs.
Proof.
  intros Hlen. unfold createEmbeddingBatch.
  destruct (enforce_spec (Z.of_nat (length chunks)) s) as (s1 & H1 & Hs1 & Hc1).
  rewrite (andThen_Ok _ _ _ _ _ H1).
  destruct (retried_spec {| model := embeddingModel;
                            input := Batch (map embeddingText chunks) |} s1)
    as (res & s2 & H2 & Hadv).
  { split; [reflexivity|]. simpl. rewrite length_map. exact Hlen. }
  assert (Hadv' : advances embeddingModel 4 s s2).
  { apply (advances_trans 0 4 s s1 s2); [apply advances_quiet; assumption|exact Hadv]. }
  destruct res as [[|u d]|error].
  - rewrite (andThen_Ok _ _ _ _ _ H2). eexists. eexists.
    split; [reflexivity|]. split; [exact Hadv' | discriminate].
  - rewrite (andThen_Ok _ _ _ _ _ H2).
    destruct (recordTokens_spec u s2) as (s3 & H3 & Hs3 & Hc3).
    rewrite (andThen_Ok _ _ _ _ _ H3).
    assert (Hadv3 : advances embeddingModel 4 s s3).
    { apply (advances_le (4 + 0)); [lia|].
      apply (advances_trans 4 0 s s2 s3);
        [exact Hadv' | apply advances_quiet; assumption]. }
    destruct d as [items|].
    + destruct (zipEmbeddings_spec items chunks s3) as (res & s4 & H4 & Hs4 & Hc4 & Hes).
      eexists. eexists. split; [exact H4|]. split.
      * apply (advances_le (4 + 0)); [lia|].
        apply (advances_trans 4 0 s s3 s4);
          [exact Hadv3 | apply advances_quiet; assumption].
      * intros es Heq. exists (take (length es) chunks).
        split; [apply sublist_take | apply Hes, Heq].
    + eexists. eexists. split; [reflexivity|]. split; [exact Hadv3 | discriminate].
  - rewrite (andThen_Err _ _ _ _ _ H2). eexists. eexists.
    split; [reflexivity|]. split; [exact Hadv' | discriminate].
Qed.

Lemma createEmbeddingForChunk_spec chunk s :
  exists res s',
    createEmbeddingForChunk embeddingModel timeoutMs fetch Date_now toISOString
      stackTrace typeError chunk s = (res, s') /\
    advances embeddingModel 4 s s' /\
    forall e, res = Ok e ->
      exists v now, e = embeddingOf embeddingModel toISOString chunk v now.
Proof.
  unfold createEmbeddingForChunk.
  destruct (enforce_spec 1 s) as (s1 & H1 & Hs1 & Hc1).
  rewrite (andThen_Ok _ _ _ _ _ H1).
  destruct (retried_spec {| model := embeddingModel;
                            input := Single (embeddingText chunk) |} s1)
    as (res & s2 & H2 & Hadv).
  { split; [reflexivity | exact I]. }
  assert (Hadv' : advances embeddingModel 4 s s2).
  { apply (advances_trans 0 4 s s1 s2); [apply advances_quiet; assumption|exact Hadv]. }
  destruct res as [[|u d]|error].
  - rewrite (andThen_Ok _ _ _ _ _ H2). eexists. eexists.
    split; [reflexivity|]. split; [exact Hadv' | discriminate].
  - rewrite (andThen_Ok _ _ _ _ _ H2).
    destruct (recordTokens_spec u s2) as (s3 & H3 & Hs3 & Hc3).
    rewrite (andThen_Ok _ _ _ _ _ H3).
    assert (Hadv3 : advances embeddingModel 4 s s3).
    { apply (advances_le (4 + 0)); [lia|].
      apply (advances_trans 4 0 s s2 s3);
        [exact Hadv' | apply advances_quiet; assumption]. }
    destruct d as [[|v items]|].
    + eexists. eexists. split; [reflexivity|]. split; [exact Hadv3 | discriminate].
    + destruct (readClock_spec s3) as (s4 & H4 & Hs4 & Hc4).
      rewrite (andThen_Ok _ _ _ _ _ H4). eexists. eexists.
      split; [reflexivity|]. split.
      * apply (advances_le (4 + 0)); [lia|].
        apply (advances_trans 4 0 s s3 s4);
          [exact Hadv3 | apply advances_quiet; assumption].
      * intros e Heq. inversion Heq. eauto.
    + eexists. eexists. split; [reflexivity|]. split; [exact Hadv3 | discriminate].
  - rewrite (andThen_Err _ _ _ _ _ H2). eexists. eexists.
    split; [reflexivity|]. split; [exact Hadv' | discriminate].
Qed.

Lemma embeds_app es1 es2 cs1 cs2 :
  embeds embeddingModel toISOString es1 cs1 ->
  embeds embeddingModel toISOString es2 cs2 ->
  embeds embeddingModel toISOString (es1 ++ es2) (cs1 ++ cs2).
Proof. apply Forall2_app. Qed.

Lemma individually_spec batch : forall acc s,
  exists new s',
    individually embeddingModel timeoutMs fetch Date_now toISOString stackTrace
      typeError batch acc s = (acc ++ new, s') /\
    advances embeddingModel (4 * length batch) s s' /\
    exists cs, cs `sublist_of` batch /\ embeds embeddingModel toISOString new cs.
Proof.
  induction batch as [|chunk rest IH]; intros acc s; simpl.
  - exists [], s. rewrite app_nil_r. split; [reflexivity|].
    split; [apply advances_refl|]. exists []. split; constructor.
  - destruct (createEmbeddingForChunk_spec chunk s) as (res & s1 & H1 & Hadv & He).
    rewrite H1. destruct res as [e|error].
    + destruct (IH (acc ++ [e]) s1) as (new & s2 & H2 & Hadv2 & cs & Hsub & Hemb).
      exists (e :: new), s2. rewrite H2, <- app_assoc.
      split; [reflexivity|]. split.
      * apply (advances_le (4 + 4 * length rest)); [lia|].
        apply (advances_trans _ _ s s1 s2); assumption.
      * exists (chunk :: cs). split; [apply sublist_skip, Hsub|].
        constructor; [apply He; reflexivity | exact Hemb].
    + destruct (IH acc s1) as (new & s2 & H2 & Hadv2 & cs & Hsub & Hemb).
      exists new, s2. split; [exact H2|]. split.
      * apply (advances_le (4 + 4 * length rest)); [lia|].
        apply (advances_trans _ _ s s1 s2); assumption.
      * exists cs. split; [apply sublist_cons, Hsub | exact Hemb].
Qed.

Lemma batchLoop_S fuel rest acc s :
  rest <> [] ->
  batchLoop embeddingModel timeoutMs fetch Date_now toISOString stackTrace
    typeError (S fuel) rest acc s
  = match createEmbeddingBatch embeddingModel timeoutMs fetch Date_now
            toISOString stackTrace typeError (take batchSize rest) s with
    | (Ok batchEmbeddings, s1) =>
        batchLoop embeddingModel timeoutMs fetch Date_now toISOString stackTrace
          typeError fuel (drop batchSize rest) (acc ++ batchEmbeddings)
          match drop batchSize rest with
          | [] => s1
          | _ :: _ => snd (delay 500 s1)
          end
    | (Err _, s1) =>
        batchLoop embeddingModel timeoutMs fetch Date_now toISOString stackTrace
          typeError fuel (drop batchSize rest)
          (fst (individually embeddingModel timeoutMs fetch Date_now toISOString
                  stackTrace typeError (take batchSize rest) acc s1))
          (snd (individually embeddingModel timeoutMs fetch Date_now toISOString
                  stackTrace typeError (take batchSize rest) acc s1))
    end.
Proof.
  intros Hne. destruct rest as [|c rest]; [contradiction|].
  cbn [batchLoop].
  destruct (createEmbeddingBatch _ _ _ _ _ _ _ _ s) as [[es|error] s1];
    [reflexivity|].
  destruct (individually _ _ _ _ _ _ _ _ acc s1). reflexivity.
Qed.

Lemma batchLoop_spec : forall fuel rest acc s,
  (length rest <= fuel)%nat ->
  exists new s',
    batchLoop embeddingModel timeoutMs fetch Date_now toISOString stackTrace
      typeError fuel rest acc s = Some (acc ++ new, s') /\
    advances embeddingModel (4 * (length rest + (length rest + 4) / 5)) s s' /\
    exists cs, cs `sublist_of` rest /\ embeds embeddingModel toISOString new cs.
Proof.
  induction fuel as [|fuel IH]; intros rest acc s Hfuel.
  { destruct rest; [|simpl in Hfuel; lia]. exists [], s. rewrite app_nil_r.
    split; [reflexivity|]. split; [apply advances_refl|].
    exists []. split; constructor. }
  destruct rest as [|c rest'] eqn:Hrest.
  { exists [], s. rewrite app_nil_r. split; [reflexivity|].
    split; [apply advances_refl|]. exists []. split; constructor. }
  rewrite <- Hrest in *.
  assert (Hpos : (0 < length rest)%nat) by (rewrite Hrest; simpl; lia).
  rewrite batchLoop_S by (rewrite Hrest; discriminate).
  set (batch := take batchSize rest). set (next := drop batchSize rest).
  assert (Hb : length batch = Nat.min batchSize (length rest))
    by (unfold batch; apply length_take).
  assert (Hn : length next = (length rest - batchSize)%nat)
    by (unfold next; apply length_drop).
  assert (Hsplit : rest = batch ++ next) by (symmetry; apply take_drop).
  unfold batchSize in Hb, Hn.
  destruct (createEmbeddingBatch_spec batch s) as (res & s1 & H1 & Hadv1 & He);
    [unfold batchSize; lia|].
  rewrite H1. destruct res as [es|error].
  - destruct (He es eq_refl) as (cs1 & Hsub1 & Hemb1).
    set (s2 := match next with [] => s1 | _ :: _ => snd (delay 500 s1) end).
    assert (Hadv2 : advances embeddingModel 4 s s2).
    { apply (advances_le (4 + 0)); [lia|].
      apply (advances_trans 4 0 s s1 s2); [exact Hadv1|].
      unfold s2. destruct next; [apply advances_refl|].
      apply advances_quiet; reflexivity. }
    destruct (IH next (acc ++ es) s2) as (new & s3 & H3 & Hadv3 & cs2 & Hsub2 & Hemb2);
      [lia|].
    exists (es ++ new), s3. rewrite app_assoc. split; [exact H3|]. split.
    + apply (advances_le (4 + 4 * (length next + (length next + 4) / 5))).
      * rewrite Hn.
        destruct (Nat.le_gt_cases 5 (length rest)) as [Hge|Hlt].
        -- replace (length rest + 4)%nat with ((length rest - 5 + 4) + 1 * 5)%nat by lia.
           rewrite Nat.div_add by lia. lia.
        -- replace (length rest - 5)%nat with 0%nat by lia.
           assert ((length rest + 4) / 5 = 1)%nat.
           { replace (length rest + 4)%nat with ((length rest - 1) + 1 * 5)%nat by lia.
             rewrite Nat.div_add by lia. rewrite Nat.div_small by lia. reflexivity. }
           rewrite H. replace ((0 + 4) / 5)%nat with 0%nat by reflexivity. lia.
      * apply (advances_trans _ _ s s2 s3); assumption.
    + exists (cs1 ++ cs2). split; [|apply embeds_app; assumption].
      rewrite Hsplit. apply sublist_app; assumption.
  - destruct (individually_spec batch acc s1) as (new1 & s2 & H2 & Hadv2 & cs1 & Hsub1 & Hemb1).
    rewrite H2. cbn [fst snd].
    destruct (IH next (acc ++ new1) s2) as (new & s3 & H3 & Hadv3 & cs2 & Hsub2 & Hemb2);
      [lia|].
    exists (new1 ++ new), s3. rewrite app_assoc. split; [exact H3|]. split.
    + apply (advances_le (4 + 4 * length batch
                          + 4 * (length next + (length next + 4) / 5))).
      * rewrite Hn, Hb.
        destruct (Nat.le_gt_cases 5 (length rest)) as [Hge|Hlt].
        -- replace (length rest + 4)%nat with ((length rest - 5 + 4) + 1 * 5)%nat by lia.
           rewrite Nat.div_add by lia. lia.
        -- replace (length rest - 5)%nat with 0%nat by lia.
           assert ((length rest + 4) / 5 = 1)%nat.
           { replace (length rest + 4)%nat with ((length rest - 1) + 1 * 5)%nat by lia.
             rewrite Nat.div_add by lia. rewrite Nat.div_small by lia. reflexivity. }
           rewrite H. replace ((0 + 4) / 5)%nat with 0%nat by reflexivity. lia.
      * apply (advances_trans _ _ s s2 s3); [|exact Hadv3].
        apply (advances_trans _ _ s s1 s2); assumption.
    + exists (cs1 ++ cs2). split; [|apply embeds_app; assumption].
      rewrite Hsplit. apply sublist_app; assumption.
Qed.

Lemma embeds_ids es cs :
  embeds embeddingModel toISOString es cs ->
  Forall (fun e => Embedding.id e = Embedding.articleChunkId e +:+ "_embedding" /\
                   Embedding.model e = embeddingModel) es /\
  map Embedding.articleChunkId es = map ArticleChunk.id cs.
Proof.
  induction 1 as [|e c es cs (v & now & ->) _ [IH1 IH2]]; simpl.
  - split; [constructor | reflexivity].
  - split; [constructor; [split; reflexivity | exact IH1]|].
    rewrite IH2. reflexivity.
Qed.


(** While [createEmbeddingsForChunks] works on [n] chunks it calls [fetch]
    at most [4 * (n + ceil (n / 5))] times: four attempts for each batch and,
    when a batch fails, four for each of its chunks. Every request names the
    model of the configuration and holds one text or a batch of one to five
    texts. *)
Theorem createEmbeddingsForChunks_requests chunks s :
  exists embeddings s' posted,
    createEmbeddingsForChunks embeddingModel timeoutMs fetch Date_now toISOString
      stackTrace typeError chunks s = Some (embeddings, s') /\
    sent s' = sent s ++ posted /\
    apiCalls s' = (apiCalls s + length posted)%nat /\
    (length posted <= 4 * (length chunks + (length chunks + 4) / 5))%nat /\
    Forall (wellFormed embeddingModel) posted.
Proof.
  unfold createEmbeddingsForChunks.
  destruct (batchLoop_spec (length chunks) chunks [] s (le_n _))
    as (new & s' & Hrun & (posted & Hs & Hc & Hl & Hw) & _).
  exists new, s', posted. repeat split; assumption.
Qed.

(** A query whose request the server refuses four times, with whatever
    HTTP status: the error [callTngEmbeddingApi] throws carries no [status],
    so the rule that ends the retries on a client error never applies to
    it. [createQueryEmbedding] calls [fetch] four times, sleeps 1, 2 and 4
    seconds after the waits of the rate limiter, and throws. *)
Theorem createQueryEmbedding_refused query s :
  (forall k, (k < 4)%nat ->
     exists status detail,
       fetch (apiCalls s + k)%nat
             {| model := embeddingModel; input := Single query |}
       = NotOk status detail) ->
  exists e s',
    createQueryEmbedding embeddingModel timeoutMs fetch Date_now stackTrace
      typeError query s = (Err (Retry.ErrorObject e), s') /\
    Retry.status e = None /\
    apiCalls s' = (apiCalls s + 4)%nat /\
    sleeps s'
    = sleeps s
      ++ fst (enforceRateLimit (Date_now (clockReads s)) 1 (limiter s))
      ++ [1000; 2000; 4000].
Proof.
  intros Hrefused. unfold createQueryEmbedding.
  set (request := {| model := embeddingModel; input := Single query |}) in *.
  rewrite (andThen_Ok _ _ _ _ _ (enforce_eq 1 s)).
  set (s1 := {| limiter := snd (enforceRateLimit (Date_now (clockReads s)) 1 (limiter s));
                apiCalls := apiCalls s; clockReads := S (clockReads s);
                sleeps := sleeps s
                          ++ fst (enforceRateLimit (Date_now (clockReads s)) 1 (limiter s));
                sent := sent s |}).
  set (operation := fun k : Z =>
         callTngEmbeddingApi timeoutMs stackTrace
           (fetch (apiCalls s1 + Z.to_nat k) request)).
  assert (Hop : forall j, 0 <= j < 4 ->
            exists (status : Z) (detail : string),
              operation j
              = Err (newError stackTrace
                       ("TNG Embedding API error (" +:+ pretty status
                        +:+ "): " +:+ detail))).
  { intros j Hj. destruct (Hrefused (Z.to_nat j) ltac:(lia)) as (st' & d & Hf).
    exists st', d. unfold operation. cbn [apiCalls s1]. rewrite Hf. reflexivity. }
  destruct (Hop 3 ltac:(lia)) as (st3 & d3 & H3).
  destruct (RetryFacts.retryRequest_at Retry.retryOptions operation 3) as [_ Hend];
    [simpl; lia | |].
  { intros j Hj. destruct (Hop j ltac:(lia)) as (stj & dj & Hj').
    eexists. split; [exact Hj' | reflexivity]. }
  specialize (Hend _ H3 (or_intror eq_refl)).
  assert (Hret : exists e s2,
            retried timeoutMs fetch stackTrace request s1
            = (Err (Retry.ErrorObject e), s2) /\
            Retry.status e = None /\
            apiCalls s2 = (apiCalls s1 + 4)%nat /\
            sleeps s2 = sleeps s1 ++ [1000; 2000; 4000]).
  { unfold retried. fold operation. rewrite Hend.
    cbn [Retry.outcome Retry.calls Retry.delays]. eexists. eexists.
    split; [reflexivity|]. split; [reflexivity|]. split; reflexivity. }
  destruct Hret as (e & s2 & Hret & Hst & Hc & Hs).
  rewrite (andThen_Err _ _ _ _ _ Hret). exists e, s2.
  split; [reflexivity|]. split; [exact Hst|]. split; [exact Hc|].
  rewrite Hs. unfold s1. cbn [sleeps]. rewrite <- app_assoc. reflexivity.
Qed.

End CallsFacts.

Lemma createQueryEmbedding_refused_witness :
  exists e s',
    createQueryEmbedding "BAAI/bge-large-en-v1.5" 30000 unauthorized (fun _ => 0)
      "at Object.callTngEmbeddingApi" (Retry.OtherValue "TypeError")
      "reset password" newEmbeddingService
    = (Err (Retry.ErrorObject e), s') /\
    Retry.status e = None /\
    apiCalls s' = 4%nat /\
    sleeps s' = [1000; 2000; 4000].
Proof.
  destruct (createQueryEmbedding_refused "BAAI/bge-large-en-v1.5" 30000
              unauthorized (fun _ => 0) "at Object.callTngEmbeddingApi"
              (Retry.OtherValue "TypeError") "reset password"
              newEmbeddingService) as (e & s' & Hrun & Hst & Hc & Hs).
  { intros k _. exists 401, "Unauthorized". reflexivity. }
  exists e, s'. split; [exact Hrun|]. split; [exact Hst|].
  split; [exact Hc | exact Hs].
Defined.

(** C8: the code does not do what the claim and its own comment ("Don't
    retry client errors except rate limits") say for the client errors of
    the embedding server itself. A server that answers 401 makes
    [callTngEmbeddingApi] throw an [Error] that has the status in its
    message and no [status] property; the wrapper does not take it for a
    client error, sends the request four times and sleeps 1, 2 and 4
    seconds before it throws. *)
Lemma client_error_is_retried :
  exists e s',
    createQueryEmbedding "BAAI/bge-large-en-v1.5" 30000 unauthorized (fun _ => 0)
      "at Object.callTngEmbeddingApi" (Retry.OtherValue "TypeError")
      "reset password" newEmbeddingService
    = (Err (Retry.ErrorObject e), s') /\
    Retry.message e = "TNG Embedding API error (401): Unauthorized" /\
    Retry.status e = None /\
    Retry.isClientError e = false /\
    apiCalls s' = 4%nat /\
    sleeps s' = [1000; 2000; 4000] /\
    sent s' = [ {| model := "BAAI/bge-large-en-v1.5";
                   input := Single "reset password" |};
                {| model := "BAAI/bge-large-en-v1.5";
                   input := Single "reset password" |};
                {| model := "BAAI/bge-large-en-v1.5";
                   input := Single "reset password" |};
                {| model := "BAAI/bge-large-en-v1.5";
                   input := Single "reset password" |} ].
Proof.
  eexists. eexists. split; [vm_compute; reflexivity|].
  repeat split; reflexivity.
Qed.

Section ChunkArticleFacts.
Variable codeUnits : string -> text.
Variable fromCodeUnits : text -> string.

(** [chunkArticle] always ends. It throws the content error exactly when
    the body is the empty string, so the branch that would push an empty
    chunk for a body of length 0 is never taken: no article gets a chunk
    from it. It throws the splitting error only when the body is longer
    than [size] and [splitText] threw, and for a valid configuration
    [splitText] can only have thrown the error of the iteration cap. *)
Theorem chunkArticle_errors article options :
  let content := codeUnits (ZendeskArticle.body article) in
  exists r,
    chunkArticle codeUnits fromCodeUnits article options = Some r /\
    (r = Err InvalidContent <-> content = []) /\
    (forall e, r = Err (SplittingFailed e) ->
       size options < jsLength (cutContent content) /\
       splitText (cutContent content) options = Some (Err e) /\
       (validOptions options ->
        e = MaxIterationsExceeded (maxIterations (cutContent content) options))).
Proof.
  intros content. unfold chunkArticle. fold content.
  destruct (Z.eqb_spec (jsLength content) 0) as [H0|H0].
  { exists (Err InvalidContent). split; [reflexivity|].
    split; [split; [intros _; apply jsLength_nil_iff, H0 | reflexivity]|].
    discriminate. }
  assert (Hne : content <> []) by (intros E; apply H0, jsLength_nil_iff, E).
  destruct (Z.leb_spec (jsLength (cutContent content)) (size options)) as [Hle|Hgt].
  { eexists. split; [reflexivity|]. split; [split; [discriminate | contradiction]|].
    discriminate. }
  destruct (splitText (cutContent content) options) as [[texts|e]|] eqn:Hsplit.
  - eexists. split; [reflexivity|].
    split; [split; [discriminate | contradiction] | discriminate].
  - eexists. split; [reflexivity|].
    split; [split; [discriminate | contradiction]|].
    intros e' He'. inversion He'; subst e'. split; [lia|]. split; [reflexivity|].
    intros Hv. apply (splitText_valid_Err _ _ _ Hv Hsplit).
  - destruct (splitText_total (cutContent content) options) as [r Hr].
    congruence.
Qed.

Lemma chunkArticle_shape article options cs :
  chunkArticle codeUnits fromCodeUnits article options = Some (Ok cs) ->
  forall i c, cs !! i = Some c ->
    exists x, c = chunkOf fromCodeUnits article (Z.of_nat (length cs))
                    (Z.of_nat i) x.
Proof.
  intros Hrun. unfold chunkArticle in Hrun.
  destruct (jsLength (codeUnits (ZendeskArticle.body article)) =? 0);
    [discriminate|].
  destruct (jsLength (cutContent _) <=? size options).
  - inversion Hrun; subst cs. intros [|i] c Hc; [|discriminate].
    inversion Hc; subst c. eexists. reflexivity.
  - destruct (splitText _ options) as [[texts|e]|]; try discriminate.
    inversion Hrun; subst cs. intros i c Hc.
    apply list_lookup_imap_Some in Hc as (y & _ & ->).
    rewrite length_imap. eexists. reflexivity.
Qed.

Lemma chunkArticle_NoDup article options cs :
  chunkArticle codeUnits fromCodeUnits article options = Some (Ok cs) ->
  NoDup (map ArticleChunk.id cs).
Proof.
  intros Hrun. pose proof (chunkArticle_shape article options cs Hrun) as Hall.
  apply NoDup_alt. intros i j k Hi Hj.
  rewrite list_lookup_fmap in Hi, Hj.
  destruct (cs !! i) as [ci|] eqn:Eci; [|discriminate].
  destruct (cs !! j) as [cj|] eqn:Ecj; [|discriminate].
  destruct (Hall i ci Eci) as [xi ->]. destruct (Hall j cj Ecj) as [xj ->].
  change (Some (chunkId (ZendeskArticle.id article) (Z.of_nat i)) = Some k) in Hi.
  change (Some (chunkId (ZendeskArticle.id article) (Z.of_nat j)) = Some k) in Hj.
  assert (Hid : chunkId (ZendeskArticle.id article) (Z.of_nat i)
                = chunkId (ZendeskArticle.id article) (Z.of_nat j)) by congruence.
  apply chunkId_inj in Hid. lia.
Qed.

(** The chunks of an article are numbered as they are listed: the chunk at
    position [i] has [chunkIndex] [i], the id [article_<id>_chunk_<i>] and
    [totalChunks] equal to the number of chunks returned, and carries the
    id, title, URL and dates of the article; so the ids of the chunks are
    pairwise different. *)
Theorem chunkArticle_numbering article options cs :
  chunkArticle codeUnits fromCodeUnits article options = Some (Ok cs) ->
  (forall i c, cs !! i = Some c ->
     ArticleChunk.chunkIndex c = Z.of_nat i /\
     ArticleChunk.totalChunks c = Z.of_nat (length cs) /\
     ArticleChunk.id c = chunkId (ZendeskArticle.id article) (Z.of_nat i) /\
     ArticleChunk.articleId c = ZendeskArticle.id article /\
     ArticleChunk.title c = ZendeskArticle.title article /\
     ArticleChunk.url c = ZendeskArticle.html_url article /\
     ArticleChunk.createdAt c = ZendeskArticle.created_at article /\
     ArticleChunk.updatedAt c = ZendeskArticle.updated_at article) /\
  NoDup (map ArticleChunk.id cs).
Proof.
  intros Hrun. split; [|apply (chunkArticle_NoDup article options cs Hrun)].
  intros i c Hc.
  destruct (chunkArticle_shape article options cs Hrun i c Hc) as [x ->].
  repeat split.
Qed.

Lemma splitText_chunk_facts t o cs :
  validOptions o -> splitText t o = Some (Ok cs) ->
  Forall (fun c => nonBlank c = true /\ jsLength c <= size o + 1 /\
                   exists s e, 0 <= s < e /\ c = slice t s e) cs.
Proof.
  intros Hv Hs.
  destruct (ChunkerFacts.splitText_Ok_inv t o cs Hv Hs) as (st & Hrun & _ & _ & ->).
  destruct (ChunkerFacts.runLoop_ranges t o st Hv Hrun)
    as (_ & _ & Hch & Hnb & Hrs & _).
  rewrite (ChunkerFacts.filter_all _ _ Hnb).
  apply Forall_forall. intros c Hc. split.
  - rewrite Forall_forall in Hnb. apply Hnb, Hc.
  - rewrite Hch in Hc. apply list_elem_of_fmap in Hc as (r & -> & Hr).
    rewrite Forall_forall in Hrs. specialize (Hrs r Hr).
    pose proof (ChunkerFacts.slice_length t (fst r) (snd r)).
    split; [lia|]. exists (fst r), (snd r). split; [lia | reflexivity].
Qed.

Lemma slice_whole (t : text) : t <> [] -> slice t 0 (jsLength t) = t.
Proof.
  intros Hne. unfold slice, jsLength.
  destruct (Z.ltb_spec 0 0); [lia|].
  destruct (Z.ltb_spec (Z.of_nat (length t)) 0); [lia|].
  rewrite Z.min_l, Z.min_l by lia. rewrite Z.sub_0_r, Nat2Z.id. simpl.
  apply firstn_all.
Qed.

(** For a valid configuration the content of every chunk of an article is
    the trimmed text of a slice of the body, the slice having at most
    [size + 1] code units. When the body is longer than [size], no chunk
    has an empty content; a body of at most [size] code units gives one
    chunk, whose content is the trimmed body and is empty when the body is
    white space only. *)
Theorem chunkArticle_contents article options cs :
  validOptions options ->
  chunkArticle codeUnits fromCodeUnits article options = Some (Ok cs) ->
  let content := cutContent (codeUnits (ZendeskArticle.body article)) in
  Forall (fun c => exists s e,
            0 <= s < e /\
            ArticleChunk.content c = fromCodeUnits (trim (slice content s e)) /\
            jsLength (slice content s e) <= size options + 1 /\
            jsLength (trim (slice content s e)) <= jsLength (slice content s e) /\
            (size options < jsLength content ->
             0 < jsLength (trim (slice content s e)))) cs /\
  (jsLength content <= size options ->
   cs = [chunkOf fromCodeUnits article 1 0 (trim content)]).
Proof.
  intros Hv Hrun content. unfold chunkArticle in Hrun. fold content in Hrun.
  destruct (Z.eqb_spec (jsLength (codeUnits (ZendeskArticle.body article))) 0)
    as [|Hne]; [discriminate|].
  destruct (Z.leb_spec (jsLength content) (size options)) as [Hle|Hgt].
  - inversion Hrun; subst cs. split; [|reflexivity].
    assert (Hpos : 0 < jsLength content).
    { assert (Hnote : (0 < length truncationNote)%nat) by (vm_compute; lia).
      unfold content, cutContent.
      destruct (jsLength (codeUnits (ZendeskArticle.body article)) >? maxContentLength);
        unfold jsLength in *; [rewrite length_app|]; lia. }
    assert (Hc : content <> []).
    { intros E. apply (f_equal length) in E. simpl in E.
      unfold jsLength in Hpos. lia. }
    repeat constructor. exists 0, (jsLength content).
    rewrite (slice_whole content Hc). split; [lia|]. split; [reflexivity|].
    split; [lia|]. split; [apply ChunkerFacts.trim_length | lia].
  - split; [|lia].
    destruct (splitText content options) as [[texts|e]|] eqn:Hsplit;
      try discriminate.
    inversion Hrun; subst cs.
    pose proof (splitText_chunk_facts content options texts Hv Hsplit) as Hf.
    apply Forall_forall. intros c Hc.
    apply elem_of_lookup_imap_1 in Hc as (i & x & -> & Hx).
    rewrite Forall_forall in Hf.
    destruct (Hf x) as (Hnb & Hlen & s & e & Hse & ->);
      [eapply list_elem_of_lookup_2, Hx|].
    exists s, e. split; [exact Hse|]. split; [reflexivity|]. split; [exact Hlen|].
    split; [apply ChunkerFacts.trim_length|]. intros _.
    unfold nonBlank in Hnb. apply Z.ltb_lt in Hnb. exact Hnb.
Qed.

(** An article whose body is white space only, not empty and of at most
    [maxContentLength] (10 MiB) code units, is chunked without error for a
    valid configuration, in two ways: a body of at most [size] code units
    gives one chunk whose content is the empty string, a longer one gives
    no chunk at all. (A longer body is cut and gets the truncation note,
    which is not white space.) *)
Theorem chunkArticle_blank article options :
  validOptions options ->
  codeUnits (ZendeskArticle.body article) <> [] ->
  Forall (fun c => isWhitespace c = true) (codeUnits (ZendeskArticle.body article)) ->
  jsLength (codeUnits (ZendeskArticle.body article)) <= maxContentLength ->
  chunkArticle codeUnits fromCodeUnits article options
  = Some (Ok (if jsLength (codeUnits (ZendeskArticle.body article)) <=? size options
              then [chunkOf fromCodeUnits article 1 0 []] else [])).
Proof.
  intros Hv Hne Hall Hmax. unfold chunkArticle.
  set (content := codeUnits (ZendeskArticle.body article)) in *.
  destruct (Z.eqb_spec (jsLength content) 0) as [H0|H0];
    [apply jsLength_nil_iff in H0; contradiction|].
  assert (Hcut : cutContent content = content).
  { unfold cutContent. destruct (Z.gtb_spec (jsLength content) maxContentLength);
      [lia | reflexivity]. }
  rewrite Hcut. destruct (jsLength content <=? size options).
  - rewrite (ChunkerFacts.trim_blank content Hall). reflexivity.
  - rewrite (ChunkerFacts.splitText_blank content options Hv Hall). reflexivity.
Qed.

End ChunkArticleFacts.

(** ** Processing articles *)

Section ProcessFacts.
Variable codeUnits : string -> text.
Variable fromCodeUnits : text -> string.
Variable embeddingModel : string.
Variable timeoutMs : Z.
Variable fetch : nat -> Request -> Fetched.
Variable Date_now : nat -> Z.
Variable toISOString : Z -> string.
Variable stackTrace : string.
Variable typeError : Retry.Thrown.
Variable chunkingOptions : ChunkingOptions.

Lemma chunkArticle_total article :
  exists r, chunkArticle codeUnits fromCodeUnits article chunkingOptions = Some r.
Proof.
  unfold chunkArticle.
  destruct (jsLength (codeUnits (ZendeskArticle.body article)) =? 0); [eauto|].
  destruct (jsLength (cutContent _) <=? size chunkingOptions); [eauto|].
  destruct (splitText_total (cutContent (codeUnits (ZendeskArticle.body article)))
              chunkingOptions) as [[texts|e] ->]; eauto.
Qed.

Lemma processLoop_spec articles : forall allChunks allEmbeddings s,
  exists embeddings s',
    processLoop codeUnits fromCodeUnits embeddingModel timeoutMs fetch Date_now
      toISOString stackTrace typeError chunkingOptions articles allChunks
      allEmbeddings s
    = Some (allChunks
            ++ concat (map (chunked codeUnits fromCodeUnits chunkingOptions)
                           articles),
            allEmbeddings ++ embeddings, s') /\
    exists cs,
      cs `sublist_of` concat (map (chunked codeUnits fromCodeUnits chunkingOptions)
                                  articles) /\
      embeds embeddingModel toISOString embeddings cs.
Proof.
  induction articles as [|article rest IH]; intros allChunks allEmbeddings s.
  - exists [], s. simpl. rewrite !app_nil_r. split; [reflexivity|].
    exists []. split; constructor.
  - cbn [processLoop map concat]. unfold chunked at 1 3.
    destruct (chunkArticle_total article) as [[chunks|error] Hc]; rewrite Hc.
    + destruct (batchLoop_spec embeddingModel timeoutMs fetch Date_now toISOString
                  stackTrace typeError (length chunks) chunks [] s (le_n _))
        as (new & s1 & Hrun & _ & cs1 & Hsub1 & Hemb1).
      unfold createEmbeddingsForChunks. rewrite Hrun. cbn [app].
      destruct (IH (allChunks ++ chunks) (allEmbeddings ++ new) s1)
        as (embeddings & s' & Hloop & cs2 & Hsub2 & Hemb2).
      exists (new ++ embeddings), s'. rewrite Hloop, <- !app_assoc.
      split; [reflexivity|]. exists (cs1 ++ cs2).
      split; [apply sublist_app; assumption|].
      apply embeds_app; assumption.
    + destruct (IH allChunks allEmbeddings s)
        as (embeddings & s' & Hloop & cs2 & Hsub2 & Hemb2).
      exists embeddings, s'. split; [exact Hloop|]. exists cs2.
      split; assumption.
Qed.

(** [processArticles] resolves whatever the articles and the server are.
    The chunks it returns are the chunks of the articles, in order, an
    article whose chunking throws giving none; the embeddings it returns
    are embeddings of some of these chunks, at most one for a chunk and in
    their order, each with the id of its chunk followed by [_embedding],
    which is the id [removeArticles] derives. *)
Theorem processArticles_result articles s :
  exists chunks embeddings s',
    processArticles codeUnits fromCodeUnits embeddingModel timeoutMs fetch
      Date_now toISOString stackTrace typeError chunkingOptions articles s
    = Some (chunks, embeddings, s') /\
    chunks = concat (map (chunked codeUnits fromCodeUnits chunkingOptions)
                         articles) /\
    (exists cs, cs `sublist_of` chunks /\
                embeds embeddingModel toISOString embeddings cs) /\
    Forall (fun e => exists c, c ∈ chunks /\
                       Embedding.articleChunkId e = ArticleChunk.id c /\
                       Embedding.id e = ArticleChunk.id c +:+ "_embedding")
           embeddings.
Proof.
  unfold processArticles.
  destruct (processLoop_spec articles [] [] s)
    as (embeddings & s' & Hloop & cs & Hsub & Hemb).
  eexists. exists embeddings, s'. split; [exact Hloop|].
  split; [reflexivity|]. split; [exists cs; split; assumption|].
  apply Forall_forall. intros e He.
  assert (Hin : forall es cs', embeds embeddingModel toISOString es cs' ->
            e ∈ es -> exists c v now, c ∈ cs' /\
                        e = embeddingOf embeddingModel toISOString c v now).
  { induction 1 as [|e0 c0 es0 cs0 (v & now & ->) _ IH']; intros Hin.
    - apply elem_of_nil in Hin. contradiction.
    - apply elem_of_cons in Hin as [->|Hin].
      + exists c0, v, now. split; [left | reflexivity].
      + destruct (IH' Hin) as (c & v' & now' & Hc & ->).
        exists c, v', now'. split; [right; exact Hc | reflexivity]. }
  destruct (Hin embeddings cs Hemb He) as (c & v & now & Hc & ->).
  exists c. split; [eapply elem_of_sublist; eassumption|]. split; reflexivity.
Qed.

Lemma chunked_shape article c :
  In c (chunked codeUnits fromCodeUnits chunkingOptions article) ->
  exists i, ArticleChunk.id c = chunkId (ZendeskArticle.id article) i /\
            ArticleChunk.articleId c = ZendeskArticle.id article.
Proof.
  unfold chunked.
  destruct (chunkArticle codeUnits fromCodeUnits article chunkingOptions)
    as [[cs|e]|] eqn:Hrun; try (intros []).
  intros Hin. apply list_elem_of_In, list_elem_of_lookup in Hin as [i Hi].
  destruct (chunkArticle_shape codeUnits fromCodeUnits article chunkingOptions
              cs Hrun i c Hi) as [x ->].
  exists (Z.of_nat i). split; reflexivity.
Qed.

Lemma chunked_NoDup article :
  NoDup (map ArticleChunk.id
           (chunked codeUnits fromCodeUnits chunkingOptions article)).
Proof.
  unfold chunked.
  destruct (chunkArticle codeUnits fromCodeUnits article chunkingOptions)
    as [[cs|e]|] eqn:Hrun; try apply NoDup_nil_2.
  apply (chunkArticle_NoDup codeUnits fromCodeUnits article chunkingOptions cs Hrun).
Qed.

Lemma chunks_of_articles articles c :
  In c (concat (map (chunked codeUnits fromCodeUnits chunkingOptions) articles)) ->
  exists a i, In a articles /\
              ArticleChunk.id c = chunkId (ZendeskArticle.id a) i /\
              ArticleChunk.articleId c = ZendeskArticle.id a.
Proof.
  intros Hin. apply List.in_concat in Hin as (cs & Hcs & Hc).
  apply List.in_map_iff in Hcs as (a & <- & Ha).
  destruct (chunked_shape a c Hc) as (i & Hid & Haid). eauto.
Qed.

Lemma chunks_of_articles_NoDup articles :
  NoDup (map ZendeskArticle.id articles) ->
  NoDup (map ArticleChunk.id
           (concat (map (chunked codeUnits fromCodeUnits chunkingOptions)
                        articles))).
Proof.
  induction articles as [|a rest IH]; intros Hnd; simpl; [apply NoDup_nil_2|].
  apply NoDup_cons in Hnd as [Ha Hrest].
  rewrite map_app. apply NoDup_app. split; [apply chunked_NoDup|].
  split; [|apply IH, Hrest].
  intros k Hk Hk'.
  apply list_elem_of_fmap in Hk as (c & -> & Hc).
  apply list_elem_of_fmap in Hk' as (c' & Heq & Hc').
  apply list_elem_of_In in Hc, Hc'.
  destruct (chunked_shape a c Hc) as (i & Hid & _).
  destruct (chunks_of_articles rest c' Hc') as (b & j & Hb & Hid' & _).
  rewrite Hid, Hid' in Heq. apply chunkId_injective in Heq as [Hab _].
  apply Ha. rewrite Hab. apply list_elem_of_fmap. exists b.
  split; [reflexivity | apply list_elem_of_In, Hb].
Qed.

Lemma embeds_In es cs e :
  embeds embeddingModel toISOString es cs -> In e es ->
  exists c, In c cs /\ Embedding.articleChunkId e = ArticleChunk.id c /\
            Embedding.id e = ArticleChunk.id c +:+ "_embedding".
Proof.
  induction 1 as [|e0 c0 es0 cs0 (v & now & ->) _ IH]; intros Hin; [destruct Hin|].
  destruct Hin as [<-|Hin].
  - exists c0. split; [left; reflexivity | split; reflexivity].
  - destruct (IH Hin) as (c & Hc & H1 & H2). exists c.
    split; [right; exact Hc | split; assumption].
Qed.

(** When the articles have pairwise different ids, so have the chunks that
    [processArticles] returns, whatever article they come from, and so
    have the embeddings: no entry of the result overwrites another when
    [upsertData] stores them. *)
Theorem processArticles_distinct articles s chunks embeddings s' :
  NoDup (map ZendeskArticle.id articles) ->
  processArticles codeUnits fromCodeUnits embeddingModel timeoutMs fetch
    Date_now toISOString stackTrace typeError chunkingOptions articles s
  = Some (chunks, embeddings, s') ->
  NoDup (map ArticleChunk.id chunks) /\
  NoDup (map Embedding.id embeddings) /\
  (forall a i b j, chunkId a i = chunkId b j -> a = b /\ i = j).
Proof.
  intros Hnd Hrun. unfold processArticles in Hrun.
  destruct (processLoop_spec articles [] [] s)
    as (es & s2 & Hloop & cs & Hsub & Hemb).
  rewrite Hloop in Hrun. cbn [app] in Hrun.
  injection Hrun as Hc He Hs. subst chunks embeddings s'.
  pose proof (chunks_of_articles_NoDup articles Hnd) as Hchunks.
  split; [exact Hchunks|]. split; [|intros a i b j; apply chunkId_injective].
  destruct (embeds_ids embeddingModel toISOString es cs Hemb) as [Hids Heq].
  assert (Hmap : map Embedding.id es
                 = map (fun k => k +:+ "_embedding") (map ArticleChunk.id cs)).
  { rewrite <- Heq, List.map_map. apply List.map_ext_in. intros e He.
    rewrite Forall_forall in Hids.
    apply (Hids e). apply list_elem_of_In. exact He. }
  rewrite Hmap. apply NoDup_fmap_2.
  - intros k1 k2 Hk. apply (append_inj_r "_embedding"). exact Hk.
  - eapply sublist_NoDup; [exact Hchunks|].
    apply (fmap_sublist ArticleChunk.id), Hsub.
Qed.

Lemma lastBy_In {A K} `{EqDecision K} (key : A -> K) (l : list A) c :
  In c l -> exists x, lastBy key (key c) l = Some x /\ In x l /\ key x = key c.
Proof.
  intros Hin. unfold lastBy.
  destruct (List.find (fun x => bool_decide (key x = key c)) (rev l)) as [x|] eqn:Hf.
  - apply List.find_some in Hf as [Hx Hk]. exists x. split; [reflexivity|].
    split; [apply List.in_rev, Hx | exact (proj1 (bool_decide_eq_true _) Hk)].
  - pose proof (List.find_none _ _ Hf c (proj1 (List.in_rev l c) Hin)) as Hc.
    simpl in Hc. rewrite bool_decide_eq_true_2 in Hc by reflexivity. discriminate.
Qed.

(** What [processArticles] returns for a list of articles can be taken out
    of the store again: after [upsertData] has stored the articles, the
    chunks and the embeddings in a loaded store, [removeArticles] with the
    ids of the articles leaves none of these articles, none of the chunks
    and none of the embeddings, because each embedding is stored under the
    id of its chunk followed by [_embedding], which is the key
    [removeArticles] deletes. *)
Theorem processed_articles_removable articles s chunks embeddings s' w m cs co :
  processArticles codeUnits fromCodeUnits embeddingModel timeoutMs fetch
    Date_now toISOString stackTrace typeError chunkingOptions articles s
  = Some (chunks, embeddings, s') ->
  isLoaded w = true -> chunksKeyed (vectorStore w) ->
  let w1 := snd (upsertData toISOString articles chunks embeddings m cs co w) in
  let w2 := snd (removeArticles toISOString (map ZendeskArticle.id articles) w1) in
  (forall a, In a articles ->
     Store.articles (vectorStore w2) !! ZendeskArticle.id a = None) /\
  (forall c, In c chunks ->
     Store.chunks (vectorStore w2) !! ArticleChunk.id c = None) /\
  (forall e, In e embeddings ->
     Store.embeddings (vectorStore w2) !! Embedding.id e = None).
Proof.
  intros Hrun Hl Hkey w1 w2. unfold processArticles in Hrun.
  destruct (processLoop_spec articles [] [] s)
    as (es & s2 & Hloop & cs0 & Hsub & Hemb).
  rewrite Hloop in Hrun. cbn [app] in Hrun.
  injection Hrun as Hc He Hs. subst chunks embeddings s'.
  set (chunks := concat (map (chunked codeUnits fromCodeUnits chunkingOptions)
                             articles)) in *.
  assert (Hplain : Forall (fun x => ArticleChunk.id x <> "__proto__") chunks).
  { apply Forall_forall. intros x Hx. apply list_elem_of_In in Hx.
    destruct (chunks_of_articles articles x Hx) as (a & i & _ & -> & _).
    unfold chunkId. intros E. discriminate E. }
  assert (Hplain' : Forall (fun x => Embedding.id x <> "__proto__") es).
  { apply Forall_forall. intros x Hx. apply list_elem_of_In in Hx.
    destruct (embeds_In es cs0 x Hemb Hx) as (c & _ & _ & ->).
    apply StoreFacts.embeddingId_not_proto. }
  destruct (StoreFacts.upsertData_inserts toISOString articles chunks es m cs co w
              Hl Hplain Hplain') as (Hl1 & _ & Hchunks1 & _).
  pose proof (StoreFacts.upsertData_keyed toISOString articles chunks es m cs co
                w Hkey Hl) as Hkey1.
  fold w1 in Hl1, Hchunks1, Hkey1.
  destruct (StoreFacts.removeArticles_lookup toISOString w1
              (map ZendeskArticle.id articles) Hl1 Hkey1)
    as (Harts & Hcs & Hes & _).
  fold w2 in Harts, Hcs, Hes.
  assert (Hstored : forall c, In c chunks ->
            exists x, Store.chunks (vectorStore w1) !! ArticleChunk.id c = Some x /\
                      ArticleChunk.id x = ArticleChunk.id c /\
                      ArticleChunk.articleId x ∈ map ZendeskArticle.id articles).
  { intros c Hc. destruct (lastBy_In ArticleChunk.id chunks c Hc) as (x & Hx & Hin & Hid).
    exists x. rewrite Hchunks1, StoreFacts.fold_insert_lookup, Hx.
    split; [reflexivity|]. split; [exact Hid|].
    destruct (chunks_of_articles articles x Hin) as (a & i & Ha & _ & ->).
    apply list_elem_of_fmap. exists a.
    split; [reflexivity | apply list_elem_of_In, Ha]. }
  split; [|split].
  - intros a Ha. rewrite Harts, bool_decide_eq_true_2; [reflexivity|].
    apply list_elem_of_fmap. exists a.
    split; [reflexivity | apply list_elem_of_In, Ha].
  - intros c Hc. destruct (Hstored c Hc) as (x & Hx & _ & Hmem).
    rewrite Hcs, Hx, bool_decide_eq_true_2 by exact Hmem. reflexivity.
  - intros e He.
    destruct (embeds_In es cs0 e Hemb He) as (c & Hc & _ & Hid).
    assert (Hc' : In c chunks).
    { apply list_elem_of_In. eapply elem_of_sublist; [|exact Hsub].
      apply list_elem_of_In, Hc. }
    destruct (Hstored c Hc') as (x & Hx & Hidx & Hmem).
    rewrite Hid, <- Hidx. apply (Hes _ x Hx Hmem).
Qed.

End ProcessFacts.

Lemma processArticles_distinct_witness :
  NoDup (map ZendeskArticle.id [article1; article2]) /\
  exists chunks embeddings s',
    processArticles ofString toString "BAAI/bge-large-en-v1.5" 30000 obliging
      (fun _ => 0) exampleISO "at callTngEmbeddingApi"
      (Retry.OtherValue "TypeError") wordOptions [article1; article2]
      newEmbeddingService
    = Some (chunks, embeddings, s') /\
    NoDup (map ArticleChunk.id chunks) /\
    NoDup (map Embedding.id embeddings).
Proof.
  assert (Hnd : NoDup (map ZendeskArticle.id [article1; article2])).
  { simpl. apply NoDup_cons. split; [|apply NoDup_singleton].
    intros H. apply list_elem_of_singleton in H. discriminate. }
  split; [exact Hnd|].
  destruct (processArticles ofString toString "BAAI/bge-large-en-v1.5" 30000
              obliging (fun _ => 0) exampleISO "at callTngEmbeddingApi"
              (Retry.OtherValue "TypeError") wordOptions [article1; article2]
              newEmbeddingService) as [[[chunks embeddings] s']|] eqn:Hrun.
  - exists chunks, embeddings, s'. split; [reflexivity|].
    destruct (processArticles_distinct _ _ _ _ _ _ _ _ _ _ _ _ _ _ _ Hnd Hrun)
      as (H1 & H2 & _).
    split; assumption.
  - exfalso. vm_compute in Hrun. discriminate.
Defined.

Lemma processed_articles_removable_witness :
  isLoaded loadedService = true /\
  chunksKeyed (vectorStore loadedService) /\
  exists chunks embeddings s',
    processArticles ofString toString "BAAI/bge-large-en-v1.5" 30000 obliging
      (fun _ => 0) exampleISO "at callTngEmbeddingApi"
      (Retry.OtherValue "TypeError") wordOptions [article1; article2]
      newEmbeddingService
    = Some (chunks, embeddings, s') /\
    forall e, In e embeddings ->
      Store.embeddings
        (vectorStore
           (snd (removeArticles exampleISO
                   (map ZendeskArticle.id [article1; article2])
                   (snd (upsertData exampleISO [article1; article2] chunks
                           embeddings "BAAI/bge-large-en-v1.5" 10 5
                           loadedService)))))
      !! Embedding.id e = None.
Proof.
  assert (Hkey : chunksKeyed (vectorStore loadedService))
    by apply map_Forall_empty.
  split; [reflexivity|]. split; [exact Hkey|].
  destruct (processArticles ofString toString "BAAI/bge-large-en-v1.5" 30000
              obliging (fun _ => 0) exampleISO "at callTngEmbeddingApi"
              (Retry.OtherValue "TypeError") wordOptions [article1; article2]
              newEmbeddingService) as [[[chunks embeddings] s']|] eqn:Hrun.
  - exists chunks, embeddings, s'. split; [reflexivity|].
    destruct (processed_articles_removable _ _ _ _ _ _ _ _ _ _ _ _ _ _ _
                loadedService "BAAI/bge-large-en-v1.5" 10 5 Hrun eq_refl Hkey)
      as (_ & _ & H).
    exact H.
  - exfalso. vm_compute in Hrun. discriminate.
Defined.

Lemma chunkArticle_numbering_witness :
  exists cs,
    chunkArticle ofString toString article1 wordOptions = Some (Ok cs) /\
    (forall i c, cs !! i = Some c ->
       ArticleChunk.chunkIndex c = Z.of_nat i /\
       ArticleChunk.totalChunks c = Z.of_nat (length cs) /\
       ArticleChunk.id c = chunkId (ZendeskArticle.id article1) (Z.of_nat i) /\
       ArticleChunk.articleId c = ZendeskArticle.id article1 /\
       ArticleChunk.title c = ZendeskArticle.title article1 /\
       ArticleChunk.url c = ZendeskArticle.html_url article1 /\
       ArticleChunk.createdAt c = ZendeskArticle.created_at article1 /\
       ArticleChunk.updatedAt c = ZendeskArticle.updated_at article1) /\
    NoDup (map ArticleChunk.id cs).
Proof.
  destruct (chunkArticle ofString toString article1 wordOptions)
    as [[cs|e]|] eqn:Hrun.
  - exists cs. split; [reflexivity|].
    exact (chunkArticle_numbering ofString toString article1 wordOptions cs Hrun).
  - exfalso. vm_compute in Hrun. discriminate.
  - exfalso. vm_compute in Hrun. discriminate.
Defined.

Lemma chunkArticle_contents_witness :
  validOptions wordOptions /\
  exists cs,
    chunkArticle ofString toString article1 wordOptions = Some (Ok cs) /\
    Forall (fun c => exists s e,
              0 <= s < e /\
              ArticleChunk.content c
              = toString (trim (slice (cutContent (ofString
                                  (ZendeskArticle.body article1))) s e)) /\
              jsLength (slice (cutContent (ofString
                                 (ZendeskArticle.body article1))) s e)
              <= size wordOptions + 1 /\
              jsLength (trim (slice (cutContent (ofString
                                       (ZendeskArticle.body article1))) s e))
              <= jsLength (slice (cutContent (ofString
                                    (ZendeskArticle.body article1))) s e) /\
              (size wordOptions
               < jsLength (cutContent (ofString (ZendeskArticle.body article1))) ->
               0 < jsLength (trim (slice (cutContent (ofString
                                            (ZendeskArticle.body article1))) s e))))
           cs.
Proof.
  assert (Hv : validOptions wordOptions) by (unfold validOptions; simpl; lia).
  split; [exact Hv|].
  destruct (chunkArticle ofString toString article1 wordOptions)
    as [[cs|e]|] eqn:Hrun.
  - exists cs. split; [reflexivity|].
    exact (proj1 (chunkArticle_contents ofString toString article1 wordOptions
                    cs Hv Hrun)).
  - exfalso. vm_compute in Hrun. discriminate.
  - exfalso. vm_compute in Hrun. discriminate.
Defined.

Lemma chunkArticle_blank_witness :
  validOptions sentenceOptions /\
  chunkArticle ofString toString blankArticle sentenceOptions = Some (Ok []) /\
  validOptions wordOptions /\
  chunkArticle ofString toString blankArticle wordOptions
  = Some (Ok [chunkOf toString blankArticle 1 0 []]).
Proof.
  assert (Hs : validOptions sentenceOptions) by (unfold validOptions; simpl; lia).
  assert (Hw : validOptions wordOptions) by (unfold validOptions; simpl; lia).
  assert (Hne : ofString (ZendeskArticle.body blankArticle) <> []) by discriminate.
  assert (Hall : Forall (fun c => isWhitespace c = true)
                   (ofString (ZendeskArticle.body blankArticle)))
    by (repeat constructor).
  assert (Hmax : jsLength (ofString (ZendeskArticle.body blankArticle))
                 <= maxContentLength) by (vm_compute; discriminate).
  split; [exact Hs|]. split.
  - exact (chunkArticle_blank ofString toString blankArticle sentenceOptions
             Hs Hne Hall Hmax).
  - split; [exact Hw|].
    exact (chunkArticle_blank ofString toString blankArticle wordOptions
             Hw Hne Hall Hmax).
Defined.

End EmbeddingsFacts.

(* ===================================================================== *)
(** * Facts about a reindexing run *)
(* ===================================================================== *)

Module ReindexFacts.
Import JsNumber Store StoreFacts.

Lemma keyed_unique {A K} (key : A -> K) (l : list A) x y :
  NoDup (map key l) -> In x l -> In y l -> key x = key y -> x = y.
Proof.
  induction l as [|a l IH]; intros Hnd Hx Hy Hk; [destruct Hx|].
  simpl in Hnd. apply NoDup_cons in Hnd as [Ha Hnd].
  destruct Hx as [->|Hx]; destruct Hy as [->|Hy].
  - reflexivity.
  - exfalso. apply Ha. rewrite Hk. apply list_elem_of_fmap. exists y.
    split; [reflexivity | apply list_elem_of_In, Hy].
  - exfalso. apply Ha. rewrite <- Hk. apply list_elem_of_fmap. exists x.
    split; [reflexivity | apply list_elem_of_In, Hx].
  - apply IH; assumption.
Qed.

Lemma lastBy_Some {A K} `{EqDecision K} (key : A -> K) (l : list A) k x :
  lastBy key k l = Some x -> In x l /\ key x = k.
Proof.
  unfold lastBy. intros Hf. apply List.find_some in Hf as [Hx Hk].
  split; [apply List.in_rev, Hx | exact (proj1 (bool_decide_eq_true _) Hk)].
Qed.

Lemma lastBy_None {A K} `{EqDecision K} (key : A -> K) (l : list A) k x :
  lastBy key k l = None -> In x l -> key x <> k.
Proof.
  unfold lastBy. intros Hf Hin Hk.
  pose proof (List.find_none _ _ Hf x (proj1 (List.in_rev l x) Hin)) as Hc.
  simpl in Hc. rewrite bool_decide_eq_true_2 in Hc by exact Hk. discriminate.
Qed.

Section Settling.
Variable toISOString : Z -> string.
Variable Date_parse : string -> option Z.

Lemma needsReindexing_loaded w current :
  isLoaded w = true ->
  exists deleted,
    needsReindexing Date_parse current w
    = (Ok {| needsReindex :=
               (0 <? length (List.filter (isAbsent (articles (vectorStore w)))
                                         current))%nat
               || (0 <? length (List.filter
                                  (isUpdated Date_parse (articles (vectorStore w)))
                                  current))%nat
               || (0 <? length deleted)%nat;
             newArticles :=
               List.filter (isAbsent (articles (vectorStore w))) current;
             updatedArticles :=
               List.filter (isUpdated Date_parse (articles (vectorStore w))) current;
             deletedArticleIds := deleted |}, w) /\
    forall k, k ∈ deleted <->
      is_Some (articles (vectorStore w) !! k) /\
      k ∉ map ZendeskArticle.id current.
Proof using Type.
  clear toISOString.
  intros Hl. unfold needsReindexing, bind, getState, ret. simpl. rewrite Hl. simpl.
  rewrite classify_fold. simpl. eexists. split; [reflexivity|].
  intros k. rewrite list_elem_of_In, List.filter_In.
  rewrite <- list_elem_of_In, elem_of_keys, negb_true_iff, bool_decide_eq_false.
  rewrite elem_of_list_to_set. tauto.
Qed.

(** A reindexing run settles: when [needsReindexing] has sorted the
    current articles (with pairwise different ids) and [upsertData] has
    stored the new and the updated ones, with whatever chunks and
    embeddings, also none, [needsReindexing] finds no new and no updated
    article among the same current articles. The ids it reports as deleted
    are those it reported before: nothing removes them, so [needsReindex]
    stays true as long as there is one. *)
Theorem reindexing_settles w current r0 c e m cs co :
  isLoaded w = true ->
  NoDup (map ZendeskArticle.id current) ->
  needsReindexing Date_parse current w = (Ok r0, w) ->
  let w1 := snd (upsertData toISOString (newArticles r0 ++ updatedArticles r0)
                   c e m cs co w) in
  exists r1,
    needsReindexing Date_parse current w1 = (Ok r1, w1) /\
    newArticles r1 = [] /\
    updatedArticles r1 = [] /\
    (forall k, k ∈ deletedArticleIds r1 <-> k ∈ deletedArticleIds r0) /\
    (needsReindex r1 = true <-> deletedArticleIds r0 <> []).
Proof.
  intros Hl Hnd Hr0 w1.
  destruct (needsReindexing_loaded w current Hl) as (deleted0 & Heq0 & Hdel0).
  rewrite Heq0 in Hr0. injection Hr0 as <-. unfold w1. clear w1.
  cbn [newArticles updatedArticles deletedArticleIds].
  set (existing := articles (vectorStore w)) in *.
  set (stored := List.filter (isAbsent existing) current
                 ++ List.filter (isUpdated Date_parse existing) current) in *.
  set (w1 := snd (upsertData toISOString stored c e m cs co w)).
  destruct (upsertData_maps toISOString stored c e m cs co w Hl)
    as (Hl1 & Harts & _). fold w1 in Hl1, Harts.
  destruct (needsReindexing_loaded w1 current Hl1) as (deleted1 & Heq1 & Hdel1).
  assert (Hlook : forall k, articles (vectorStore w1) !! k
                  = match lastBy ZendeskArticle.id k stored with
                    | Some x => Some x
                    | None => existing !! k
                    end).
  { intros k. rewrite Harts. apply fold_insert_lookup. }
  assert (Hsub : forall x, In x stored -> In x current).
  { intros x Hx. unfold stored in Hx.
    apply in_app_or in Hx as [Hx|Hx]; apply List.filter_In in Hx as [Hx _];
      exact Hx. }
  assert (Hnew : List.filter (isAbsent (articles (vectorStore w1))) current = []).
  { apply filter_none. intros a Ha. unfold isAbsent. rewrite Hlook.
    destruct (lastBy ZendeskArticle.id (ZendeskArticle.id a) stored) as [x|] eqn:Hx;
      [reflexivity|].
    destruct (existing !! ZendeskArticle.id a) as [e0|] eqn:He0; [reflexivity|].
    exfalso. apply (lastBy_None _ _ _ a Hx); [|reflexivity].
    unfold stored. apply in_or_app. left. apply List.filter_In.
    split; [exact Ha|]. unfold isAbsent. rewrite He0. reflexivity. }
  assert (Hupd : List.filter (isUpdated Date_parse (articles (vectorStore w1)))
                   current = []).
  { apply filter_none. intros a Ha. unfold isUpdated. rewrite Hlook.
    destruct (lastBy ZendeskArticle.id (ZendeskArticle.id a) stored) as [x|] eqn:Hx.
    - apply lastBy_Some in Hx as [Hin Hk].
      rewrite (keyed_unique ZendeskArticle.id current x a Hnd (Hsub x Hin) Ha Hk).
      apply isNewer_irrefl.
    - destruct (existing !! ZendeskArticle.id a) as [e0|] eqn:He0; [|reflexivity].
      destruct (isNewer Date_parse (ZendeskArticle.updated_at a)
                  (ZendeskArticle.updated_at e0)) eqn:Hn; [|reflexivity].
      exfalso. apply (lastBy_None _ _ _ a Hx); [|reflexivity].
      unfold stored. apply in_or_app. right. apply List.filter_In.
      split; [exact Ha|]. unfold isUpdated. rewrite He0. exact Hn. }
  rewrite Hnew, Hupd in Heq1. simpl in Heq1.
  assert (Hsame : forall k, k ∈ deleted1 <-> k ∈ deleted0).
  { intros k. rewrite Hdel1, Hdel0, Hlook.
    destruct (lastBy ZendeskArticle.id k stored) as [x|] eqn:Hx; [|tauto].
    apply lastBy_Some in Hx as [Hin Hk]. split.
    - intros [_ Hout]. exfalso. apply Hout. rewrite <- Hk.
      apply list_elem_of_fmap. exists x.
      split; [reflexivity | apply list_elem_of_In, Hsub, Hin].
    - intros [_ Hout]. exfalso. apply Hout. rewrite <- Hk.
      apply list_elem_of_fmap. exists x.
      split; [reflexivity | apply list_elem_of_In, Hsub, Hin]. }
  eexists. split; [exact Heq1|]. cbn [newArticles updatedArticles
                                     deletedArticleIds needsReindex].
  split; [reflexivity|]. split; [reflexivity|]. split; [exact Hsame|].
  rewrite length_pos_iff. split; intros Hne Hnil; apply Hne.
  - destruct deleted1 as [|k d]; [reflexivity|]. exfalso.
    assert (Hk : k ∈ deleted0) by (apply Hsame; left).
    rewrite Hnil in Hk. apply elem_of_nil in Hk. exact Hk.
  - destruct deleted0 as [|k d]; [reflexivity|]. exfalso.
    assert (Hk : k ∈ deleted1) by (apply Hsame; left).
    rewrite Hnil in Hk. apply elem_of_nil in Hk. exact Hk.
Qed.

End Settling.

Lemma reindexing_settles_witness :
  isLoaded indexedService = true /\
  NoDup (map ZendeskArticle.id [article1_edited; article2]) /\
  exists r0,
    needsReindexing exampleParse [article1_edited; article2] indexedService
    = (Ok r0, indexedService) /\
    exists r1,
      needsReindexing exampleParse [article1_edited; article2]
        (snd (upsertData exampleISO (newArticles r0 ++ updatedArticles r0)
                [] [] "BAAI/bge-large-en-v1.5" 1000 200 indexedService))
      = (Ok r1,
         snd (upsertData exampleISO (newArticles r0 ++ updatedArticles r0)
                [] [] "BAAI/bge-large-en-v1.5" 1000 200 indexedService)) /\
      newArticles r1 = [] /\ updatedArticles r1 = [].
Proof.
  assert (Hnd : NoDup (map ZendeskArticle.id [article1_edited; article2])).
  { simpl. apply NoDup_cons. split; [|apply NoDup_singleton].
    intros H. apply list_elem_of_singleton in H. discriminate. }
  split; [reflexivity|]. split; [exact Hnd|].
  destruct (needsReindexing_loaded exampleParse indexedService
              [article1_edited; article2] eq_refl) as (deleted & Heq & _).
  eexists. split; [exact Heq|].
  destruct (reindexing_settles exampleISO exampleParse indexedService
              [article1_edited; article2] _ [] [] "BAAI/bge-large-en-v1.5"
              1000 200 eq_refl Hnd Heq) as (r1 & H1 & Hn & Hu & _).
  exists r1. split; [exact H1|]. split; assumption.
Defined.

End ReindexFacts.

(* ===================================================================== *)
(** * Facts about the sources of an answer *)
(* ===================================================================== *)

Module ChatFacts.
Import Chunker JsNumber Store StoreFacts Chat.
Local Open Scope Z_scope.

Lemma lastIndexOf_from_spec c : forall (t : text) i found,
  let r := lastIndexOf_from c t i found in
  (r = found /\ forall j x, t !! j = Some x -> x <> c) \/
  (i <= r < i + jsLength t /\ t !! Z.to_nat (r - i) = Some c /\
   forall j x, (Z.to_nat (r - i) < j)%nat -> t !! j = Some x -> x <> c).
Proof.
  induction t as [|x t IH]; intros i found; cbn [lastIndexOf_from].
  - left. split; [reflexivity|]. intros j y Hj. discriminate.
  - unfold jsLength. cbn [length].
    destruct (IH (i + 1) (if (x =? c)%N then i else found))
      as [[Hr Hno]|(Hr & Hc & Hno)].
    + destruct (N.eqb_spec x c) as [->|Hne].
      * right. rewrite Hr. split; [lia|]. rewrite Z.sub_diag. simpl.
        split; [reflexivity|]. intros [|j] y Hlt Hj; [lia|].
        apply (Hno j y Hj).
      * left. split; [exact Hr|]. intros [|j] y Hj.
        -- inversion Hj; subst. exact Hne.
        -- apply (Hno j y Hj).
    + right. unfold jsLength in Hr. split; [lia|].
      replace (Z.to_nat (lastIndexOf_from c t (i + 1)
                           (if (x =? c)%N then i else found) - i))
        with (S (Z.to_nat (lastIndexOf_from c t (i + 1)
                             (if (x =? c)%N then i else found) - (i + 1))))
        by lia.
      split; [exact Hc|]. intros [|j] y Hlt Hj; [lia|].
      apply (Hno j y); [lia | exact Hj].
Qed.

(** [truncateText] returns a text of at most [maxLength] code units as it
    is. It cuts a longer one after its first [maxLength] code units, or,
    when one of these but the first is a space, before the last such space,
    and appends three dots: the result has at most [maxLength + 3] code
    units. *)
Theorem truncateText_cut (t : text) maxLength :
  0 <= maxLength ->
  (jsLength t <= maxLength -> truncateText t maxLength = t) /\
  (maxLength < jsLength t ->
   exists k,
     0 <= k <= maxLength /\
     truncateText t maxLength = take (Z.to_nat k) t ++ ofString "..." /\
     (k < maxLength ->
      0 < k /\ t !! Z.to_nat k = Some 32%N /\
      forall j, k < j < maxLength -> t !! Z.to_nat j <> Some 32%N) /\
     (k = maxLength ->
      forall j, 0 < j < maxLength -> t !! Z.to_nat j <> Some 32%N)) /\
  jsLength (truncateText t maxLength) <= Z.max (jsLength t) (maxLength + 3).
Proof.
  intros Hmax. unfold truncateText.
  destruct (Z.leb_spec (jsLength t) maxLength) as [Hle|Hgt].
  { split; [reflexivity|]. split; [lia|]. lia. }
  split; [lia|].
  set (truncated := substr0 t maxLength).
  assert (Hlen : jsLength truncated = maxLength).
  { unfold truncated, substr0, jsLength in *. rewrite length_take. lia. }
  destruct (lastIndexOf_from_spec 32%N truncated 0 (-1))
    as [[Hr Hno]|(Hr & Hc & Hno)]; fold (lastIndexOf 32 truncated) in *.
  - rewrite Hr. destruct (Z.gtb_spec (-1) 0); [lia|]. split.
    + intros _. exists maxLength. split; [lia|]. split; [reflexivity|].
      split; [lia|]. intros _ j Hj Hsp.
      apply (Hno (Z.to_nat j) 32%N); [|reflexivity].
      unfold truncated, substr0. rewrite lookup_take_lt by lia. exact Hsp.
    + unfold jsLength in *. rewrite length_app. fold truncated.
      change (length (ofString "...")) with 3%nat. lia.
  - rewrite Z.sub_0_r in Hc, Hno.
    set (r := lastIndexOf 32 truncated) in *.
    destruct (Z.gtb_spec r 0) as [Hpos|Hnone].
    + assert (Hcut : substr0 truncated r = take (Z.to_nat r) t).
      { unfold truncated, substr0. rewrite take_take. f_equal. lia. }
      rewrite Hcut. split.
      * intros _. exists r. split; [lia|]. split; [reflexivity|]. split.
        -- intros _. split; [lia|]. split.
           ++ unfold truncated, substr0 in Hc.
              rewrite lookup_take_lt in Hc by lia. exact Hc.
           ++ intros j Hj Hsp. apply (Hno (Z.to_nat j) 32%N); [lia| |reflexivity].
              unfold truncated, substr0. rewrite lookup_take_lt by lia. exact Hsp.
        -- intros Heq. lia.
      * unfold jsLength in *. rewrite length_app, length_take.
        change (length (ofString "...")) with 3%nat. lia.
    + assert (Hr0 : r = 0) by lia. split.
      * intros _. exists maxLength. split; [lia|]. split; [reflexivity|].
        split; [lia|]. intros _ j Hj Hsp.
        apply (Hno (Z.to_nat j) 32%N); [lia| |reflexivity].
        unfold truncated, substr0. rewrite lookup_take_lt by lia. exact Hsp.
      * unfold jsLength in *. rewrite length_app. fold truncated.
        change (length (ofString "...")) with 3%nat. lia.
Qed.

Lemma truncateText_cut_witness :
  0 <= 10 /\
  exists k,
    0 <= k <= 10 /\
    truncateText (ofString "reset the password") 10
    = take (Z.to_nat k) (ofString "reset the password") ++ ofString "...".
Proof.
  split; [lia|].
  destruct (truncateText_cut (ofString "reset the password") 10 ltac:(lia))
    as (_ & H & _).
  destruct H as (k & Hk & Heq & _); [vm_compute; reflexivity|].
  exists k. split; assumption.
Defined.

Lemma truncateText_length (t : text) maxLength :
  0 <= maxLength -> jsLength (truncateText t maxLength) <= maxLength + 3.
Proof.
  intros Hmax. unfold truncateText, substr0, jsLength.
  destruct (Z.leb_spec (Z.of_nat (length t)) maxLength); [lia|].
  destruct (_ >? 0); rewrite length_app, !length_take;
    change (length (ofString "...")) with 3%nat; lia.
Qed.

Section SourcesFacts.
Variable toISOString : Z -> string.
Variable Date_parse : string -> option Z.
Variable codeUnits : string -> text.
Variable fromCodeUnits : text -> string.

Lemma sourceOf_Ok r src :
  sourceOf codeUnits fromCodeUnits r = Ok src ->
  exists c, chunk r = OfChunk c /\
    src = {| articleId := ArticleChunk.articleId c;
             title := ArticleChunk.title c;
             url := ArticleChunk.url c;
             snippet := fromCodeUnits
                          (truncateText (codeUnits (ArticleChunk.content c)) 150);
             relevanceScore := similarity r |}.
Proof using Type.
  clear toISOString Date_parse.
  unfold sourceOf. destruct (chunk r) as [c| | | | |]; try discriminate.
  intros H. inversion H. eauto.
Qed.

Lemma extractSources_Ok : forall l ss,
  extractSources codeUnits fromCodeUnits l = Ok ss ->
  Forall2 (fun src r => sourceOf codeUnits fromCodeUnits r = Ok src) ss l.
Proof using Type.
  clear toISOString Date_parse.
  induction l as [|r l IH]; intros ss H; simpl in H.
  - inversion H. constructor.
  - destruct (sourceOf codeUnits fromCodeUnits r) as [src|] eqn:Hr; [|discriminate].
    destruct (extractSources codeUnits fromCodeUnits l) as [ss'|]; [|discriminate].
    inversion H; subst ss. constructor; [exact Hr | apply IH; reflexivity].
Qed.

Lemma extractSources_Err : forall l e,
  extractSources codeUnits fromCodeUnits l = Err e ->
  exists r, In r l /\ forall c, chunk r <> OfChunk c.
Proof using Type.
  clear toISOString Date_parse.
  induction l as [|r l IH]; intros e H; simpl in H; [discriminate|].
  unfold sourceOf in H.
  destruct (chunk r) as [c| | | | |] eqn:Hc;
    try (exists r; split; [left; reflexivity | rewrite Hc; discriminate]).
  destruct (extractSources codeUnits fromCodeUnits l) as [ss'|e'] eqn:Hl;
    [discriminate|].
  destruct (IH e' eq_refl) as (r' & Hin & Hr'). exists r'.
  split; [right; exact Hin | exact Hr'].
Qed.

Lemma extractSources_chunks : forall l,
  (forall r, In r l -> exists c, chunk r = OfChunk c) ->
  exists ss, extractSources codeUnits fromCodeUnits l = Ok ss.
Proof using Type.
  clear toISOString Date_parse.
  intros l Hall.
  destruct (extractSources codeUnits fromCodeUnits l) as [ss|e] eqn:H; [eauto|].
  apply extractSources_Err in H as (r & Hin & Hr).
  destruct (Hall r Hin) as [c Hc]. exfalso. exact (Hr c Hc).
Qed.

(** What [search] returned, with how many results it returned. *)
Lemma search_hits q opts w rs w' :
  search toISOString Date_parse q opts w = (Ok rs, w') ->
  Forall (searchHit Date_parse (clock w') (vectorStore w') (chunksProto w') q opts)
         rs /\
  (0 <= maxResults opts -> Z.of_nat (length rs) <= maxResults opts).
Proof using Type.
  clear codeUnits fromCodeUnits.
  intros Hrun. unfold search in Hrun. rewrite bind_ensureLoaded in Hrun.
  set (w1 := if isLoaded w then w else snd (load toISOString w)) in Hrun.
  unfold bind, getState, throw, ret in Hrun.
  destruct (searchLoop Date_parse (clock w1) (vectorStore w1) (chunksProto w1)
              q opts (values (embeddings (vectorStore w1))) [])
    as [results|] eqn:Hscan; [|discriminate].
  inversion Hrun; subst. unfold arraySlice0. split.
  - apply Forall_take, sortResults_Forall.
    eapply searchLoop_hits; [|constructor | exact Hscan].
    intros e He. apply elem_of_values in He. exact He.
  - intros Hmax. rewrite length_take.
    destruct (Z.ltb_spec (maxResults opts) 0); lia.
Qed.

(** The sources shown with an answer, as [handleChatMessage] gets them:
    [extractSources] of what [search] returned. [extractSources] throws
    exactly when a result holds, as its chunk, a value that is no chunk,
    which a stored embedding brings about only when its [articleChunkId] is
    the name of a property of [Object.prototype] or of a field of a chunk.
    When it returns there is one source for each result, in the order of
    the results, so at most [maxResults]; each names the article, title and
    URL of the chunk the store holds under the [articleChunkId] of the
    result (or, for [__proto__], of the chunk that is the prototype of the
    chunk dictionary); its relevance is the similarity of the result, not
    the boosted score that ordered the results, and is at or above
    [minSimilarity]; its snippet has at most 153 code units. *)
Theorem sources_of_search q opts w rs w' :
  search toISOString Date_parse q opts w = (Ok rs, w') ->
  (extractSources codeUnits fromCodeUnits rs = Err CannotReadLength <->
   exists r, In r rs /\ forall c, chunk r <> OfChunk c) /\
  ((forall r, In r rs ->
      (Embedding.articleChunkId (embedding r) ∉ prototypeNames) /\
      (Embedding.articleChunkId (embedding r) ∉ fieldNames)) ->
   exists sources, extractSources codeUnits fromCodeUnits rs = Ok sources) /\
  (forall sources,
     extractSources codeUnits fromCodeUnits rs = Ok sources ->
     (0 <= maxResults opts -> Z.of_nat (length sources) <= maxResults opts) /\
     Forall2 (fun src r =>
                relevanceScore src = similarity r /\
                (minSimilarity opts <=? relevanceScore src)%float = true /\
                (exists c,
                   chunk r = OfChunk c /\
                   (chunks (vectorStore w') !! Embedding.articleChunkId (embedding r)
                    = Some c \/
                    (Embedding.articleChunkId (embedding r) = "__proto__" /\
                     chunksProto w' = Some c)) /\
                   articleId src = ArticleChunk.articleId c /\
                   title src = ArticleChunk.title c /\
                   url src = ArticleChunk.url c) /\
                exists x, snippet src = fromCodeUnits x /\ jsLength x <= 153)
             sources rs).
Proof using Type.
  intros Hrun. destruct (search_hits q opts w rs w' Hrun) as [Hhits Hcount].
  split; [|split].
  - split; [apply extractSources_Err|].
    intros (r & Hin & Hr).
    destruct (extractSources codeUnits fromCodeUnits rs) as [ss|[]] eqn:H;
      [|reflexivity].
    exfalso. apply extractSources_Ok in H.
    apply list_elem_of_In in Hin.
    destruct (proj1 (list_elem_of_lookup rs r) Hin) as [i Hi].
    destruct (Forall2_lookup_r _ _ _ _ _ H Hi) as (src & _ & Hsrc).
    apply sourceOf_Ok in Hsrc as (c & Hc & _). exact (Hr c Hc).
  - intros Hnames. apply extractSources_chunks. intros r Hin.
    rewrite List.Forall_forall in Hhits.
    destruct (Hhits r Hin) as (_ & Hget & Ht & _).
    destruct (Hnames r Hin) as [Hp Hf].
    rewrite (getProperty_own _ _ Hp Hf) in Hget. simpl in Hget.
    destruct (chunks (vectorStore w') !! Embedding.articleChunkId (embedding r))
      as [c|]; [eauto|].
    rewrite <- Hget in Ht. discriminate.
  - intros sources Hs. apply extractSources_Ok in Hs.
    split.
    + intros Hmax. rewrite (Forall2_length _ _ _ Hs). apply Hcount, Hmax.
    + clear Hrun Hcount. revert Hhits.
      induction Hs as [|src r ss rs' Hsrc _ IH]; intros Hhits; constructor.
      * inversion Hhits as [|? ? (_ & Hget & _ & _ & Hmin & _) _]; subst.
        apply sourceOf_Ok in Hsrc as (c & Hc & ->).
        cbn [relevanceScore articleId title url snippet].
        split; [reflexivity|]. split; [exact Hmin|]. split.
        -- exists c. split; [exact Hc|]. split; [|repeat split].
           rewrite Hc in Hget.
           apply getProperty_OfChunk in Hget as [Hown|(_ & Hk & Hp)];
             [left; exact Hown | right; split; assumption].
        -- eexists. split; [reflexivity|].
           pose proof (truncateText_length
                         (codeUnits (ArticleChunk.content c)) 150).
           lia.
      * apply IH. inversion Hhits; assumption.
Qed.

End SourcesFacts.

Lemma sources_of_search_witness :
  exists rs w' sources,
    search exampleISO exampleParse [1; 0]%float boostedSearch indexedService
    = (Ok rs, w') /\
    extractSources ofString Embeddings.toString rs = Ok sources /\
    length sources = 1%nat /\
    Forall2 (fun src r =>
               relevanceScore src = similarity r /\
               (minSimilarity boostedSearch <=? relevanceScore src)%float = true /\
               (exists c,
                  chunk r = OfChunk c /\
                  (chunks (vectorStore w') !! Embedding.articleChunkId (embedding r)
                   = Some c \/
                   (Embedding.articleChunkId (embedding r) = "__proto__" /\
                    chunksProto w' = Some c)) /\
                  articleId src = ArticleChunk.articleId c /\
                  title src = ArticleChunk.title c /\
                  url src = ArticleChunk.url c) /\
               exists x, snippet src = Embeddings.toString x /\ jsLength x <= 153)
            sources rs.
Proof.
  destruct (search exampleISO exampleParse [1; 0]%float boostedSearch
              indexedService) as [[rs|err] w'] eqn:Hrun.
  - destruct (extractSources ofString Embeddings.toString rs) as [sources|e]
      eqn:Hs.
    + exists rs, w', sources. split; [reflexivity|]. split; [exact Hs|].
      split.
      * vm_compute in Hrun. inversion Hrun; subst rs.
        vm_compute in Hs. inversion Hs. reflexivity.
      * exact (proj2 (proj2 (proj2 (sources_of_search exampleISO exampleParse
                                      ofString Embeddings.toString _ _ _ _ _ Hrun))
                       sources Hs)).
    + exfalso. vm_compute in Hrun. inversion Hrun; subst rs.
      vm_compute in Hs. discriminate.
  - exfalso. vm_compute in Hrun. discriminate.
Defined.

(** An embedding that names the chunk [constructor], stored without a
    chunk: [search] returns a result for it, whose chunk is the function
    [Object.prototype.constructor], and [extractSources] throws. *)
Example sources_of_inherited :
  let w := snd (upsertData exampleISO [] [] [strayEmbedding]
                  "BAAI/bge-large-en-v1.5" 1000 200 loadedService) in
  chunks (vectorStore w) = ∅ /\
  match fst (search exampleISO exampleParse [1; 0]%float boostedSearch w) with
  | Ok rs => map chunk rs = [Builtin "constructor"] /\
             extractSources ofString Embeddings.toString rs
             = Err CannotReadLength
  | Err _ => False
  end.
Proof. vm_compute. repeat split; reflexivity. Qed.

End ChatFacts.
